(** * httpx: the retrying transport and its backoff strategies

    A shallow embedding of the retry decorator of the httpx package
    (ErrAllRetriesFailed, ExponentialBackoff, FixedDelay, JitterBackoff,
    retryTransport.RoundTrip, NewHTTPRetryClient) and the properties of it
    that the specification states.

    Conventions of the embedding:
    - [time.Duration] and [int] are 64-bit signed integers, written as [Z]
      with the wrap-around of every arithmetic operation spelled out;
    - a Go [error] is a tree: a leaf made by [errors.New] (with the identity
      of its pointer) or a node made by [fmt.Errorf] with one [%w] verb;
    - the underlying transport, the body-regeneration closure and the
      random source are effectful, so [RoundTrip] threads an explicit state:
      the world of the collaborators, the tape of the random source, the
      clock that [time.Sleep] advances and a ghost trace of the calls made;
    - a run-time panic (nil dereference, [rand.Int63n] on a non-positive
      bound) is a result of its own. *)

From Stdlib Require Import ZArith List String Ascii Bool Lia DecimalString.
From Equations Require Import Equations.
Import ListNotations.

Local Open Scope string_scope.
Local Open Scope list_scope.
Local Open Scope Z_scope.

(** ** 64-bit integers *)

Module Int64.

Definition min_int : Z := - 2 ^ 63.
Definition max_int : Z := 2 ^ 63 - 1.

(** Two's-complement wrap-around of a mathematical integer. *)
Definition wrap (z : Z) : Z := (z + 2 ^ 63) mod 2 ^ 64 - 2 ^ 63.

Definition add (x y : Z) : Z := wrap (x + y).
Definition mul (x y : Z) : Z := wrap (x * y).

(** Go's [/] on integers truncates toward zero. *)
Definition quo (x y : Z) : Z := wrap (Z.quot x y).

(** [uint(a)] for an [int] value [a]. *)
Definition to_uint (a : Z) : Z := a mod 2 ^ 64.

(** [x << count] at type int64, [count] an unsigned shift count: the bits
    shifted out are lost, and a count of 64 or more leaves 0. *)
Definition shl (x count : Z) : Z :=
  if 64 <=? count then 0 else wrap (Z.shiftl x count).

Definition in_range (z : Z) : Prop := min_int <= z <= max_int.

End Int64.

(** ** time.Duration *)

Definition Duration : Type := Z.

Definition Nanosecond : Duration := 1.
Definition Millisecond : Duration := 1000000.
Definition Second : Duration := 1000000000.

(** ** Go errors *)

(** [errorString] is the value made by [errors.New]: comparing two of them
    with [==] compares pointers, which [addr] stands for.  [wrapError] is the
    value made by [fmt.Errorf] with a [%w] verb: [msg] is the formatted
    message and [err] the operand of [%w]. *)
Inductive error : Type :=
| errorString (addr : positive) (s : string)
| wrapError (msg : string) (err : error).

Fixpoint error_eqb (a b : error) : bool :=
  match a, b with
  | errorString i s, errorString j t => Pos.eqb i j && String.eqb s t
  | wrapError m e, wrapError n f => String.eqb m n && error_eqb e f
  | _, _ => false
  end.

(** [err.Error()] *)
Definition Error (e : error) : string :=
  match e with
  | errorString _ s => s
  | wrapError msg _ => msg
  end.

(** [errors.Unwrap] *)
Definition Unwrap (e : error) : option error :=
  match e with
  | errorString _ _ => None
  | wrapError _ inner => Some inner
  end.

(** [errors.Is]: walks the chain of [Unwrap], comparing with [==]. *)
Fixpoint errors_Is (e target : error) : bool :=
  error_eqb e target ||
  match e with
  | errorString _ _ => false
  | wrapError _ inner => errors_Is inner target
  end.

(** [fmt.Errorf(prefix + "%w" + suffix, err)] *)
Definition Errorf_w (prefix : string) (err : error) (suffix : string) : error :=
  wrapError (prefix ++ Error err ++ suffix) err.

(** The [%d] verb. *)
Definition itoa (z : Z) : string := NilZero.string_of_int (Z.to_int z).

Definition ErrAllRetriesFailed : error :=
  errorString 1 "all retry attempts failed".

(** ** Backoff strategies *)

(** [math/rand]'s global source is a tape of raw 63-bit draws.  [Int63n n]
    panics ([None]) when [n <= 0] and otherwise yields a value of [[0, n)]. *)
Definition Rng : Type := list Z.

Definition rand_Int63n (n : Z) (rng : Rng) : option Z * Rng :=
  if n <=? 0 then (None, rng)
  else match rng with
       | [] => (Some 0, [])
       | v :: rest => (Some (v mod n), rest)
       end.

(** [type RetryStrategy func(attempt int) time.Duration]: a Go function may
    draw from the random source and may panic ([None]). *)
Definition RetryStrategy : Type := Z -> Rng -> option Duration * Rng.

(** The computed delay [base * (1 << uint(attempt))] at type [Duration]. *)
Definition exponentialDelay (base : Duration) (attempt : Z) : Duration :=
  Int64.mul base (Int64.shl 1 (Int64.to_uint attempt)).

Definition ExponentialBackoff (base maxDelay : Duration) : RetryStrategy :=
  fun attempt rng =>
    if (attempt =? 0) && (base >? maxDelay) then (Some base, rng)
    else
      let delay := exponentialDelay base attempt in
      let delay := if (delay >? maxDelay) || (delay <=? 0) then maxDelay else delay in
      (Some delay, rng).

Definition FixedDelay (delay : Duration) : RetryStrategy :=
  fun attempt rng => (Some delay, rng).

Definition JitterBackoff (base maxDelay : Duration) : RetryStrategy :=
  let expBackoff := ExponentialBackoff base maxDelay in
  fun attempt rng =>
    match expBackoff attempt rng with
    | (None, rng1) => (None, rng1)
    | (Some baseDelay, rng1) =>
        match rand_Int63n (Int64.quo baseDelay 2) rng1 with
        | (None, rng2) => (None, rng2)
        | (Some jitter, rng2) => (Some (Int64.add baseDelay jitter), rng2)
        end
    end.

(** ** Requests, responses and the ghost trace *)

(** An [io.ReadCloser]: reading it to the end yields [content] and then
    [readErr] ([None] is a clean end of file); [Close] returns [closeErr]. *)
Record ReadCloser : Type := {
  content : string;
  readErr : option error;
  closeErr : option error
}.

(** [http.Response].  [Body] is an interface value, so it can be nil
    ([None]): nothing obliges a [RoundTripper] to set it. *)
Record Response : Type := {
  StatusCode : Z;
  resp_Header : list (string * string);
  resp_Body : option ReadCloser
}.

(** A response of [*http.Transport].  net/http guarantees that the [Body]
    of such a response is never nil, also when the answer has no content. *)
Record TransportResponse : Type := {
  tr_StatusCode : Z;
  tr_Header : list (string * string);
  tr_Body : ReadCloser
}.

Definition toResponse (tr : TransportResponse) : Response :=
  {| StatusCode := tr_StatusCode tr; resp_Header := tr_Header tr;
     resp_Body := Some (tr_Body tr) |}.

(** The request's [context.Context]: [None] never fires; [Some (t, e)] fires
    when the clock reaches [t], and [ctx.Err()] is [e] from then on. *)
Definition Context : Type := option (Z * error).

Definition context_Canceled : error := errorString 2 "context canceled".
Definition context_DeadlineExceeded : error :=
  errorString 3 "context deadline exceeded".

Definition ctx_Err (c : Context) (now : Z) : option error :=
  match c with
  | Some (t, e) => if t <=? now then Some e else None
  | None => None
  end.

Definition StatusInternalServerError : Z := 500.

Inductive Level : Type := LevelWarn | LevelError.

Inductive AttrValue : Type :=
| AInt (z : Z)
| ADuration (d : Duration)
| AError (e : error)
| AString (s : string).

(** What [RoundTrip] does to its collaborators, in order. *)
Inductive Event : Type :=
| EvGetBody
| EvRoundTrip (body : option ReadCloser)
| EvCopyDiscard (rc : ReadCloser)
| EvClose (rc : ReadCloser)
| EvSleep (d : Duration)
| EvLog (level : Level) (msg : string) (attrs : list (string * AttrValue)).

Definition is_RoundTrip (e : Event) : bool :=
  match e with EvRoundTrip _ => true | _ => false end.

(** The number of underlying-transport invocations recorded in a trace. *)
Definition invocations (tr : list Event) : nat :=
  List.length (List.filter is_RoundTrip tr).

(** [*slog.Logger]; what it does is the [EvLog] event. *)
Inductive Logger : Type := slogLogger.

Section Model.

(** The state of the collaborators (transport, body source). *)
Context {World : Type}.

Definition Outcome : Type := (option Response * option error)%type.

(** [http.Request] *)
Record Request : Type := {
  Method : string;
  URL : string;
  Header : list (string * string);
  Body : option ReadCloser;
  GetBody : option (World -> (option ReadCloser * option error) * World);
  ctx : Context
}.

Definition set_Body (req : Request) (b : option ReadCloser) : Request :=
  {| Method := Method req; URL := URL req; Header := Header req;
     Body := b; GetBody := GetBody req; ctx := ctx req |}.

Definition WithContext (req : Request) (c : Context) : Request :=
  {| Method := Method req; URL := URL req; Header := Header req;
     Body := Body req; GetBody := GetBody req; ctx := c |}.

(** [http.RoundTripper]: the transport answers from the request and the
    state of the world, which it may change.  It is handed the request by
    value: as its contract demands, it does not modify the request. *)
Definition RoundTripper : Type := Request -> World -> Outcome * World.

(** What [RoundTrip] runs in: the world of its collaborators, the random
    source, the time spent so far in [time.Sleep], and the ghost trace. *)
Record State : Type := {
  world : World;
  rng : Rng;
  clock : Z;
  trace : list Event
}.

Definition emit (e : Event) (s : State) : State :=
  {| world := world s; rng := rng s; clock := clock s;
     trace := trace s ++ [e] |}.

Definition set_world (w : World) (s : State) : State :=
  {| world := w; rng := rng s; clock := clock s; trace := trace s |}.

Definition set_rng (g : Rng) (s : State) : State :=
  {| world := world s; rng := g; clock := clock s; trace := trace s |}.

Definition advance (d : Duration) (s : State) : State :=
  {| world := world s; rng := rng s; clock := clock s + Z.max 0 d;
     trace := trace s |}.

(** A computation ends with a value or panics. *)
Inductive Res (A : Type) : Type :=
| Ok (a : A) (s : State)
| Panic (s : State).
Arguments Ok {A} a s.
Arguments Panic {A} s.

Definition final_state {A} (r : Res A) : State :=
  match r with Ok _ s => s | Panic s => s end.

Definition M (A : Type) : Type := State -> Res A.

Definition ret {A} (a : A) : M A := fun s => Ok a s.

Definition bind {A B} (m : M A) (k : A -> M B) : M B :=
  fun s => match m s with
           | Ok a s1 => k a s1
           | Panic s1 => Panic s1
           end.

Definition panic {A} : M A := fun s => Panic s.

Notation "x <- m ;; k" := (bind m (fun x => k))
  (at level 61, m at next level, right associativity).
Notation "m ;;; k" := (bind m (fun _ => k))
  (at level 61, right associativity).

(** *** The calls [RoundTrip] makes *)

Definition call_GetBody
    (getBody : World -> (option ReadCloser * option error) * World)
  : M (option ReadCloser * option error) :=
  fun s => let '(r, w) := getBody (world s) in
           Ok r (emit EvGetBody (set_world w s)).

Definition call_RoundTrip (transport : RoundTripper) (req : Request)
  : M Outcome :=
  fun s => let '(o, w) := transport req (world s) in
           Ok o (emit (EvRoundTrip (Body req)) (set_world w s)).

(** [io.Copy(io.Discard, rc)], of which only the error is used. *)
Definition io_Copy_Discard (rc : ReadCloser) : M (option error) :=
  fun s => Ok (readErr rc) (emit (EvCopyDiscard rc) s).

Definition Close (rc : ReadCloser) : M (option error) :=
  fun s => Ok (closeErr rc) (emit (EvClose rc) s).

(** [time.Sleep]: a negative or zero duration returns immediately. *)
Definition time_Sleep (d : Duration) : M unit :=
  fun s => Ok tt (emit (EvSleep d) (advance d s)).

Definition call_strategy (strategy : RetryStrategy) (attempt : Z)
  : M Duration :=
  fun s => match strategy attempt (rng s) with
           | (Some d, g) => Ok d (set_rng g s)
           | (None, g) => Panic (set_rng g s)
           end.

Definition log (logger : option Logger) (level : Level) (msg : string)
    (attrs : list (string * AttrValue)) : M unit :=
  fun s => match logger with
           | Some _ => Ok tt (emit (EvLog level msg attrs) s)
           | None => Ok tt s
           end.

(** *** retryTransport *)

Record retryTransport : Type := {
  rt_Transport : option RoundTripper;
  rt_RetryStrategy : option RetryStrategy;
  rt_MaxRetries : Z;
  rt_logger : option Logger
}.

(** What one pass of the loop body ends with: a [return] of [RoundTrip]
    or the next pass.  Both carry the request as the pass left it. *)
Inductive Step : Type :=
| Return (req : Request) (out : Outcome)
| Continue (req : Request).

Section Loop.

Variable transport : RoundTripper.
Variable retryStrategy : RetryStrategy.
Variable r : retryTransport.

(** Lines 95-102: the body is regenerated on every pass, the first
    included, when the request has both a body and [GetBody]. *)
Definition cloneBody (req : Request) : M (Request + error) :=
  match Body req, GetBody req with
  | Some _, Some getBody =>
      res <- call_GetBody getBody ;;
      match res with
      | (_, Some err) =>
          ret (inr (Errorf_w "failed to get request body for retry: " err ""))
      | (bodyClone, None) => ret (inl (set_Body req bodyClone))
      end
  | _, _ => ret (inl req)
  end.

(** Lines 113-126: drain, then close, then look at the two errors.  The
    body is not tested for nil: [io.Copy] panics when it reads from a nil
    [resp.Body]. *)
Definition discardBody (resp : option Response) : M (option error) :=
  match resp with
  | Some rp =>
      match resp_Body rp with
      | None => panic
      | Some body =>
          copyErr <- io_Copy_Discard body ;;
          closeErr <- Close body ;;
          match copyErr, closeErr with
          | Some e, _ =>
              ret (Some (Errorf_w "failed to discard response body: " e ""))
          | None, Some e =>
              ret (Some (Errorf_w "failed to close response body: " e ""))
          | None, None => ret None
          end
      end
  | None => ret None
  end.

(** Lines 133-153 *)
Definition logRetry (attempt : Z) (req : Request) (resp : option Response)
    (err : option error) (delay : Duration) : M unit :=
  match err, resp with
  | Some e, _ =>
      log (rt_logger r) LevelWarn "HTTP request failed, retrying"
        [("attempt", AInt (attempt + 1));
         ("max_retries", AInt (rt_MaxRetries r));
         ("delay", ADuration delay);
         ("error", AError e);
         ("url", AString (URL req));
         ("method", AString (Method req))]
  | None, Some rp =>
      log (rt_logger r) LevelWarn "HTTP request returned server error, retrying"
        [("attempt", AInt (attempt + 1));
         ("max_retries", AInt (rt_MaxRetries r));
         ("delay", ADuration delay);
         ("status_code", AInt (StatusCode rp));
         ("url", AString (URL req));
         ("method", AString (Method req))]
  | None, None => ret tt
  end.

(** Lines 158-174 *)
Definition logFailure (req : Request) (resp : option Response)
    (err : option error) : M unit :=
  match err, resp with
  | Some e, _ =>
      log (rt_logger r) LevelError "All retry attempts failed"
        [("attempts", AInt (rt_MaxRetries r + 1));
         ("error", AError e);
         ("url", AString (URL req));
         ("method", AString (Method req))]
  | None, Some rp =>
      log (rt_logger r) LevelError "All retry attempts failed"
        [("attempts", AInt (rt_MaxRetries r + 1));
         ("status_code", AInt (StatusCode rp));
         ("url", AString (URL req));
         ("method", AString (Method req))]
  | None, None => ret tt
  end.

(** Lines 176-186: the error of an exhausted budget. *)
Definition exhaustedError (resp : option Response) (err : option error)
  : error :=
  match err, resp with
  | Some e, _ => Errorf_w "all retries failed; last error: " e ""
  | None, Some rp =>
      Errorf_w "" ErrAllRetriesFailed
        (": last attempt failed with status " ++ itoa (StatusCode rp))
  | None, None => ErrAllRetriesFailed
  end.

(** Lines 128-187: sleep and go round again, or give up. *)
Definition retryOrFail (attempt : Z) (req : Request)
    (resp : option Response) (err : option error) : M Step :=
  if attempt <? rt_MaxRetries r then
    delay <- call_strategy retryStrategy attempt ;;
    logRetry attempt req resp err delay ;;;
    time_Sleep delay ;;;
    ret (Continue req)
  else
    logFailure req resp err ;;;
    ret (Return req (None, Some (exhaustedError resp err))).

(** Lines 111-187: what follows an outcome that is not a success. *)
Definition afterFailure (attempt : Z) (req : Request)
    (resp : option Response) (err : option error) : M Step :=
  failed <- discardBody resp ;;
  match failed with
  | Some e => ret (Return req (None, Some e))
  | None => retryOrFail attempt req resp err
  end.

(** Lines 104-187: the transport call and the classification of its
    outcome.  [resp.StatusCode] on a nil [resp] panics. *)
Definition attemptOnce (attempt : Z) (req : Request) : M Step :=
  o <- call_RoundTrip transport req ;;
  let '(resp, err) := o in
  match err with
  | None =>
      match resp with
      | None => panic
      | Some rp =>
          if StatusCode rp <? StatusInternalServerError
          then ret (Return req (resp, None))
          else afterFailure attempt req resp err
      end
  | Some _ => afterFailure attempt req resp err
  end.

(** Lines 93-187: the body of the [for] loop. *)
Definition iteration (attempt : Z) (req : Request) : M Step :=
  c <- cloneBody req ;;
  match c with
  | inr e => ret (Return req (None, Some e))
  | inl req1 => attemptOnce attempt req1
  end.

(** Lines 92-190: [for attempt := 0; attempt <= r.MaxRetries; attempt++],
    from the pass [attempt] on, and the [return] after the loop. *)
Equations? loop (attempt : Z) (req : Request) (s : State)
  : Res (Request * Outcome)
  by wf (Z.to_nat (rt_MaxRetries r + 1 - attempt)) lt :=
  loop attempt req s with Z_le_gt_dec attempt (rt_MaxRetries r) := {
    | left _ with iteration attempt req s := {
        | Ok (Return req1 out) s1 => Ok (req1, out) s1
        | Ok (Continue req1) s1 => loop (attempt + 1) req1 s1
        | Panic s1 => Panic s1 }
    | right _ => Ok (req, (None, Some ErrAllRetriesFailed)) s }.
Proof. lia. Qed.

(** [reaches a req s a' req' s']: the loop that starts the pass [a] with
    [req] in the state [s] comes to start the pass [a'] with [req'] in
    the state [s']. *)
Inductive reaches
  : Z -> Request -> State -> Z -> Request -> State -> Prop :=
| reaches_here a req s : reaches a req s a req s
| reaches_next a req s req1 s1 a' req' s' :
    a <= rt_MaxRetries r ->
    iteration a req s = Ok (Continue req1) s1 ->
    reaches (a + 1) req1 s1 a' req' s' ->
    reaches a req s a' req' s'.

End Loop.

(** [http.DefaultTransport] *)
Variable DefaultTransport : RoundTripper.

(** Lines 81-84: a nil transport is replaced by the default one. *)
Definition transportOf (r : retryTransport) : RoundTripper :=
  match rt_Transport r with
  | Some t => t
  | None => DefaultTransport
  end.

(** Lines 87-90: a nil strategy is replaced by
    [ExponentialBackoff(500*time.Millisecond, 10*time.Second)]. *)
Definition strategyOf (r : retryTransport) : RetryStrategy :=
  match rt_RetryStrategy r with
  | Some f => f
  | None => ExponentialBackoff (500 * Millisecond) (10 * Second)
  end.

(** [func (r *retryTransport) RoundTrip(req *http.Request)]: the result is
    the pair that Go returns, with the request as [RoundTrip] left it. *)
Definition RoundTrip (r : retryTransport) (req : Request)
  : M (Request * Outcome) :=
  let transport := transportOf r in
  let retryStrategy := strategyOf r in
  loop transport retryStrategy r 0 req.

(** *** Client assembly *)

Definition DefaultMaxRetries : Z := 3.
Definition DefaultBaseDelay : Duration := 500 * Millisecond.
Definition DefaultMaxDelay : Duration := 10 * Second.

Record retryClientConfig : Type := {
  maxRetries : Z;
  strategy : option RetryStrategy;
  baseTransport : option RoundTripper;
  logger : option Logger
}.

Definition RetryClientOption : Type := retryClientConfig -> retryClientConfig.

Definition WithMaxRetriesRetry (n : Z) : RetryClientOption :=
  fun c => {| maxRetries := n; strategy := strategy c;
              baseTransport := baseTransport c; logger := logger c |}.

Definition WithRetryStrategyRetry (f : option RetryStrategy)
  : RetryClientOption :=
  fun c => {| maxRetries := maxRetries c; strategy := f;
              baseTransport := baseTransport c; logger := logger c |}.

Definition WithBaseTransport (t : option RoundTripper) : RetryClientOption :=
  fun c => {| maxRetries := maxRetries c; strategy := strategy c;
              baseTransport := t; logger := logger c |}.

Definition WithLoggerRetry (l : option Logger) : RetryClientOption :=
  fun c => {| maxRetries := maxRetries c; strategy := strategy c;
              baseTransport := baseTransport c; logger := l |}.

(** [NewHTTPRetryClient]: the [http.Client] it returns has no field set
    but [Transport], so the client is its retrying transport. *)
Definition NewHTTPRetryClient (options : list RetryClientOption)
  : retryTransport :=
  let config :=
    {| maxRetries := DefaultMaxRetries;
       strategy := Some (ExponentialBackoff DefaultBaseDelay DefaultMaxDelay);
       baseTransport := None;
       logger := None |} in
  let config := fold_left (fun c option => option c) options config in
  let transport :=
    match baseTransport config with
    | Some t => t
    | None => DefaultTransport
    end in
  let strategy :=
    match strategy config with
    | Some f => f
    | None => ExponentialBackoff DefaultBaseDelay DefaultMaxDelay
    end in
  {| rt_Transport := Some transport;
     rt_MaxRetries := maxRetries config;
     rt_RetryStrategy := Some strategy;
     rt_logger := logger config |}.

(** *** Vocabulary of the statements *)

(** An outcome after which the loop goes on: a transport error, or a
    response whose status is 500 or more. *)
Definition retryable (o : Outcome) : Prop :=
  match o with
  | (_, Some _) => True
  | (Some rp, None) => StatusInternalServerError <= StatusCode rp
  | (None, None) => False
  end.

(** The response, if there is one, has a body, which drains and closes
    without error. *)
Definition discards_cleanly (resp : option Response) : Prop :=
  match resp with
  | Some rp =>
      match resp_Body rp with
      | Some body => readErr body = None /\ closeErr body = None
      | None => False
      end
  | None => True
  end.

(** [s'] is [s] after some more events, [k] of them transport calls. *)
Definition extends (k : nat) (s s' : State) : Prop :=
  exists evs, trace s' = trace s ++ evs /\ invocations evs = k.

(** Two requests that differ at most in their body. *)
Definition same_but_Body (req req' : Request) : Prop :=
  Method req' = Method req /\ URL req' = URL req
  /\ Header req' = Header req /\ GetBody req' = GetBody req
  /\ ctx req' = ctx req.

(** The request a pass ends with. *)
Definition step_request (st : Step) : Request :=
  match st with
  | Return req _ => req
  | Continue req => req
  end.

Definition step_WithContext (c : Context) (st : Step) : Step :=
  match st with
  | Return req out => Return (WithContext req c) out
  | Continue req => Continue (WithContext req c)
  end.

Definition res_map {A B} (f : A -> B) (x : Res A) : Res B :=
  match x with
  | Ok a s => Ok (f a) s
  | Panic s => Panic s
  end.

(** The request of a result, with another context. *)
Definition result_WithContext (c : Context) (x : Res (Request * Outcome))
  : Res (Request * Outcome) :=
  match x with
  | Ok (q, o) s => Ok (WithContext q c, o) s
  | Panic s => Panic s
  end.

End Model.

Arguments Ok {World A} a s.
Arguments Panic {World A} s.
Arguments Request : clear implicits.
Arguments RoundTripper : clear implicits.
Arguments State : clear implicits.
Arguments retryTransport : clear implicits.

(** ** The fakes of the test suite *)

Module Fakes.

(** The counters the tests keep: calls of the mock transport and calls of
    the [GetBody] closure. *)
Record Counters : Type := {
  attempts : nat;
  getBodyAttempts : nat
}.

Definition tick_attempts (c : Counters) : Counters :=
  {| attempts := S (attempts c); getBodyAttempts := getBodyAttempts c |}.

Definition tick_getBody (c : Counters) : Counters :=
  {| attempts := attempts c; getBodyAttempts := S (getBodyAttempts c) |}.

Definition NopCloser (s : string) : ReadCloser :=
  {| content := s; readErr := None; closeErr := None |}.

Definition response (code : Z) (body : ReadCloser) : Response :=
  {| StatusCode := code; resp_Header := []; resp_Body := Some body |}.

Definition simulatedError : error :=
  errorString 10 "simulated transport error".
Definition simulatedReadError : error :=
  errorString 11 "simulated read error during drain".
Definition simulatedCloseError : error :=
  errorString 12 "simulated close error".
Definition getBodyError : error := errorString 13 "failed to get body".

(** Always the same status. *)
Definition alwaysStatus (code : Z) : RoundTripper Counters :=
  fun _ c => ((Some (response code (NopCloser "Fail")), None), tick_attempts c).

(** Always a transport error. *)
Definition alwaysError : RoundTripper Counters :=
  fun _ c => ((None, Some simulatedError), tick_attempts c).

(** 500 on the first [n] calls, 200 afterwards. *)
Definition failThenOK (n : nat) : RoundTripper Counters :=
  fun _ c =>
    if (attempts c <? n)%nat
    then ((Some (response 500 (NopCloser "Fail")), None), tick_attempts c)
    else ((Some (response 200 (NopCloser "Success")), None), tick_attempts c).

(** A 500 whose body fails while it is drained, or while it is closed. *)
Definition brokenBody (rc : ReadCloser) : RoundTripper Counters :=
  fun _ c => ((Some (response 500 rc), None), tick_attempts c).

(** [&http.Response{StatusCode: code}]: a response whose [Body] is nil. *)
Definition noBody (code : Z) : RoundTripper Counters :=
  fun _ c =>
    ((Some {| StatusCode := code; resp_Header := []; resp_Body := None |},
      None),
     tick_attempts c).

(** An [http.Transport] that always answers with the same status. *)
Definition serverStatus (code : Z)
  : Request Counters -> Counters
    -> (option TransportResponse * option error) * Counters :=
  fun _ c =>
    ((Some {| tr_StatusCode := code; tr_Header := [];
              tr_Body := NopCloser "Fail" |}, None),
     tick_attempts c).

(** [GetBody] that fails from its [n]-th call on (counting from 0). *)
Definition getBodyFailingFrom (n : nat) (content : string)
  : Counters -> (option ReadCloser * option error) * Counters :=
  fun c =>
    if (getBodyAttempts c <? n)%nat
    then ((Some (NopCloser content), None), tick_getBody c)
    else ((None, Some getBodyError), tick_getBody c).

Definition GET : Request Counters :=
  {| Method := "GET"; URL := "http://example.com"; Header := [];
     Body := None; GetBody := None; ctx := None |}.

(** A POST whose body can be regenerated until the [n]-th call. *)
Definition POST (n : nat) : Request Counters :=
  {| Method := "POST"; URL := "http://example.com";
     Header := [("Content-Type", "text/plain")];
     Body := Some (NopCloser "Request Body Content");
     GetBody := Some (getBodyFailingFrom n "Request Body Content");
     ctx := None |}.

(** A POST that has a body and no [GetBody]. *)
Definition POST_oneShot : Request Counters :=
  {| Method := "POST"; URL := "http://example.com";
     Header := [("Content-Type", "text/plain")];
     Body := Some (NopCloser "Request Body Content");
     GetBody := None;
     ctx := None |}.

Definition retrier (t : RoundTripper Counters) (n : Z) (f : RetryStrategy)
  : retryTransport Counters :=
  {| rt_Transport := Some t; rt_RetryStrategy := Some f;
     rt_MaxRetries := n; rt_logger := None |}.

Definition start : State Counters :=
  {| world := {| attempts := 0; getBodyAttempts := 0 |};
     rng := []; clock := 0; trace := [] |}.

(** One retry, every attempt a transport error. *)
Definition exhausting : retryTransport Counters :=
  retrier alwaysError 1 (FixedDelay Millisecond).

(** The state in which [exhausting] starts its second and last pass. *)
Definition afterFirstFailure : State Counters :=
  final_state
    (iteration alwaysError (FixedDelay Millisecond) exhausting 0 GET start).

(** A body that fails both while it is drained and when it is closed. *)
Definition errorReaderCloser : ReadCloser :=
  {| content := "some data";
     readErr := Some simulatedReadError;
     closeErr := Some simulatedCloseError |}.

(** A deadline half a second after the start. *)
Definition halfSecond : Context :=
  Some (500 * Millisecond, context_DeadlineExceeded).

End Fakes.

(** ** Vocabulary for runs with and without a logger *)

Definition is_Log (e : Event) : bool :=
  match e with EvLog _ _ _ => true | _ => false end.

(** A trace without its log events. *)
Definition without_logs (tr : list Event) : list Event :=
  List.filter (fun e => negb (is_Log e)) tr.

(** The backoffs of a trace, in order. *)
Fixpoint sleeps (tr : list Event) : list Duration :=
  match tr with
  | [] => []
  | EvSleep d :: rest => d :: sleeps rest
  | _ :: rest => sleeps rest
  end.

(** The time a list of backoffs takes: [time.Sleep] skips a negative one. *)
Fixpoint total_sleep (ds : list Duration) : Z :=
  match ds with
  | [] => 0
  | d :: rest => Z.max 0 d + total_sleep rest
  end.

(** The delays a function of the attempt gives for [n] attempts from [a]. *)
Definition delays (f : Z -> Duration) (a : Z) (n : nat) : list Duration :=
  List.map (fun i => f (a + Z.of_nat i)) (List.seq 0 n).

(** What [RoundTrip] may return: a response below 500 and no error, or no
    response and an error. *)
Definition response_xor_error (o : option Response * option error) : Prop :=
  match o with
  | (Some rp, None) => StatusCode rp < StatusInternalServerError
  | (None, Some _) => True
  | _ => False
  end.

Section Observers.

Context {World : Type}.

Definition strip_logs (s : State World) : State World :=
  {| world := world s; rng := rng s; clock := clock s;
     trace := without_logs (trace s) |}.

Definition res_strip_logs {A} (x : Res (World := World) A) : Res A :=
  match x with
  | Ok a s => Ok a (strip_logs s)
  | Panic s => Panic (strip_logs s)
  end.

(** The same transport with no logger. *)
Definition silenced (r : retryTransport World) : retryTransport World :=
  {| rt_Transport := rt_Transport r;
     rt_RetryStrategy := rt_RetryStrategy r;
     rt_MaxRetries := rt_MaxRetries r;
     rt_logger := None |}.

End Observers.

(** ** The client builder *)

Module ClientBuilder.

Definition ValidMaxIdleConns : Z := 200.
Definition ValidMinIdleConns : Z := 1.
Definition ValidMaxIdleConnsPerHost : Z := 200.
Definition ValidMinIdleConnsPerHost : Z := 1.
Definition ValidMaxIdleConnTimeout : Duration := 120 * Second.
Definition ValidMinIdleConnTimeout : Duration := 1 * Second.
Definition ValidMaxTLSHandshakeTimeout : Duration := 15 * Second.
Definition ValidMinTLSHandshakeTimeout : Duration := 1 * Second.
Definition ValidMaxExpectContinueTimeout : Duration := 5 * Second.
Definition ValidMinExpectContinueTimeout : Duration := 1 * Second.
Definition ValidMaxTimeout : Duration := 30 * Second.
Definition ValidMinTimeout : Duration := 1 * Second.
Definition ValidMaxRetries : Z := 10.
Definition ValidMinRetries : Z := 1.
Definition ValidMaxBaseDelay : Duration := 5 * Second.
Definition ValidMinBaseDelay : Duration := 300 * Millisecond.
Definition ValidMaxMaxDelay : Duration := 120 * Second.
Definition ValidMinMaxDelay : Duration := 300 * Millisecond.

Definition DefaultMaxIdleConns : Z := 100.
Definition DefaultIdleConnTimeout : Duration := 90 * Second.
Definition DefaultTLSHandshakeTimeout : Duration := 10 * Second.
Definition DefaultExpectContinueTimeout : Duration := 1 * Second.
Definition DefaultDisableKeepAlive : bool := false.
Definition DefaultMaxIdleConnsPerHost : Z := 100.
Definition DefaultTimeout : Duration := 5 * Second.

(** [type Strategy string] *)
Definition Strategy : Type := string.

Definition FixedDelayStrategy : Strategy := "fixed".
Definition JitterBackoffStrategy : Strategy := "jitter".
Definition ExponentialBackoffStrategy : Strategy := "exponential".

(** [func (s Strategy) IsValid() bool] *)
Definition IsValid (s : Strategy) : bool :=
  String.eqb s FixedDelayStrategy
  || String.eqb s JitterBackoffStrategy
  || String.eqb s ExponentialBackoffStrategy.

(** [type Client struct]: the settings a [ClientBuilder] collects. *)
Record Client : Type := {
  retryStrategyType : Strategy;
  maxIdleConns : Z;
  idleConnTimeout : Duration;
  tlsHandshakeTimeout : Duration;
  expectContinueTimeout : Duration;
  maxIdleConnsPerHost : Z;
  timeout : Duration;
  maxRetries : Z;
  retryBaseDelay : Duration;
  retryMaxDelay : Duration;
  disableKeepAlive : bool;
  proxyURL : string;
  logger : option Logger
}.

(** [NewClientBuilder]: the fields it does not name are zero values. *)
Definition NewClientBuilder : Client :=
  {| retryStrategyType := ExponentialBackoffStrategy;
     maxIdleConns := DefaultMaxIdleConns;
     idleConnTimeout := DefaultIdleConnTimeout;
     tlsHandshakeTimeout := DefaultTLSHandshakeTimeout;
     expectContinueTimeout := DefaultExpectContinueTimeout;
     maxIdleConnsPerHost := DefaultMaxIdleConnsPerHost;
     timeout := DefaultTimeout;
     maxRetries := DefaultMaxRetries;
     retryBaseDelay := DefaultBaseDelay;
     retryMaxDelay := DefaultMaxDelay;
     disableKeepAlive := DefaultDisableKeepAlive;
     proxyURL := "";
     logger := None |}.

(** [func (b *ClientBuilder) WithMaxIdleConns]: a plain assignment, nothing is checked. *)
Definition WithMaxIdleConns (n : Z) (c : Client) : Client :=
  {| retryStrategyType := retryStrategyType c; maxIdleConns := n;
     idleConnTimeout := idleConnTimeout c;
     tlsHandshakeTimeout := tlsHandshakeTimeout c;
     expectContinueTimeout := expectContinueTimeout c;
     maxIdleConnsPerHost := maxIdleConnsPerHost c; timeout := timeout c;
     maxRetries := maxRetries c; retryBaseDelay := retryBaseDelay c;
     retryMaxDelay := retryMaxDelay c;
     disableKeepAlive := disableKeepAlive c; proxyURL := proxyURL c;
     logger := logger c |}.

(** [func (b *ClientBuilder) WithIdleConnTimeout]: a plain assignment, nothing is checked. *)
Definition WithIdleConnTimeout (d : Duration) (c : Client) : Client :=
  {| retryStrategyType := retryStrategyType c;
     maxIdleConns := maxIdleConns c; idleConnTimeout := d;
     tlsHandshakeTimeout := tlsHandshakeTimeout c;
     expectContinueTimeout := expectContinueTimeout c;
     maxIdleConnsPerHost := maxIdleConnsPerHost c; timeout := timeout c;
     maxRetries := maxRetries c; retryBaseDelay := retryBaseDelay c;
     retryMaxDelay := retryMaxDelay c;
     disableKeepAlive := disableKeepAlive c; proxyURL := proxyURL c;
     logger := logger c |}.

(** [func (b *ClientBuilder) WithTLSHandshakeTimeout]: a plain assignment, nothing is checked. *)
Definition WithTLSHandshakeTimeout (d : Duration) (c : Client) : Client :=
  {| retryStrategyType := retryStrategyType c;
     maxIdleConns := maxIdleConns c; idleConnTimeout := idleConnTimeout c;
     tlsHandshakeTimeout := d;
     expectContinueTimeout := expectContinueTimeout c;
     maxIdleConnsPerHost := maxIdleConnsPerHost c; timeout := timeout c;
     maxRetries := maxRetries c; retryBaseDelay := retryBaseDelay c;
     retryMaxDelay := retryMaxDelay c;
     disableKeepAlive := disableKeepAlive c; proxyURL := proxyURL c;
     logger := logger c |}.

(** [func (b *ClientBuilder) WithExpectContinueTimeout]: a plain assignment, nothing is checked. *)
Definition WithExpectContinueTimeout (d : Duration) (c : Client) : Client :=
  {| retryStrategyType := retryStrategyType c;
     maxIdleConns := maxIdleConns c; idleConnTimeout := idleConnTimeout c;
     tlsHandshakeTimeout := tlsHandshakeTimeout c;
     expectContinueTimeout := d;
     maxIdleConnsPerHost := maxIdleConnsPerHost c; timeout := timeout c;
     maxRetries := maxRetries c; retryBaseDelay := retryBaseDelay c;
     retryMaxDelay := retryMaxDelay c;
     disableKeepAlive := disableKeepAlive c; proxyURL := proxyURL c;
     logger := logger c |}.

(** [func (b *ClientBuilder) WithDisableKeepAlive]: a plain assignment, nothing is checked. *)
Definition WithDisableKeepAlive (b : bool) (c : Client) : Client :=
  {| retryStrategyType := retryStrategyType c;
     maxIdleConns := maxIdleConns c; idleConnTimeout := idleConnTimeout c;
     tlsHandshakeTimeout := tlsHandshakeTimeout c;
     expectContinueTimeout := expectContinueTimeout c;
     maxIdleConnsPerHost := maxIdleConnsPerHost c; timeout := timeout c;
     maxRetries := maxRetries c; retryBaseDelay := retryBaseDelay c;
     retryMaxDelay := retryMaxDelay c; disableKeepAlive := b;
     proxyURL := proxyURL c; logger := logger c |}.

(** [func (b *ClientBuilder) WithMaxIdleConnsPerHost]: a plain assignment, nothing is checked. *)
Definition WithMaxIdleConnsPerHost (n : Z) (c : Client) : Client :=
  {| retryStrategyType := retryStrategyType c;
     maxIdleConns := maxIdleConns c; idleConnTimeout := idleConnTimeout c;
     tlsHandshakeTimeout := tlsHandshakeTimeout c;
     expectContinueTimeout := expectContinueTimeout c;
     maxIdleConnsPerHost := n; timeout := timeout c;
     maxRetries := maxRetries c; retryBaseDelay := retryBaseDelay c;
     retryMaxDelay := retryMaxDelay c;
     disableKeepAlive := disableKeepAlive c; proxyURL := proxyURL c;
     logger := logger c |}.

(** [func (b *ClientBuilder) WithTimeout]: a plain assignment, nothing is checked. *)
Definition WithTimeout (d : Duration) (c : Client) : Client :=
  {| retryStrategyType := retryStrategyType c;
     maxIdleConns := maxIdleConns c; idleConnTimeout := idleConnTimeout c;
     tlsHandshakeTimeout := tlsHandshakeTimeout c;
     expectContinueTimeout := expectContinueTimeout c;
     maxIdleConnsPerHost := maxIdleConnsPerHost c; timeout := d;
     maxRetries := maxRetries c; retryBaseDelay := retryBaseDelay c;
     retryMaxDelay := retryMaxDelay c;
     disableKeepAlive := disableKeepAlive c; proxyURL := proxyURL c;
     logger := logger c |}.

(** [func (b *ClientBuilder) WithMaxRetries]: a plain assignment, nothing is checked. *)
Definition WithMaxRetries (n : Z) (c : Client) : Client :=
  {| retryStrategyType := retryStrategyType c;
     maxIdleConns := maxIdleConns c; idleConnTimeout := idleConnTimeout c;
     tlsHandshakeTimeout := tlsHandshakeTimeout c;
     expectContinueTimeout := expectContinueTimeout c;
     maxIdleConnsPerHost := maxIdleConnsPerHost c; timeout := timeout c;
     maxRetries := n; retryBaseDelay := retryBaseDelay c;
     retryMaxDelay := retryMaxDelay c;
     disableKeepAlive := disableKeepAlive c; proxyURL := proxyURL c;
     logger := logger c |}.

(** [func (b *ClientBuilder) WithRetryBaseDelay]: a plain assignment, nothing is checked. *)
Definition WithRetryBaseDelay (d : Duration) (c : Client) : Client :=
  {| retryStrategyType := retryStrategyType c;
     maxIdleConns := maxIdleConns c; idleConnTimeout := idleConnTimeout c;
     tlsHandshakeTimeout := tlsHandshakeTimeout c;
     expectContinueTimeout := expectContinueTimeout c;
     maxIdleConnsPerHost := maxIdleConnsPerHost c; timeout := timeout c;
     maxRetries := maxRetries c; retryBaseDelay := d;
     retryMaxDelay := retryMaxDelay c;
     disableKeepAlive := disableKeepAlive c; proxyURL := proxyURL c;
     logger := logger c |}.

(** [func (b *ClientBuilder) WithRetryMaxDelay]: a plain assignment, nothing is checked. *)
Definition WithRetryMaxDelay (d : Duration) (c : Client) : Client :=
  {| retryStrategyType := retryStrategyType c;
     maxIdleConns := maxIdleConns c; idleConnTimeout := idleConnTimeout c;
     tlsHandshakeTimeout := tlsHandshakeTimeout c;
     expectContinueTimeout := expectContinueTimeout c;
     maxIdleConnsPerHost := maxIdleConnsPerHost c; timeout := timeout c;
     maxRetries := maxRetries c; retryBaseDelay := retryBaseDelay c;
     retryMaxDelay := d; disableKeepAlive := disableKeepAlive c;
     proxyURL := proxyURL c; logger := logger c |}.

(** [func (b *ClientBuilder) WithRetryStrategy]: a plain assignment, nothing is checked. *)
Definition WithRetryStrategy (t : Strategy) (c : Client) : Client :=
  {| retryStrategyType := t; maxIdleConns := maxIdleConns c;
     idleConnTimeout := idleConnTimeout c;
     tlsHandshakeTimeout := tlsHandshakeTimeout c;
     expectContinueTimeout := expectContinueTimeout c;
     maxIdleConnsPerHost := maxIdleConnsPerHost c; timeout := timeout c;
     maxRetries := maxRetries c; retryBaseDelay := retryBaseDelay c;
     retryMaxDelay := retryMaxDelay c;
     disableKeepAlive := disableKeepAlive c; proxyURL := proxyURL c;
     logger := logger c |}.

(** [func (b *ClientBuilder) WithLogger]: a plain assignment, nothing is checked. *)
Definition WithLogger (l : option Logger) (c : Client) : Client :=
  {| retryStrategyType := retryStrategyType c;
     maxIdleConns := maxIdleConns c; idleConnTimeout := idleConnTimeout c;
     tlsHandshakeTimeout := tlsHandshakeTimeout c;
     expectContinueTimeout := expectContinueTimeout c;
     maxIdleConnsPerHost := maxIdleConnsPerHost c; timeout := timeout c;
     maxRetries := maxRetries c; retryBaseDelay := retryBaseDelay c;
     retryMaxDelay := retryMaxDelay c;
     disableKeepAlive := disableKeepAlive c; proxyURL := proxyURL c;
     logger := l |}.

(** [func (b *ClientBuilder) WithProxy]: a plain assignment, nothing is checked. *)
Definition WithProxy (u : string) (c : Client) : Client :=
  {| retryStrategyType := retryStrategyType c;
     maxIdleConns := maxIdleConns c; idleConnTimeout := idleConnTimeout c;
     tlsHandshakeTimeout := tlsHandshakeTimeout c;
     expectContinueTimeout := expectContinueTimeout c;
     maxIdleConnsPerHost := maxIdleConnsPerHost c; timeout := timeout c;
     maxRetries := maxRetries c; retryBaseDelay := retryBaseDelay c;
     retryMaxDelay := retryMaxDelay c;
     disableKeepAlive := disableKeepAlive c; proxyURL := u;
     logger := logger c |}.

(** [logger.Warn] behind its [if b.client.logger != nil]. *)
Definition warn (l : option Logger) (msg : string)
    (attrs : list (string * AttrValue)) : list Event :=
  match l with
  | Some _ => [EvLog LevelWarn msg attrs]
  | None => []
  end.

(** [func (b *ClientBuilder) WithRetryStrategyAsString]: the settings after
    the call and what was logged. *)
Definition WithRetryStrategyAsString (name : string) (c : Client)
  : Client * list Event :=
  let s : Strategy := name in
  if negb (IsValid s) then
    (WithRetryStrategy ExponentialBackoffStrategy c,
     warn (logger c) "Invalid retry strategy type, using default (Exponential)"
       [("invalidValue", AString s);
        ("defaultValue", AString ExponentialBackoffStrategy)])
  else (WithRetryStrategy s c, []).

(** One of the range checks that open [Build]: the settings after it and
    what it logged. *)
Definition Check : Type := Client -> Client * list Event.

Definition andThen (f g : Check) : Check :=
  fun c => let '(c1, l1) := f c in
           let '(c2, l2) := g c1 in
           (c2, l1 ++ l2).

Definition check_maxIdleConns : Check :=
  fun c =>
    if (maxIdleConns c <? ValidMinIdleConns) || (maxIdleConns c >? ValidMaxIdleConns) then
      (WithMaxIdleConns DefaultMaxIdleConns c,
       warn (logger c) "Invalid max idle connections, using default value"
         [("invalidValue", AInt (maxIdleConns c)); ("defaultValue", AInt DefaultMaxIdleConns)])
    else (c, []).

Definition check_idleConnTimeout : Check :=
  fun c =>
    if (idleConnTimeout c <? ValidMinIdleConnTimeout) || (idleConnTimeout c >? ValidMaxIdleConnTimeout) then
      (WithIdleConnTimeout DefaultIdleConnTimeout c,
       warn (logger c) "Invalid idle connection timeout, using default value"
         [("invalidValue", ADuration (idleConnTimeout c)); ("defaultValue", ADuration DefaultIdleConnTimeout)])
    else (c, []).

Definition check_tlsHandshakeTimeout : Check :=
  fun c =>
    if (tlsHandshakeTimeout c <? ValidMinTLSHandshakeTimeout) || (tlsHandshakeTimeout c >? ValidMaxTLSHandshakeTimeout) then
      (WithTLSHandshakeTimeout DefaultTLSHandshakeTimeout c,
       warn (logger c) "Invalid TLS handshake timeout, using default value"
         [("invalidValue", ADuration (tlsHandshakeTimeout c)); ("defaultValue", ADuration DefaultTLSHandshakeTimeout)])
    else (c, []).

Definition check_expectContinueTimeout : Check :=
  fun c =>
    if (expectContinueTimeout c <? ValidMinExpectContinueTimeout) || (expectContinueTimeout c >? ValidMaxExpectContinueTimeout) then
      (WithExpectContinueTimeout DefaultExpectContinueTimeout c,
       warn (logger c) "Invalid expect continue timeout, using default value"
         [("invalidValue", ADuration (expectContinueTimeout c)); ("defaultValue", ADuration DefaultExpectContinueTimeout)])
    else (c, []).

Definition check_maxIdleConnsPerHost : Check :=
  fun c =>
    if (maxIdleConnsPerHost c <? ValidMinIdleConnsPerHost) || (maxIdleConnsPerHost c >? ValidMaxIdleConnsPerHost) then
      (WithMaxIdleConnsPerHost DefaultMaxIdleConnsPerHost c,
       warn (logger c) "Invalid max idle connections per host, using default value"
         [("invalidValue", AInt (maxIdleConnsPerHost c)); ("defaultValue", AInt DefaultMaxIdleConnsPerHost)])
    else (c, []).

Definition check_timeout : Check :=
  fun c =>
    if (timeout c <? ValidMinTimeout) || (timeout c >? ValidMaxTimeout) then
      (WithTimeout DefaultTimeout c,
       warn (logger c) "Invalid timeout, using default value"
         [("invalidValue", ADuration (timeout c)); ("defaultValue", ADuration DefaultTimeout)])
    else (c, []).

Definition check_maxRetries : Check :=
  fun c =>
    if (maxRetries c <? ValidMinRetries) || (maxRetries c >? ValidMaxRetries) then
      (WithMaxRetries DefaultMaxRetries c,
       warn (logger c) "Invalid max retries, using default value"
         [("invalidValue", AInt (maxRetries c)); ("defaultValue", AInt DefaultMaxRetries)])
    else (c, []).

Definition check_retryBaseDelay : Check :=
  fun c =>
    if (retryBaseDelay c <? ValidMinBaseDelay) || (retryBaseDelay c >? ValidMaxBaseDelay) then
      (WithRetryBaseDelay DefaultBaseDelay c,
       warn (logger c) "Invalid retry base delay, using default value"
         [("invalidValue", ADuration (retryBaseDelay c)); ("defaultValue", ADuration DefaultBaseDelay)])
    else (c, []).

Definition check_retryMaxDelay : Check :=
  fun c =>
    if (retryMaxDelay c <? ValidMinMaxDelay) || (retryMaxDelay c >? ValidMaxMaxDelay) then
      (WithRetryMaxDelay DefaultMaxDelay c,
       warn (logger c) "Invalid retry max delay, using default value"
         [("invalidValue", ADuration (retryMaxDelay c)); ("defaultValue", ADuration DefaultMaxDelay)])
    else (c, []).

(** Lines 278-348 of [Build]: the nine range checks, in order.  Each one
    writes the default back into the builder when the value is out of
    range. *)
Definition normalize : Check :=
  andThen check_maxIdleConns
    (andThen check_idleConnTimeout
       (andThen check_tlsHandshakeTimeout
          (andThen check_expectContinueTimeout
             (andThen check_maxIdleConnsPerHost
                (andThen check_timeout
                   (andThen check_maxRetries
                      (andThen check_retryBaseDelay
                         check_retryMaxDelay))))))).

(** Lines 350-361: the strategy type used, and what was logged. *)
Definition finalStrategyType (c : Client) : Strategy * list Event :=
  if IsValid (retryStrategyType c) then (retryStrategyType c, [])
  else
    (ExponentialBackoffStrategy,
     warn (logger c) "No valid retry strategy type set, using default (Exponential)"
       [("currentType", AString (retryStrategyType c))]).

(** Lines 363-373: the strategy built for a strategy type. *)
Definition finalRetryStrategy (t : Strategy) (c : Client) : RetryStrategy :=
  if String.eqb t FixedDelayStrategy then
    FixedDelay (retryBaseDelay c)
  else if String.eqb t JitterBackoffStrategy then
    JitterBackoff (retryBaseDelay c) (retryMaxDelay c)
  else if String.eqb t ExponentialBackoffStrategy then
    ExponentialBackoff (retryBaseDelay c) (retryMaxDelay c)
  else
    ExponentialBackoff (retryBaseDelay c) (retryMaxDelay c).

Section Build.

Context {World : Type}.

(** [*url.URL], and [url.Parse]. *)
Variable URL : Type.
Variable url_Parse : string -> URL + error.

(** The fields of [http.Transport] that [Build] sets. *)
Record HTTPTransport : Type := {
  MaxIdleConns : Z;
  IdleConnTimeout : Duration;
  TLSHandshakeTimeout : Duration;
  ExpectContinueTimeout : Duration;
  DisableKeepAlives : bool;
  MaxIdleConnsPerHost : Z;
  Proxy : option URL
}.

(** [func (t *http.Transport) RoundTrip]: how a transport so configured
    answers. *)
Variable RoundTrip_of
  : HTTPTransport -> Request World -> World
    -> (option TransportResponse * option error) * World.

(** The [*http.Transport] as the [http.RoundTripper] that [Build] hands to
    the retrying transport. *)
Definition asRoundTripper (t : HTTPTransport) : RoundTripper World :=
  fun req w =>
    let '((resp, err), w1) := RoundTrip_of t req w in
    ((option_map toResponse resp, err), w1).

(** Lines 375-395: the underlying transport, with the proxy when its URL is
    set and parses. *)
Definition newTransport (c : Client) : HTTPTransport * list Event :=
  let transport (proxy : option URL) :=
    {| MaxIdleConns := maxIdleConns c;
       IdleConnTimeout := idleConnTimeout c;
       TLSHandshakeTimeout := tlsHandshakeTimeout c;
       ExpectContinueTimeout := expectContinueTimeout c;
       DisableKeepAlives := disableKeepAlive c;
       MaxIdleConnsPerHost := maxIdleConnsPerHost c;
       Proxy := proxy |} in
  if String.eqb (proxyURL c) "" then (transport None, [])
  else
    match url_Parse (proxyURL c) with
    | inr err =>
        (transport None,
         warn (logger c) "Failed to parse proxy URL, proceeding without proxy"
           [("proxyURL", AString (proxyURL c)); ("error", AError err)])
    | inl parsedProxyURL => (transport (Some parsedProxyURL), [])
    end.

(** [http.Client], of which [Build] sets the timeout and the transport. *)
Record HTTPClient : Type := {
  Timeout : Duration;
  Transport : retryTransport World
}.

(** What [Build] leaves: the builder as the checks rewrote it, the
    underlying transport it configured, the client, and what was logged. *)
Record Built : Type := {
  builder : Client;
  underlying : HTTPTransport;
  client : HTTPClient;
  warnings : list Event
}.

(** [func (b *ClientBuilder) Build() *http.Client] *)
Definition Build (b : Client) : Built :=
  let '(c, l1) := normalize b in
  let '(t, l2) := finalStrategyType c in
  let strategy := finalRetryStrategy t c in
  let '(transport, l3) := newTransport c in
  let finalTransport :=
    {| rt_Transport := Some (asRoundTripper transport);
       rt_MaxRetries := maxRetries c;
       rt_RetryStrategy := Some strategy;
       rt_logger := logger c |} in
  {| builder := c;
     underlying := transport;
     client := {| Timeout := timeout c; Transport := finalTransport |};
     warnings := l1 ++ l2 ++ l3 |}.

End Build.

Arguments MaxIdleConns {URL} _.
Arguments IdleConnTimeout {URL} _.
Arguments TLSHandshakeTimeout {URL} _.
Arguments ExpectContinueTimeout {URL} _.
Arguments DisableKeepAlives {URL} _.
Arguments MaxIdleConnsPerHost {URL} _.
Arguments Proxy {URL} _.
Arguments asRoundTripper {World URL} _ _.
Arguments builder {World URL} _.
Arguments underlying {World URL} _.
Arguments client {World URL} _.
Arguments warnings {World URL} _.

(** *** Vocabulary of the statements *)

(** Every checked setting is within its range. *)
Definition in_range (c : Client) : Prop :=
  ValidMinIdleConns <= maxIdleConns c <= ValidMaxIdleConns
  /\ ValidMinIdleConnTimeout <= idleConnTimeout c <= ValidMaxIdleConnTimeout
  /\ ValidMinTLSHandshakeTimeout <= tlsHandshakeTimeout c
     <= ValidMaxTLSHandshakeTimeout
  /\ ValidMinExpectContinueTimeout <= expectContinueTimeout c
     <= ValidMaxExpectContinueTimeout
  /\ ValidMinIdleConnsPerHost <= maxIdleConnsPerHost c
     <= ValidMaxIdleConnsPerHost
  /\ ValidMinTimeout <= timeout c <= ValidMaxTimeout
  /\ ValidMinRetries <= maxRetries c <= ValidMaxRetries
  /\ ValidMinBaseDelay <= retryBaseDelay c <= ValidMaxBaseDelay
  /\ ValidMinMaxDelay <= retryMaxDelay c <= ValidMaxMaxDelay.

(** A checked setting after [Build]: the value given when it is within
    its range, and the default otherwise. *)
Definition or_default (lo hi default v : Z) : Z :=
  if (v <? lo) || (v >? hi) then default else v.

End ClientBuilder.

(** ** The request builder *)

(** The control characters of the Go string literals. *)
Definition TAB : ascii := ascii_of_nat 9.
Definition LF : ascii := ascii_of_nat 10.
Definition CR : ascii := ascii_of_nat 13.

(** [strings.ContainsAny(s, chars)] for [chars] made of ASCII characters,
    as all its uses here are: a byte of [s] is one of the bytes of [chars]. *)
Definition ContainsAny (s chars : string) : bool :=
  existsb (fun c => existsb (Ascii.eqb c) (list_ascii_of_string chars))
    (list_ascii_of_string s).

(** A Go [map[string]string]: the binding of a key is its first pair. *)
Definition StringMap : Type := list (string * string).

Fixpoint map_get {V} (k : string) (m : list (string * V)) : option V :=
  match m with
  | [] => None
  | (k', v) :: rest => if String.eqb k' k then Some v else map_get k rest
  end.

(** [m[k] = v] *)
Definition map_set {V} (k : string) (v : V) (m : list (string * V))
  : list (string * V) :=
  (k, v) :: List.filter (fun p => negb (String.eqb (fst p) k)) m.

(** [url.Values], a [map[string][]string], and its [Add]. *)
Definition Values : Type := list (string * list string).

Definition Values_Add (k v : string) (vs : Values) : Values :=
  match map_get k vs with
  | Some old => map_set k (old ++ [v]) vs
  | None => map_set k [v] vs
  end.

Module RequestBuilder.

Definition MethodGet : string := "GET".
Definition MethodPost : string := "POST".
Definition MethodPut : string := "PUT".
Definition MethodDelete : string := "DELETE".
Definition MethodPatch : string := "PATCH".
Definition MethodHead : string := "HEAD".
Definition MethodOptions : string := "OPTIONS".
Definition MethodTrace : string := "TRACE".
Definition MethodConnect : string := "CONNECT".

Definition validMethods : list string :=
  [MethodGet; MethodPost; MethodPut; MethodDelete; MethodPatch; MethodHead;
   MethodOptions; MethodTrace; MethodConnect].

(** [isValidHTTPMethod]: [slices.Contains(validMethods, method)]. *)
Definition isValidHTTPMethod (method : string) : bool :=
  existsb (String.eqb method) validMethods.

(** [context.Background()] never fires. *)
Definition context_Background : Context := None.

Section Builder.

(** [strings.ToUpper], [strings.TrimSpace] and
    [base64.StdEncoding.EncodeToString], of the Go library. *)
Variable ToUpper : string -> string.
Variable TrimSpace : string -> string.
Variable EncodeToString : string -> string.

(** The values of type [any] given as JSON bodies, and the [io.Reader]s
    given as raw bodies. *)
Context {Any Reader : Type}.

(** What [rb.bodyReader] holds: a reader of the caller, or one made by
    [strings.NewReader] or [bytes.NewReader]. *)
Inductive BodyReader : Type :=
| RawReader (r : Reader)
| StringsReader (s : string)
| BytesReader (b : string).

(** [type RequestBuilder struct].  A nil interface is [None].  [allocated]
    is not a field of the struct: it is the address the next error value
    gets, each [fmt.Errorf] making a new one. *)
Record RequestBuilder : Type := {
  method : string;
  baseURL : string;
  path : string;
  queryParams : Values;
  headers : StringMap;
  body : option Any;
  bodyReader : option BodyReader;
  ctx : option Context;
  errors : list error;
  allocated : positive
}.

Definition NewRequestBuilder (baseURL : string) : RequestBuilder :=
  {| method := ""; baseURL := baseURL; path := "";
     queryParams := []; headers := [];
     body := None; bodyReader := None;
     ctx := Some context_Background;
     errors := []; allocated := 1 |}.

(** [func (rb *RequestBuilder) addError] *)
Definition addError (err : option error) (rb : RequestBuilder) : RequestBuilder :=
  {| method := method rb; baseURL := baseURL rb; path := path rb;
     queryParams := queryParams rb; headers := headers rb; body := body rb;
     bodyReader := bodyReader rb; ctx := ctx rb;
     errors := match err with Some e => errors rb ++ [e] | None => errors rb end;
     allocated := allocated rb |}.

(** [fmt.Errorf(msg)] without a [%w] verb: a new error value. *)
Definition Errorf (msg : string) (rb : RequestBuilder)
  : error * RequestBuilder :=
  (errorString (allocated rb) msg,
   {| method := method rb; baseURL := baseURL rb; path := path rb;
      queryParams := queryParams rb; headers := headers rb; body := body rb;
      bodyReader := bodyReader rb; ctx := ctx rb; errors := errors rb;
      allocated := Pos.succ (allocated rb) |}).

(** [rb.addError(fmt.Errorf(msg))] *)
Definition fail (msg : string) (rb : RequestBuilder) : RequestBuilder :=
  let '(err, rb) := Errorf msg rb in addError (Some err) rb.

Definition set_method (m : string) (rb : RequestBuilder) : RequestBuilder :=
  {| method := m; baseURL := baseURL rb; path := path rb;
     queryParams := queryParams rb; headers := headers rb; body := body rb;
     bodyReader := bodyReader rb; ctx := ctx rb; errors := errors rb;
     allocated := allocated rb |}.

Definition set_headers (h : StringMap) (rb : RequestBuilder) : RequestBuilder :=
  {| method := method rb; baseURL := baseURL rb; path := path rb;
     queryParams := queryParams rb; headers := h; body := body rb;
     bodyReader := bodyReader rb; ctx := ctx rb; errors := errors rb;
     allocated := allocated rb |}.

Definition set_queryParams (q : Values) (rb : RequestBuilder) : RequestBuilder :=
  {| method := method rb; baseURL := baseURL rb; path := path rb;
     queryParams := q; headers := headers rb; body := body rb;
     bodyReader := bodyReader rb; ctx := ctx rb; errors := errors rb;
     allocated := allocated rb |}.

Definition set_bodies (b : option Any) (r : option BodyReader) (rb : RequestBuilder) : RequestBuilder :=
  {| method := method rb; baseURL := baseURL rb; path := path rb;
     queryParams := queryParams rb; headers := headers rb; body := b;
     bodyReader := r; ctx := ctx rb; errors := errors rb;
     allocated := allocated rb |}.

(** [func (rb *RequestBuilder) WithMethod] *)
Definition WithMethod (m : string) (rb : RequestBuilder) : RequestBuilder :=
  if String.eqb m "" then fail "http method cannot be empty" rb
  else
    let m := ToUpper (TrimSpace m) in
    if negb (isValidHTTPMethod m) then fail ("invalid http method: " ++ m) rb
    else set_method m rb.

Definition WithMethodGET : RequestBuilder -> RequestBuilder :=
  set_method MethodGet.

Definition WithMethodPOST : RequestBuilder -> RequestBuilder :=
  set_method MethodPost.

Definition WithMethodPUT : RequestBuilder -> RequestBuilder :=
  set_method MethodPut.

Definition WithMethodDELETE : RequestBuilder -> RequestBuilder :=
  set_method MethodDelete.

Definition WithMethodPATCH : RequestBuilder -> RequestBuilder :=
  set_method MethodPatch.

Definition WithMethodHEAD : RequestBuilder -> RequestBuilder :=
  set_method MethodHead.

Definition WithMethodOPTIONS : RequestBuilder -> RequestBuilder :=
  set_method MethodOptions.

Definition WithMethodTRACE : RequestBuilder -> RequestBuilder :=
  set_method MethodTrace.

Definition WithMethodCONNECT : RequestBuilder -> RequestBuilder :=
  set_method MethodConnect.

(** [func (rb *RequestBuilder) WithPath] *)
Definition WithPath (p : string) (rb : RequestBuilder) : RequestBuilder :=
  {| method := method rb; baseURL := baseURL rb; path := p;
     queryParams := queryParams rb; headers := headers rb; body := body rb;
     bodyReader := bodyReader rb; ctx := ctx rb; errors := errors rb;
     allocated := allocated rb |}.

(** [func (rb *RequestBuilder) WithQueryParam] *)
Definition WithQueryParam (key value : string) (rb : RequestBuilder)
  : RequestBuilder :=
  if String.eqb key "" then fail "query parameter key cannot be empty" rb
  else if String.eqb value "" then
    fail ("query parameter value for key '" ++ key ++ "' cannot be empty") rb
  else if ContainsAny key
            (String " " (String TAB (String LF (String CR "=&")))) then
    fail ("invalid query parameter key format: '" ++ key
            ++ "' (contains invalid characters)") rb
  else set_queryParams (Values_Add key value (queryParams rb)) rb.

(** [func (rb *RequestBuilder) WithQueryParams]: every pair of the map is
    added, in the order the map is ranged over. *)
Definition WithQueryParams (params : StringMap) (rb : RequestBuilder)
  : RequestBuilder :=
  set_queryParams
    (fold_left (fun q p => Values_Add (fst p) (snd p) q) params
       (queryParams rb)) rb.

(** [func (rb *RequestBuilder) WithHeader] *)
Definition WithHeader (key value : string) (rb : RequestBuilder)
  : RequestBuilder :=
  if String.eqb key "" then fail "header key cannot be empty" rb
  else if String.eqb value "" then
    fail ("header value for key '" ++ key ++ "' cannot be empty") rb
  else if ContainsAny key (String " " (String TAB (String LF (String CR "")))) then
    fail ("invalid header key format: '" ++ key ++ "' (contains whitespace)") rb
  else set_headers (map_set key value (headers rb)) rb.

(** [func (rb *RequestBuilder) WithHeaders]: [maps.Copy(rb.headers, headers)]. *)
Definition WithHeaders (hs : StringMap) (rb : RequestBuilder)
  : RequestBuilder :=
  set_headers
    (fold_left (fun h p => map_set (fst p) (snd p) h) hs (headers rb)) rb.

(** [basicAuth] and [base64Encode] *)
Definition base64Encode (data : string) : string := EncodeToString data.

Definition basicAuth (username password : string) : string :=
  base64Encode (username ++ ":" ++ password).

(** [func (rb *RequestBuilder) WithBasicAuth] *)
Definition WithBasicAuth (username password : string) (rb : RequestBuilder)
  : RequestBuilder :=
  if String.eqb username "" then
    fail "username for basic auth cannot be empty" rb
  else if String.eqb password "" then
    fail "password for basic auth cannot be empty" rb
  else
    set_headers
      (map_set "Authorization"
         ("Basic " ++ basicAuth username password)%string (headers rb)) rb.

(** [func (rb *RequestBuilder) WithBearerAuth] *)
Definition WithBearerAuth (token : string) (rb : RequestBuilder)
  : RequestBuilder :=
  if String.eqb token "" then fail "bearer token cannot be empty" rb
  else
    set_headers
      (map_set "Authorization" ("Bearer " ++ token)%string (headers rb)) rb.

(** [func (rb *RequestBuilder) WithUserAgent] *)
Definition WithUserAgent (userAgent : string) (rb : RequestBuilder)
  : RequestBuilder :=
  if String.eqb userAgent "" then fail "user-agent cannot be empty" rb
  else
    let userAgent := TrimSpace userAgent in
    if String.eqb userAgent "" then
      fail "user-agent cannot be empty after trimming whitespace" rb
    else if (500 <? String.length userAgent)%nat then
      fail ("user-agent is too long (max 500 characters), got "
              ++ itoa (Z.of_nat (String.length userAgent)) ++ " characters") rb
    else if ContainsAny userAgent (String CR (String LF (String TAB ""))) then
      fail "user-agent cannot contain control characters (\r, \n, \t)" rb
    else set_headers (map_set "User-Agent" userAgent (headers rb)) rb.

(** [func (rb *RequestBuilder) WithContentType] *)
Definition WithContentType (contentType : string)
  : RequestBuilder -> RequestBuilder :=
  WithHeader "Content-Type" contentType.

(** [func (rb *RequestBuilder) WithAccept] *)
Definition WithAccept (accept : string) : RequestBuilder -> RequestBuilder :=
  WithHeader "Accept" accept.

(** [func (rb *RequestBuilder) WithJSONBody] *)
Definition WithJSONBody (b : option Any) (rb : RequestBuilder)
  : RequestBuilder :=
  WithContentType "application/json" (set_bodies b None rb).

(** [func (rb *RequestBuilder) WithRawBody] *)
Definition WithRawBody (r : option Reader) (rb : RequestBuilder)
  : RequestBuilder :=
  set_bodies None (option_map RawReader r) rb.

(** [func (rb *RequestBuilder) WithStringBody] *)
Definition WithStringBody (b : string) (rb : RequestBuilder)
  : RequestBuilder :=
  set_bodies None (Some (StringsReader b)) rb.

(** [func (rb *RequestBuilder) WithBytesBody] *)
Definition WithBytesBody (b : string) (rb : RequestBuilder)
  : RequestBuilder :=
  set_bodies None (Some (BytesReader b)) rb.

(** [func (rb *RequestBuilder) WithContext] *)
Definition WithContext (c : option Context) (rb : RequestBuilder)
  : RequestBuilder :=
  match c with
  | None => fail "context cannot be nil" rb
  | Some _ =>
      {| method := method rb; baseURL := baseURL rb; path := path rb;
         queryParams := queryParams rb; headers := headers rb; body := body rb;
         bodyReader := bodyReader rb; ctx := c; errors := errors rb;
         allocated := allocated rb |}
  end.

(** [func (rb *RequestBuilder) GetErrors] *)
Definition GetErrors (rb : RequestBuilder) : list error := errors rb.

(** [func (rb *RequestBuilder) HasErrors] *)
Definition HasErrors (rb : RequestBuilder) : bool :=
  (0 <? List.length (errors rb))%nat.

(** [func (rb *RequestBuilder) Reset]: the base URL stays. *)
Definition Reset (rb : RequestBuilder) : RequestBuilder :=
  {| method := ""; baseURL := baseURL rb; path := ""; queryParams := [];
     headers := []; body := None; bodyReader := None;
     ctx := Some context_Background; errors := [];
     allocated := allocated rb |}.

(** *** Vocabulary of the statements *)

(** The calls a builder can be chained with. *)
Inductive Call : Type :=
| CallWithMethod (m : string)
| CallWithMethodGET | CallWithMethodPOST | CallWithMethodPUT
| CallWithMethodDELETE | CallWithMethodPATCH | CallWithMethodHEAD
| CallWithMethodOPTIONS | CallWithMethodTRACE | CallWithMethodCONNECT
| CallWithPath (p : string)
| CallWithQueryParam (key value : string)
| CallWithQueryParams (params : StringMap)
| CallWithHeader (key value : string)
| CallWithHeaders (hs : StringMap)
| CallWithBasicAuth (username password : string)
| CallWithBearerAuth (token : string)
| CallWithUserAgent (userAgent : string)
| CallWithContentType (contentType : string)
| CallWithAccept (accept : string)
| CallWithJSONBody (b : option Any)
| CallWithRawBody (r : option Reader)
| CallWithStringBody (b : string)
| CallWithBytesBody (b : string)
| CallWithContext (c : option Context)
| CallReset.

Definition call (c : Call) : RequestBuilder -> RequestBuilder :=
  match c with
  | CallWithMethod m => WithMethod m
  | CallWithMethodGET => WithMethodGET
  | CallWithMethodPOST => WithMethodPOST
  | CallWithMethodPUT => WithMethodPUT
  | CallWithMethodDELETE => WithMethodDELETE
  | CallWithMethodPATCH => WithMethodPATCH
  | CallWithMethodHEAD => WithMethodHEAD
  | CallWithMethodOPTIONS => WithMethodOPTIONS
  | CallWithMethodTRACE => WithMethodTRACE
  | CallWithMethodCONNECT => WithMethodCONNECT
  | CallWithPath p => WithPath p
  | CallWithQueryParam k v => WithQueryParam k v
  | CallWithQueryParams ps => WithQueryParams ps
  | CallWithHeader k v => WithHeader k v
  | CallWithHeaders hs => WithHeaders hs
  | CallWithBasicAuth u p => WithBasicAuth u p
  | CallWithBearerAuth t => WithBearerAuth t
  | CallWithUserAgent ua => WithUserAgent ua
  | CallWithContentType ct => WithContentType ct
  | CallWithAccept a => WithAccept a
  | CallWithJSONBody b => WithJSONBody b
  | CallWithRawBody r => WithRawBody r
  | CallWithStringBody b => WithStringBody b
  | CallWithBytesBody b => WithBytesBody b
  | CallWithContext c => WithContext c
  | CallReset => Reset
  end.

(** A chain of calls, the first of the list first. *)
Definition chain (cs : list Call) (rb : RequestBuilder) : RequestBuilder :=
  fold_left (fun b c => call c b) cs rb.

Definition is_Reset (c : Call) : bool :=
  match c with CallReset => true | _ => false end.

(** Two builders that describe the same request: they differ at most in the
    errors recorded. *)
Definition same_request (a b : RequestBuilder) : Prop :=
  method b = method a /\ baseURL b = baseURL a /\ path b = path a
  /\ queryParams b = queryParams a /\ headers b = headers a
  /\ body b = body a /\ bodyReader b = bodyReader a /\ ctx b = ctx a.

End Builder.

End RequestBuilder.

(** ASCII stand-ins for the library, for the examples: on ASCII text without
    surrounding space they agree with [strings.ToUpper] and
    [strings.TrimSpace]. *)
Definition asciiUpper (s : string) : string :=
  string_of_list_ascii
    (List.map
       (fun c => let n := nat_of_ascii c in
                 if ((97 <=? n) && (n <=? 122))%nat
                 then ascii_of_nat (n - 32) else c)
       (list_ascii_of_string s)).

Definition noTrim (s : string) : string := s.

(** * Properties *)

(** ** 64-bit arithmetic *)

Module Int64Facts.
Import Int64.

Lemma wrap_in_range z : in_range (wrap z).
Proof.
  unfold in_range, wrap, min_int, max_int.
  pose proof (Z.mod_pos_bound (z + 2 ^ 63) (2 ^ 64) ltac:(lia)). lia.
Qed.

Lemma wrap_small z : in_range z -> wrap z = z.
Proof.
  unfold in_range, wrap, min_int, max_int. intros H.
  rewrite Z.mod_small by lia. lia.
Qed.

Lemma to_uint_small a : 0 <= a < 2 ^ 64 -> to_uint a = a.
Proof. intros H. unfold to_uint. apply Z.mod_small. exact H. Qed.

Lemma shl_one_small n : 0 <= n < 63 -> shl 1 n = 2 ^ n.
Proof.
  intros H. unfold shl.
  destruct (64 <=? n) eqn:E; [apply Z.leb_le in E; lia|].
  rewrite Z.shiftl_1_l. apply wrap_small.
  unfold in_range, min_int, max_int.
  assert (2 ^ n < 2 ^ 63) by (apply Z.pow_lt_mono_r; lia).
  assert (0 < 2 ^ n) by (apply Z.pow_pos_nonneg; lia). lia.
Qed.

Lemma quo_two_small e : 0 <= e <= max_int -> quo e 2 = e / 2.
Proof.
  intros H. unfold quo. rewrite Z.quot_div_nonneg by lia.
  apply wrap_small. unfold in_range, min_int, max_int in *.
  assert (0 <= e / 2 <= e) by (split; [apply Z.div_pos|apply Z.div_le_upper_bound]; lia).
  lia.
Qed.

End Int64Facts.

(** ** Backoff strategies *)

Section Backoff.

Import Int64.

(** Without overflow the computed delay is the mathematical product. *)
Lemma exponentialDelay_exact base attempt :
  0 <= attempt < 63 ->
  0 <= base ->
  base * 2 ^ attempt <= max_int ->
  exponentialDelay base attempt = base * 2 ^ attempt.
Proof.
  intros Ha Hb Hm. unfold exponentialDelay, mul.
  rewrite Int64Facts.to_uint_small by (split; [lia|]; apply Z.lt_trans with 63; lia).
  rewrite Int64Facts.shl_one_small by exact Ha.
  apply Int64Facts.wrap_small. unfold in_range, min_int.
  assert (0 <= 2 ^ attempt) by (apply Z.pow_nonneg; lia).
  split; [|exact Hm]. nia.
Qed.

(** [FixedDelay] is constant. *)
Lemma FixedDelay_constant d attempt rng :
  FixedDelay d attempt rng = (Some d, rng).
Proof. reflexivity. Qed.

(** [ExponentialBackoff] never panics and leaves the random source alone. *)
Lemma ExponentialBackoff_total base maxDelay attempt rng :
  exists d, ExponentialBackoff base maxDelay attempt rng = (Some d, rng).
Proof.
  unfold ExponentialBackoff.
  destruct ((attempt =? 0) && (base >? maxDelay)); eauto.
Qed.

(** The first retry of a base above the cap waits the base. *)
Lemma ExponentialBackoff_first_uncapped base maxDelay rng :
  base > maxDelay ->
  ExponentialBackoff base maxDelay 0 rng = (Some base, rng).
Proof.
  intros H. unfold ExponentialBackoff.
  replace (base >? maxDelay) with true by (symmetry; apply Z.gtb_lt; lia).
  reflexivity.
Qed.

(** A non-positive computed delay is replaced by the cap. *)
Lemma ExponentialBackoff_nonpositive base maxDelay attempt rng :
  ~ (attempt = 0 /\ base > maxDelay) ->
  exponentialDelay base attempt <= 0 ->
  ExponentialBackoff base maxDelay attempt rng = (Some maxDelay, rng).
Proof.
  intros Hn Hd. unfold ExponentialBackoff.
  destruct ((attempt =? 0) && (base >? maxDelay)) eqn:E.
  - apply andb_true_iff in E. destruct E as [E1 E2].
    apply Z.eqb_eq in E1. apply Z.gtb_lt in E2. exfalso. apply Hn. lia.
  - cbv zeta.
    replace (exponentialDelay base attempt <=? 0) with true
      by (symmetry; apply Z.leb_le; exact Hd).
    rewrite orb_true_r. reflexivity.
Qed.

(** Where the product does not overflow, the delay is the capped product. *)
Lemma ExponentialBackoff_exact base maxDelay attempt rng :
  0 <= attempt < 63 ->
  0 < base ->
  base * 2 ^ attempt <= max_int ->
  ~ (attempt = 0 /\ base > maxDelay) ->
  ExponentialBackoff base maxDelay attempt rng
  = (Some (Z.min (base * 2 ^ attempt) maxDelay), rng).
Proof.
  intros Ha Hb Hm Hn. unfold ExponentialBackoff.
  destruct ((attempt =? 0) && (base >? maxDelay)) eqn:E.
  - apply andb_true_iff in E. destruct E as [E1 E2].
    apply Z.eqb_eq in E1. apply Z.gtb_lt in E2. exfalso. apply Hn. lia.
  - cbv zeta. rewrite exponentialDelay_exact by lia.
    assert (0 < 2 ^ attempt) by (apply Z.pow_pos_nonneg; lia).
    assert (0 < base * 2 ^ attempt) by nia.
    destruct (base * 2 ^ attempt >? maxDelay) eqn:G; cbn [orb].
    + apply Z.gtb_lt in G. rewrite Z.min_r by lia. reflexivity.
    + replace (base * 2 ^ attempt <=? 0) with false
        by (symmetry; apply Z.leb_gt; lia).
      assert (base * 2 ^ attempt <= maxDelay)
        by (destruct (Z.gtb_spec (base * 2 ^ attempt) maxDelay); [discriminate|lia]).
      rewrite Z.min_l by lia. reflexivity.
Qed.

(** With an exponential value of at least two nanoseconds, and no overflow
    of the sum, the jittered delay lies in [[E, E + E/2)]. *)
Lemma JitterBackoff_range base maxDelay attempt rng e :
  ExponentialBackoff base maxDelay attempt rng = (Some e, rng) ->
  2 <= e ->
  e + e / 2 <= max_int + 1 ->
  exists d rng',
    JitterBackoff base maxDelay attempt rng = (Some d, rng')
    /\ e <= d < e + e / 2.
Proof.
  intros He H2 Hs. unfold JitterBackoff. rewrite He.
  assert (Hh : 0 < e / 2) by (apply Z.div_str_pos; lia).
  rewrite Int64Facts.quo_two_small by (unfold max_int in *; lia).
  unfold rand_Int63n.
  replace (e / 2 <=? 0) with false by (symmetry; apply Z.leb_gt; lia).
  assert (W : forall j, 0 <= j < e / 2 -> add e j = e + j).
  { intros j Hj. apply Int64Facts.wrap_small.
    unfold in_range, min_int, max_int in *. lia. }
  destruct rng as [|v rest].
  - exists e, []. rewrite W by lia. rewrite Z.add_0_r. split; [reflexivity|lia].
  - pose proof (Z.mod_pos_bound v (e / 2) Hh) as Hv.
    exists (e + v mod (e / 2)), rest. rewrite W by lia. split; [reflexivity|lia].
Qed.

(** C6: the computed delay [base * 2^attempt] can overflow to a positive
    value below the cap, and then it is returned as it is: for a base of
    [2^32 + 1] ns, a cap of [2^33] ns and attempt 32 the strategy returns
    [2^32] ns, where the capped product [min(base * 2^attempt, max)] is
    the cap; the value is even below the base. *)
Theorem C6_overflow_escapes_cap :
  ExponentialBackoff (2 ^ 32 + 1) (2 ^ 33) 32 [] = (Some (2 ^ 32), [])
  /\ (2 ^ 32 + 1) * 2 ^ 32 > max_int
  /\ Z.min ((2 ^ 32 + 1) * 2 ^ 32) (2 ^ 33) = 2 ^ 33
  /\ 2 ^ 32 < 2 ^ 32 + 1 <= 2 ^ 33.
Proof. vm_compute. repeat split; congruence. Qed.

(** C7: with an exponential value of 0 the bound handed to [rand.Int63n]
    is 0 and the strategy panics; no guard returns the value unjittered. *)
Theorem C7_zero_delay_panics :
  ExponentialBackoff 0 0 0 [] = (Some 0, [])
  /\ JitterBackoff 0 0 0 [] = (None, []).
Proof. split; reflexivity. Qed.

End Backoff.

(** ** Errors *)

Section Errors.

Lemma error_eqb_refl e : error_eqb e e = true.
Proof.
  induction e as [i s|m e IH]; cbn.
  - rewrite Pos.eqb_refl, String.eqb_refl. reflexivity.
  - rewrite String.eqb_refl, IH. reflexivity.
Qed.

Lemma errors_Is_refl e : errors_Is e e = true.
Proof.
  destruct e as [i s|m e]; cbn [errors_Is];
    rewrite error_eqb_refl; reflexivity.
Qed.

(** An error made with [%w] unwraps to its operand and matches it. *)
Lemma Errorf_w_Unwrap prefix e suffix :
  Unwrap (Errorf_w prefix e suffix) = Some e.
Proof. reflexivity. Qed.

Lemma Errorf_w_Is prefix e suffix :
  errors_Is (Errorf_w prefix e suffix) e = true.
Proof.
  unfold Errorf_w. cbn [errors_Is]. rewrite errors_Is_refl. apply orb_true_r.
Qed.

(** It matches a leaf made by [errors.New] exactly when its operand does. *)
Lemma Errorf_w_Is_leaf prefix e suffix i t :
  errors_Is (Errorf_w prefix e suffix) (errorString i t)
  = errors_Is e (errorString i t).
Proof. reflexivity. Qed.

Lemma prefix_app p t : String.prefix p (p ++ t) = true.
Proof.
  induction p as [|a p IH]; cbn.
  - destruct t; reflexivity.
  - destruct (ascii_dec a a) as [_|N]; [exact IH|contradiction].
Qed.

(** Its message starts with the text before the verb. *)
Lemma Errorf_w_prefix prefix e suffix :
  String.prefix prefix (Error (Errorf_w prefix e suffix)) = true.
Proof. apply prefix_app. Qed.

End Errors.

(** ** The retry loop *)

Section LoopFacts.

Context {World : Type}.
Variable transport : RoundTripper World.
Variable retryStrategy : RetryStrategy.
Variable r : retryTransport World.

Local Abbreviation loop' := (loop transport retryStrategy r).
Local Abbreviation iteration' := (iteration transport retryStrategy r).

(** The loop, one pass at a time. *)
Lemma loop_pass attempt req s :
  loop' attempt req s =
  if attempt <=? rt_MaxRetries r then
    match iteration' attempt req s with
    | Ok (Return req1 out) s1 => Ok (req1, out) s1
    | Ok (Continue req1) s1 => loop' (attempt + 1) req1 s1
    | Panic s1 => Panic s1
    end
  else Ok (req, (None, Some ErrAllRetriesFailed)) s.
Proof.
  simp loop.
  destruct (Z_le_gt_dec attempt (rt_MaxRetries r)) as [H|H]; cbn.
  - replace (attempt <=? rt_MaxRetries r) with true
      by (symmetry; apply Z.leb_le; lia).
    destruct (iteration' attempt req s) as [[q o|q] s1|s1]; reflexivity.
  - replace (attempt <=? rt_MaxRetries r) with false
      by (symmetry; apply Z.leb_gt; lia).
    reflexivity.
Qed.

(** Induction along the passes of the loop. *)
Lemma loop_induction
    (P : Z -> Request World -> State World -> Res (Request World * Outcome) -> Prop) :
  (forall attempt req s,
      rt_MaxRetries r < attempt ->
      P attempt req s (Ok (req, (None, Some ErrAllRetriesFailed)) s)) ->
  (forall attempt req s req1 out s1,
      attempt <= rt_MaxRetries r ->
      iteration' attempt req s = Ok (Return req1 out) s1 ->
      P attempt req s (Ok (req1, out) s1)) ->
  (forall attempt req s req1 s1,
      attempt <= rt_MaxRetries r ->
      iteration' attempt req s = Ok (Continue req1) s1 ->
      P (attempt + 1) req1 s1 (loop' (attempt + 1) req1 s1) ->
      P attempt req s (loop' (attempt + 1) req1 s1)) ->
  (forall attempt req s s1,
      attempt <= rt_MaxRetries r ->
      iteration' attempt req s = Panic s1 ->
      P attempt req s (Panic s1)) ->
  forall attempt req s, P attempt req s (loop' attempt req s).
Proof.
  intros Hexit Hret Hcont Hpanic attempt req s.
  remember (Z.to_nat (rt_MaxRetries r + 1 - attempt)) as n eqn:En.
  revert attempt req s En.
  induction n as [n IH] using lt_wf_ind. intros attempt req s En.
  rewrite loop_pass.
  destruct (attempt <=? rt_MaxRetries r) eqn:E.
  - apply Z.leb_le in E.
    destruct (iteration' attempt req s) as [[q o|q] s1|s1] eqn:It.
    + apply Hret; assumption.
    + apply Hcont; try assumption.
      apply (IH (Z.to_nat (rt_MaxRetries r + 1 - (attempt + 1)))); [lia|reflexivity].
    + apply Hpanic; assumption.
  - apply Z.leb_gt in E. apply Hexit. exact E.
Qed.

(** *** What each stage adds to the trace *)

Lemma invocations_app a b :
  invocations (a ++ b) = (invocations a + invocations b)%nat.
Proof. unfold invocations. rewrite filter_app, length_app. reflexivity. Qed.

Lemma extends_refl (s : State World) : extends 0 s s.
Proof. exists []. rewrite app_nil_r. split; reflexivity. Qed.

Lemma extends_trans j k (s s1 s2 : State World) :
  extends j s s1 -> extends k s1 s2 -> extends (j + k) s s2.
Proof.
  intros [e1 [H1 K1]] [e2 [H2 K2]]. exists (e1 ++ e2).
  rewrite H2, H1, app_assoc, invocations_app. split; [reflexivity|lia].
Qed.

Lemma extends_invocations k (s s' : State World) :
  extends k s s' ->
  invocations (trace s') = (invocations (trace s) + k)%nat.
Proof. intros [e [H K]]. rewrite H, invocations_app, K. reflexivity. Qed.

Lemma final_state_bind {A B} (m : M A) (k : A -> M B) (s : State World) :
  final_state (bind m k s)
  = match m s with
    | Ok a s1 => final_state (k a s1)
    | Panic s1 => s1
    end.
Proof. unfold bind. destruct (m s); reflexivity. Qed.

Ltac quiet :=
  cbn;
  first
    [ apply extends_refl
    | exists []; cbn; rewrite app_nil_r; split; reflexivity
    | unfold extends; cbn; eexists; split;
      [rewrite <- ?app_assoc; reflexivity | reflexivity] ].

Lemma cloneBody_quiet req (s : State World) :
  extends 0 s (final_state (cloneBody req s)).
Proof.
  unfold cloneBody.
  destruct (Body req) as [b|]; [|quiet].
  destruct (GetBody req) as [g|]; [|quiet].
  unfold bind, call_GetBody, ret.
  destruct (g (world s)) as [[bc [e|]] w]; quiet.
Qed.

Lemma discardBody_quiet resp (s : State World) :
  extends 0 s (final_state (discardBody resp s)).
Proof.
  unfold discardBody. destruct resp as [rp|]; [|quiet].
  destruct (resp_Body rp) as [body|]; [|quiet].
  unfold bind, io_Copy_Discard, Close, ret.
  destruct (readErr body), (closeErr body); quiet.
Qed.

Lemma retryOrFail_quiet attempt req resp err (s : State World) :
  extends 0 s (final_state (retryOrFail retryStrategy r attempt req resp err s)).
Proof.
  unfold retryOrFail, bind, call_strategy, logRetry, logFailure, log,
    time_Sleep, ret.
  destruct (attempt <? rt_MaxRetries r).
  - destruct (retryStrategy attempt (rng s)) as [[d|] g]; [|quiet].
    destruct err, resp, (rt_logger r); quiet.
  - destruct err, resp, (rt_logger r); quiet.
Qed.

Lemma afterFailure_quiet attempt req resp err (s : State World) :
  extends 0 s (final_state (afterFailure retryStrategy r attempt req resp err s)).
Proof.
  unfold afterFailure. rewrite final_state_bind.
  pose proof (discardBody_quiet resp s) as H.
  destruct (discardBody resp s) as [[e|] s1|s1]; cbn in H.
  - exact H.
  - apply (extends_trans 0 0 s s1); [exact H|apply retryOrFail_quiet].
  - exact H.
Qed.

(** A pass that reaches the transport calls it once, first of all, with
    the body the request has at that point. *)
Lemma attemptOnce_trace attempt req (s : State World) :
  exists tail,
    trace (final_state (attemptOnce transport retryStrategy r attempt req s))
    = trace s ++ EvRoundTrip (Body req) :: tail
    /\ invocations tail = 0%nat.
Proof.
  unfold attemptOnce. rewrite final_state_bind. unfold call_RoundTrip.
  destruct (transport req (world s)) as [[resp err] w].
  set (s1 := emit (EvRoundTrip (Body req)) (set_world w s)).
  assert (G : forall s2, extends 0 s1 s2 ->
              exists tail, trace s2 = trace s ++ EvRoundTrip (Body req) :: tail
                           /\ invocations tail = 0%nat).
  { intros s2 [evs [H K]]. exists evs. rewrite H. cbn.
    rewrite <- app_assoc. split; [reflexivity|exact K]. }
  destruct err as [e|].
  - apply G. destruct resp; apply afterFailure_quiet.
  - destruct resp as [rp|].
    + destruct (StatusCode rp <? StatusInternalServerError).
      * apply G. apply extends_refl.
      * apply G. apply afterFailure_quiet.
    + apply G. apply extends_refl.
Qed.

Lemma attemptOnce_extends attempt req (s : State World) :
  extends 1 s (final_state (attemptOnce transport retryStrategy r attempt req s)).
Proof.
  destruct (attemptOnce_trace attempt req s) as [tail [H K]].
  exists (EvRoundTrip (Body req) :: tail). split; [exact H|].
  change (EvRoundTrip (Body req) :: tail) with ([EvRoundTrip (Body req)] ++ tail).
  rewrite invocations_app, K. reflexivity.
Qed.

(** A pass calls the transport once, unless the body could not be
    regenerated, and then not at all. *)
Lemma iteration_extends attempt req (s : State World) :
  match cloneBody req s with
  | Ok (inl _) _ => extends 1 s (final_state (iteration' attempt req s))
  | _ => extends 0 s (final_state (iteration' attempt req s))
  end.
Proof.
  unfold iteration. rewrite final_state_bind.
  pose proof (cloneBody_quiet req s) as H.
  destruct (cloneBody req s) as [[req1|e] s1|s1]; cbn in H |- *.
  - apply (extends_trans 0 1 s s1); [exact H|apply attemptOnce_extends].
  - exact H.
  - exact H.
Qed.

Lemma iteration_at_most_once attempt req (s : State World) :
  exists k, (k <= 1)%nat /\ extends k s (final_state (iteration' attempt req s)).
Proof.
  pose proof (iteration_extends attempt req s) as H.
  destruct (cloneBody req s) as [[req1|e] s1|s1]; eauto.
Qed.

(** *** Bounds on the number of transport calls *)

(** From the pass [attempt] on, the loop calls the transport at most once
    per remaining pass. *)
Lemma loop_at_most attempt req (s : State World) :
  exists k,
    (k <= Z.to_nat (rt_MaxRetries r + 1 - attempt))%nat
    /\ extends k s (final_state (loop' attempt req s)).
Proof.
  apply (loop_induction
           (fun attempt req s out =>
              exists k,
                (k <= Z.to_nat (rt_MaxRetries r + 1 - attempt))%nat
                /\ extends k s (final_state out))); clear attempt req s.
  - intros attempt req s _. exists 0%nat. split; [lia|apply extends_refl].
  - intros attempt req s req1 out s1 Hle It.
    destruct (iteration_at_most_once attempt req s) as [k [Hk He]].
    rewrite It in He. exists k. split; [lia|exact He].
  - intros attempt req s req1 s1 Hle It [k2 [Hk2 He2]].
    destruct (iteration_at_most_once attempt req s) as [k1 [Hk1 He1]].
    rewrite It in He1. exists (k1 + k2)%nat. split; [lia|].
    apply (extends_trans k1 k2 s s1); assumption.
  - intros attempt req s s1 Hle It.
    destruct (iteration_at_most_once attempt req s) as [k [Hk He]].
    rewrite It in He. exists k. split; [lia|exact He].
Qed.

(** When the body of the first remaining pass is in place, the next event
    is the transport call with that body. *)
Lemma loop_first_call attempt req (s : State World) req1 s1 :
  attempt <= rt_MaxRetries r ->
  cloneBody req s = Ok (inl req1) s1 ->
  exists tail,
    trace (final_state (loop' attempt req s))
    = trace s1 ++ EvRoundTrip (Body req1) :: tail.
Proof.
  intros Hle Hc. rewrite loop_pass.
  replace (attempt <=? rt_MaxRetries r) with true
    by (symmetry; apply Z.leb_le; exact Hle).
  unfold iteration, bind. rewrite Hc.
  destruct (attemptOnce_trace attempt req1 s1) as [tail [Ht _]].
  destruct (attemptOnce transport retryStrategy r attempt req1 s1)
    as [[q o|q] s2|s2]; cbn in Ht |- *.
  - exists tail. exact Ht.
  - destruct (loop_at_most (attempt + 1) q s2) as [k [_ [evs [He _]]]].
    exists (tail ++ evs). rewrite He, Ht, <- app_assoc. reflexivity.
  - exists tail. exact Ht.
Qed.

(** *** The request keeps everything but its body *)

Lemma same_but_Body_refl (req : Request World) : same_but_Body req req.
Proof. repeat split. Qed.

Lemma same_but_Body_trans (a b c : Request World) :
  same_but_Body a b -> same_but_Body b c -> same_but_Body a c.
Proof.
  unfold same_but_Body. intros (A1 & A2 & A3 & A4 & A5) (B1 & B2 & B3 & B4 & B5).
  repeat split; congruence.
Qed.

Lemma cloneBody_frame req (s : State World) req1 s1 :
  cloneBody req s = Ok (inl req1) s1 -> same_but_Body req req1.
Proof.
  unfold cloneBody.
  destruct (Body req) as [b|];
    [|intros H; inversion H; apply same_but_Body_refl].
  destruct (GetBody req) as [g|];
    [|intros H; inversion H; apply same_but_Body_refl].
  unfold bind, call_GetBody, ret.
  destruct (g (world s)) as [[bc [e|]] w]; intros H; inversion H.
  repeat split.
Qed.

Lemma retryOrFail_frame attempt req resp err (s : State World) st s1 :
  retryOrFail retryStrategy r attempt req resp err s = Ok st s1 ->
  step_request st = req.
Proof.
  unfold retryOrFail, bind, call_strategy, logRetry, logFailure, log,
    time_Sleep, ret.
  destruct (attempt <? rt_MaxRetries r).
  - destruct (retryStrategy attempt (rng s)) as [[d|] g]; [|discriminate].
    destruct err, resp, (rt_logger r); intros H; inversion H; reflexivity.
  - destruct err, resp, (rt_logger r); intros H; inversion H; reflexivity.
Qed.

Lemma afterFailure_frame attempt req resp err (s : State World) st s1 :
  afterFailure retryStrategy r attempt req resp err s = Ok st s1 ->
  step_request st = req.
Proof.
  unfold afterFailure, bind.
  destruct (discardBody resp s) as [[e|] s2|s2]; [| |discriminate].
  - unfold ret. intros H. inversion H. reflexivity.
  - apply retryOrFail_frame.
Qed.

Lemma attemptOnce_frame attempt req (s : State World) st s1 :
  attemptOnce transport retryStrategy r attempt req s = Ok st s1 ->
  step_request st = req.
Proof.
  unfold attemptOnce, bind, call_RoundTrip.
  destruct (transport req (world s)) as [[resp [e|]] w].
  - destruct resp; apply afterFailure_frame.
  - destruct resp as [rp|]; [|discriminate].
    destruct (StatusCode rp <? StatusInternalServerError).
    + unfold ret. intros H. inversion H. reflexivity.
    + apply afterFailure_frame.
Qed.

Lemma iteration_frame attempt req (s : State World) st s1 :
  iteration' attempt req s = Ok st s1 ->
  same_but_Body req (step_request st).
Proof.
  unfold iteration, bind.
  destruct (cloneBody req s) as [[req1|e] s2|s2] eqn:Hc; [| |discriminate].
  - intros H. apply attemptOnce_frame in H. rewrite H.
    apply (cloneBody_frame req s req1 s2 Hc).
  - unfold ret. intros H. inversion H. apply same_but_Body_refl.
Qed.

Lemma loop_frame attempt req (s : State World) req' out s' :
  loop' attempt req s = Ok (req', out) s' -> same_but_Body req req'.
Proof.
  revert req' out s'.
  apply (loop_induction
           (fun attempt req s res =>
              forall req' out s',
                res = Ok (req', out) s' -> same_but_Body req req'));
    clear attempt req s.
  - intros attempt req s _ req' out s' H. inversion H.
    apply same_but_Body_refl.
  - intros attempt req s req1 out s1 _ It req' out' s' H. inversion H.
    subst. apply (iteration_frame _ _ _ _ _ It).
  - intros attempt req s req1 s1 _ It IH req' out s' H.
    apply same_but_Body_trans with req1.
    + apply (iteration_frame _ _ _ _ _ It).
    + apply (IH _ _ _ H).
  - intros attempt req s s1 _ _ req' out s' H. discriminate.
Qed.

(** *** The stages after an outcome that is not a success *)

Lemma attemptOnce_retryable attempt req (s : State World) resp err w :
  transport req (world s) = ((resp, err), w) ->
  retryable (resp, err) ->
  attemptOnce transport retryStrategy r attempt req s
  = afterFailure retryStrategy r attempt req resp err
      (emit (EvRoundTrip (Body req)) (set_world w s)).
Proof.
  intros Hcall Hretry. unfold attemptOnce, bind, call_RoundTrip.
  rewrite Hcall. destruct err as [e|]; [reflexivity|].
  destruct resp as [rp|]; [|contradiction].
  cbn in Hretry.
  replace (StatusCode rp <? StatusInternalServerError) with false
    by (symmetry; apply Z.ltb_ge; exact Hretry).
  reflexivity.
Qed.

Lemma discardBody_Some rp body (s : State World) :
  resp_Body rp = Some body ->
  discardBody (Some rp) s
  = Ok match readErr body, closeErr body with
       | Some e, _ => Some (Errorf_w "failed to discard response body: " e "")
       | None, Some e => Some (Errorf_w "failed to close response body: " e "")
       | None, None => None
       end
       (emit (EvClose body) (emit (EvCopyDiscard body) s)).
Proof.
  intros Hb. unfold discardBody. rewrite Hb.
  unfold bind, io_Copy_Discard, Close, ret.
  destruct (readErr body), (closeErr body); reflexivity.
Qed.

(** A response without a body: the drain panics, before anything else. *)
Lemma discardBody_nil rp (s : State World) :
  resp_Body rp = None -> discardBody (Some rp) s = Panic s.
Proof. intros Hb. unfold discardBody. rewrite Hb. reflexivity. Qed.

Lemma discardBody_clean resp (s : State World) :
  discards_cleanly resp ->
  exists s1, discardBody resp s = Ok None s1.
Proof.
  destruct resp as [rp|]; cbn [discards_cleanly].
  - destruct (resp_Body rp) as [body|] eqn:Hb; [|contradiction].
    intros [Hr Hc]. rewrite (discardBody_Some rp body s Hb), Hr, Hc. eauto.
  - intros _. exists s. reflexivity.
Qed.

(** At the last pass the loop gives up with the error of an exhausted
    budget; logging cannot fail. *)
Lemma retryOrFail_last attempt req resp err (s : State World) :
  rt_MaxRetries r <= attempt ->
  exists s1,
    retryOrFail retryStrategy r attempt req resp err s
    = Ok (Return req (None, Some (exhaustedError resp err))) s1.
Proof.
  intros H. unfold retryOrFail.
  replace (attempt <? rt_MaxRetries r) with false
    by (symmetry; apply Z.ltb_ge; exact H).
  unfold bind, logFailure, log, ret.
  destruct err, resp, (rt_logger r); eauto.
Qed.

(** Before the last pass it sleeps for the delay of the strategy, all of
    it, and goes on. *)
Lemma retryOrFail_sleeps attempt req resp err (s : State World) d g :
  attempt < rt_MaxRetries r ->
  retryStrategy attempt (rng s) = (Some d, g) ->
  exists s1,
    retryOrFail retryStrategy r attempt req resp err s = Ok (Continue req) s1
    /\ clock s1 = clock s + Z.max 0 d
    /\ exists logged, trace s1 = trace s ++ logged ++ [EvSleep d].
Proof.
  intros H Hs. unfold retryOrFail.
  replace (attempt <? rt_MaxRetries r) with true
    by (symmetry; apply Z.ltb_lt; exact H).
  unfold bind, call_strategy. rewrite Hs.
  unfold logRetry, log, time_Sleep, ret.
  destruct err, resp, (rt_logger r); eexists;
    (split; [reflexivity|split; [reflexivity|]]); cbn;
    first [ exists []; reflexivity
          | eexists; rewrite <- app_assoc; reflexivity ].
Qed.

(** *** The cancellation signal of the request is never read *)

Lemma retryOrFail_WithContext c attempt req resp err (s : State World) :
  retryOrFail retryStrategy r attempt (WithContext req c) resp err s
  = res_map (step_WithContext c)
      (retryOrFail retryStrategy r attempt req resp err s).
Proof.
  unfold retryOrFail, bind, call_strategy, logRetry, logFailure, log,
    time_Sleep, ret.
  destruct (attempt <? rt_MaxRetries r).
  - destruct (retryStrategy attempt (rng s)) as [[d|] g]; [|reflexivity].
    destruct err, resp, (rt_logger r); reflexivity.
  - destruct err, resp, (rt_logger r); reflexivity.
Qed.

Lemma afterFailure_WithContext c attempt req resp err (s : State World) :
  afterFailure retryStrategy r attempt (WithContext req c) resp err s
  = res_map (step_WithContext c)
      (afterFailure retryStrategy r attempt req resp err s).
Proof.
  unfold afterFailure, bind.
  destruct (discardBody resp s) as [[e|] s1|s1]; [reflexivity| |reflexivity].
  apply retryOrFail_WithContext.
Qed.

Lemma attemptOnce_WithContext c attempt req (s : State World) :
  (forall q c' w, transport (WithContext q c') w = transport q w) ->
  attemptOnce transport retryStrategy r attempt (WithContext req c) s
  = res_map (step_WithContext c)
      (attemptOnce transport retryStrategy r attempt req s).
Proof.
  intros Hign. unfold attemptOnce, bind, call_RoundTrip. rewrite Hign.
  destruct (transport req (world s)) as [[resp [e|]] w]; cbn [Body WithContext].
  - apply afterFailure_WithContext.
  - destruct resp as [rp|]; [|reflexivity].
    destruct (StatusCode rp <? StatusInternalServerError); [reflexivity|].
    apply afterFailure_WithContext.
Qed.

Lemma iteration_WithContext c attempt req (s : State World) :
  (forall q c' w, transport (WithContext q c') w = transport q w) ->
  iteration' attempt (WithContext req c) s
  = res_map (step_WithContext c) (iteration' attempt req s).
Proof.
  intros Hign. unfold iteration, bind, cloneBody. cbn [Body GetBody WithContext].
  destruct (Body req) as [b|];
    [|apply (attemptOnce_WithContext c attempt req s Hign)].
  destruct (GetBody req) as [g|];
    [|apply (attemptOnce_WithContext c attempt req s Hign)].
  unfold bind, call_GetBody, ret.
  destruct (g (world s)) as [[bc [e|]] w]; [reflexivity|].
  apply (attemptOnce_WithContext c attempt (set_Body req bc) _ Hign).
Qed.

Lemma loop_WithContext c attempt req (s : State World) :
  (forall q c' w, transport (WithContext q c') w = transport q w) ->
  loop' attempt (WithContext req c) s
  = result_WithContext c (loop' attempt req s).
Proof.
  intros Hign.
  apply (loop_induction
           (fun attempt req s res =>
              loop' attempt (WithContext req c) s = result_WithContext c res));
    clear attempt req s.
  - intros attempt req s H. rewrite loop_pass.
    replace (attempt <=? rt_MaxRetries r) with false
      by (symmetry; apply Z.leb_gt; exact H).
    reflexivity.
  - intros attempt req s req1 out s1 H It. rewrite loop_pass.
    replace (attempt <=? rt_MaxRetries r) with true
      by (symmetry; apply Z.leb_le; exact H).
    rewrite (iteration_WithContext c attempt req s Hign), It. reflexivity.
  - intros attempt req s req1 s1 H It IH. rewrite loop_pass.
    replace (attempt <=? rt_MaxRetries r) with true
      by (symmetry; apply Z.leb_le; exact H).
    rewrite (iteration_WithContext c attempt req s Hign), It. exact IH.
  - intros attempt req s s1 H It. rewrite loop_pass.
    replace (attempt <=? rt_MaxRetries r) with true
      by (symmetry; apply Z.leb_le; exact H).
    rewrite (iteration_WithContext c attempt req s Hign), It. reflexivity.
Qed.

(** *** A transport that always fails in a retryable way *)

Lemma cloneBody_ok req (s : State World) :
  (forall g w, GetBody req = Some g -> snd (fst (g w)) = None) ->
  exists req1 s1, cloneBody req s = Ok (inl req1) s1.
Proof.
  intros Hg. unfold cloneBody.
  destruct (Body req) as [b|]; [|eauto].
  destruct (GetBody req) as [g|]; [|eauto].
  unfold bind, call_GetBody, ret.
  specialize (Hg g (world s) eq_refl).
  destruct (g (world s)) as [[bc [e|]] w]; [discriminate|eauto].
Qed.

Lemma iteration_always_retryable attempt req (s : State World) :
  (forall a g, exists d g', retryStrategy a g = (Some d, g')) ->
  (forall q w, retryable (fst (transport q w))
               /\ discards_cleanly (fst (fst (transport q w)))) ->
  (forall g w, GetBody req = Some g -> snd (fst (g w)) = None) ->
  exists req1 x s1,
    same_but_Body req req1
    /\ extends 1 s s1
    /\ iteration' attempt req s
       = Ok (if attempt <? rt_MaxRetries r
             then Continue req1
             else Return req1 (None, Some x)) s1.
Proof.
  intros Hs Ht Hg.
  destruct (cloneBody_ok req s Hg) as [req1 [s1 Hc]].
  pose proof (iteration_extends attempt req s) as Hext. rewrite Hc in Hext.
  assert (E : exists x s2,
             iteration' attempt req s
             = Ok (if attempt <? rt_MaxRetries r
                   then Continue req1
                   else Return req1 (None, Some x)) s2).
  { unfold iteration, bind. rewrite Hc.
    destruct (transport req1 (world s1)) as [[resp err] w] eqn:Hcall.
    destruct (Ht req1 (world s1)) as [Hretry Hclean].
    rewrite Hcall in Hretry, Hclean. cbn [fst] in Hretry, Hclean.
    rewrite (attemptOnce_retryable attempt req1 s1 resp err w Hcall Hretry).
    unfold afterFailure, bind.
    destruct (discardBody_clean resp
                (emit (EvRoundTrip (Body req1)) (set_world w s1)) Hclean)
      as [s2 Hd].
    rewrite Hd.
    destruct (attempt <? rt_MaxRetries r) eqn:L.
    - apply Z.ltb_lt in L.
      destruct (Hs attempt (rng s2)) as [d [g' Hd']].
      destruct (retryOrFail_sleeps attempt req1 resp err s2 d g' L Hd')
        as [s3 [H3 _]].
      exists ErrAllRetriesFailed, s3. exact H3.
    - apply Z.ltb_ge in L.
      destruct (retryOrFail_last attempt req1 resp err s2 L) as [s3 H3].
      exists (exhaustedError resp err), s3. exact H3. }
  destruct E as [x [s2 E]]. rewrite E in Hext. cbn in Hext.
  exists req1, x, s2. split; [|split; [exact Hext|exact E]].
  apply (cloneBody_frame req s req1 s1 Hc).
Qed.

(** Such a transport is called at every pass that remains. *)
Lemma loop_always_retryable attempt req (s : State World) :
  (forall a g, exists d g', retryStrategy a g = (Some d, g')) ->
  (forall q w, retryable (fst (transport q w))
               /\ discards_cleanly (fst (fst (transport q w)))) ->
  (forall g w, GetBody req = Some g -> snd (fst (g w)) = None) ->
  exists req' x s',
    loop' attempt req s = Ok (req', (None, Some x)) s'
    /\ extends (Z.to_nat (rt_MaxRetries r + 1 - attempt)) s s'.
Proof.
  intros Hs Ht.
  apply (loop_induction
           (fun attempt req s res =>
              (forall g w, GetBody req = Some g -> snd (fst (g w)) = None) ->
              exists req' x s',
                res = Ok (req', (None, Some x)) s'
                /\ extends (Z.to_nat (rt_MaxRetries r + 1 - attempt)) s s'));
    clear attempt req s.
  - intros attempt req s H _. exists req, ErrAllRetriesFailed, s.
    split; [reflexivity|].
    replace (Z.to_nat (rt_MaxRetries r + 1 - attempt)) with 0%nat by lia.
    apply extends_refl.
  - intros attempt req s req1 out s1 H It Hg.
    destruct (iteration_always_retryable attempt req s Hs Ht Hg)
      as [q [x [s2 [_ [Hext E]]]]].
    rewrite It in E.
    destruct (attempt <? rt_MaxRetries r) eqn:L; [discriminate|].
    apply Z.ltb_ge in L. inversion E; subst.
    exists q, x, s2. split; [reflexivity|].
    replace (Z.to_nat (rt_MaxRetries r + 1 - attempt)) with 1%nat by lia.
    exact Hext.
  - intros attempt req s req1 s1 H It IH Hg.
    destruct (iteration_always_retryable attempt req s Hs Ht Hg)
      as [q [x [s2 [Hsame [Hext E]]]]].
    rewrite It in E.
    destruct (attempt <? rt_MaxRetries r) eqn:L; [|discriminate].
    apply Z.ltb_lt in L. inversion E; subst.
    destruct IH as [req' [x' [s' [Hres Hext']]]].
    { destruct Hsame as (_ & _ & _ & HG & _). rewrite HG. exact Hg. }
    exists req', x', s'. split; [exact Hres|].
    replace (Z.to_nat (rt_MaxRetries r + 1 - attempt))
      with (1 + Z.to_nat (rt_MaxRetries r + 1 - (attempt + 1)))%nat by lia.
    apply (extends_trans 1 _ s s2); assumption.
  - intros attempt req s s1 H It Hg.
    destruct (iteration_always_retryable attempt req s Hs Ht Hg)
      as [q [x [s2 [_ [_ E]]]]].
    rewrite It in E. destruct (attempt <? rt_MaxRetries r); discriminate.
Qed.

(** *** Passes that the loop reaches *)

Lemma loop_reaches a req (s : State World) a' req' s' :
  reaches transport retryStrategy r a req s a' req' s' ->
  loop' a req s = loop' a' req' s'.
Proof.
  induction 1 as [|a req s req1 s1 a' req' s' Hle It _ IH]; [reflexivity|].
  rewrite loop_pass.
  replace (a <=? rt_MaxRetries r) with true
    by (symmetry; apply Z.leb_le; exact Hle).
  rewrite It. exact IH.
Qed.

(** A pass whose outcome is not a success, spelled out. *)
Lemma loop_after_failure attempt req (s : State World) req1 s1 resp err w :
  attempt <= rt_MaxRetries r ->
  cloneBody req s = Ok (inl req1) s1 ->
  transport req1 (world s1) = ((resp, err), w) ->
  retryable (resp, err) ->
  loop' attempt req s
  = match afterFailure retryStrategy r attempt req1 resp err
            (emit (EvRoundTrip (Body req1)) (set_world w s1)) with
    | Ok (Return q out) s2 => Ok (q, out) s2
    | Ok (Continue q) s2 => loop' (attempt + 1) q s2
    | Panic s2 => Panic s2
    end.
Proof.
  intros Hle Hc Hcall Hretry. rewrite loop_pass.
  replace (attempt <=? rt_MaxRetries r) with true
    by (symmetry; apply Z.leb_le; exact Hle).
  unfold iteration, bind. rewrite Hc.
  rewrite (attemptOnce_retryable attempt req1 s1 resp err w Hcall Hretry).
  reflexivity.
Qed.

End LoopFacts.

(** ** RoundTrip *)

Section Claims.

Context {World : Type}.
Variable DefaultTransport : RoundTripper World.
Variable r : retryTransport World.

Local Abbreviation T := (transportOf DefaultTransport r).
Local Abbreviation strat := (strategyOf r).

(** The constructor takes the retry ceiling as it is given, and three
    when it is given none. *)
Lemma NewHTTPRetryClient_default_ceiling :
  rt_MaxRetries (NewHTTPRetryClient DefaultTransport []) = 3.
Proof. reflexivity. Qed.

Lemma NewHTTPRetryClient_ceiling n :
  rt_MaxRetries (NewHTTPRetryClient DefaultTransport [WithMaxRetriesRetry n])
  = n.
Proof. reflexivity. Qed.

(** C1, amended: when the last pass of the loop ends with an outcome that
    is not a success, [RoundTrip] returns no response and an error.  After
    a transport error the error wraps that error, with the message
    "all retries failed; last error: ...", and matches ErrAllRetriesFailed
    only if the transport error does; after a response of status 500 or
    more it matches ErrAllRetriesFailed and its message ends with the
    status code. *)
Theorem C1_exhausted_budget_error
    req (s : State World) reqM sM req1 s1 resp err w :
  reaches T strat r 0 req s (rt_MaxRetries r) reqM sM ->
  cloneBody reqM sM = Ok (inl req1) s1 ->
  T req1 (world s1) = ((resp, err), w) ->
  retryable (resp, err) ->
  discards_cleanly resp ->
  exists x s',
    RoundTrip DefaultTransport r req s = Ok (req1, (None, Some x)) s'
    /\ (forall e, err = Some e ->
          x = Errorf_w "all retries failed; last error: " e ""
          /\ Unwrap x = Some e
          /\ errors_Is x e = true
          /\ errors_Is x ErrAllRetriesFailed = errors_Is e ErrAllRetriesFailed)
    /\ (forall rp, err = None -> resp = Some rp ->
          errors_Is x ErrAllRetriesFailed = true
          /\ Error x
             = ("all retry attempts failed: last attempt failed with status "
                  ++ itoa (StatusCode rp))%string).
Proof.
  intros Hreach Hc Hcall Hretry Hclean. unfold RoundTrip.
  rewrite (loop_reaches _ _ _ _ _ _ _ _ _ Hreach).
  rewrite (loop_after_failure _ _ _ _ _ _ _ _ _ _ _ (Z.le_refl _) Hc Hcall Hretry).
  unfold afterFailure, bind.
  destruct (discardBody_clean resp
              (emit (EvRoundTrip (Body req1)) (set_world w s1)) Hclean)
    as [s2 Hd].
  rewrite Hd.
  destruct (retryOrFail_last strat r (rt_MaxRetries r) req1 resp err s2
              (Z.le_refl _)) as [s3 H3].
  rewrite H3. exists (exhaustedError resp err), s3.
  split; [reflexivity|split].
  - intros e He. subst err. cbn [exhaustedError].
    repeat split.
    + apply Errorf_w_Is.
  - intros rp He Hr. subst err resp. cbn [exhaustedError]. split; reflexivity.
Qed.

(** C3: at any pass the loop reaches, the first included, a response
    below 500 that comes without a transport error is returned at once,
    with no error, whatever the retry ceiling: the transport call that
    yielded it is the only one since the start of the pass, hence the only
    one of all when the pass is the first, and nothing follows it. *)
Theorem C3_below_500_returned_at_once
    req (s : State World) attempt reqA sA req1 s1 rp w :
  reaches T strat r 0 req s attempt reqA sA ->
  attempt <= rt_MaxRetries r ->
  cloneBody reqA sA = Ok (inl req1) s1 ->
  T req1 (world s1) = ((Some rp, None), w) ->
  StatusCode rp < 500 ->
  RoundTrip DefaultTransport r req s
  = Ok (req1, (Some rp, None))
       (emit (EvRoundTrip (Body req1)) (set_world w s1))
  /\ invocations (trace (final_state (RoundTrip DefaultTransport r req s)))
     = (invocations (trace sA) + 1)%nat.
Proof.
  intros Hreach Hm Hc Hcall Hlt.
  assert (E : RoundTrip DefaultTransport r req s
              = Ok (req1, (Some rp, None))
                   (emit (EvRoundTrip (Body req1)) (set_world w s1))).
  { unfold RoundTrip. rewrite (loop_reaches _ _ _ _ _ _ _ _ _ Hreach).
    rewrite loop_pass.
    replace (attempt <=? rt_MaxRetries r) with true
      by (symmetry; apply Z.leb_le; exact Hm).
    unfold iteration, bind. rewrite Hc.
    unfold attemptOnce, bind, call_RoundTrip. rewrite Hcall.
    replace (StatusCode rp <? StatusInternalServerError) with true
      by (symmetry; apply Z.ltb_lt; exact Hlt).
    reflexivity. }
  split; [exact E|]. rewrite E.
  cbn [final_state trace emit set_world].
  pose proof (cloneBody_quiet reqA sA) as Q. rewrite Hc in Q.
  apply extends_invocations in Q. cbn [final_state] in Q.
  rewrite invocations_app, Q. cbn. lia.
Qed.

(** C8: at any pass the loop reaches, a response that comes with a
    retryable outcome and has a body is drained and then closed, straight
    after the transport call.  A drain failure ends [RoundTrip] at once
    with the
    "failed to discard response body" error that wraps it, also when the
    close fails too; a close failure after a clean drain ends it at once
    with the "failed to close response body" error that wraps it; and
    only after both succeed does the loop go on to sleep or give up. *)
Theorem C8_failed_response_drained_then_closed
    req (s : State World) attempt reqA sA req1 s1 rp body err w :
  reaches T strat r 0 req s attempt reqA sA ->
  attempt <= rt_MaxRetries r ->
  cloneBody reqA sA = Ok (inl req1) s1 ->
  T req1 (world s1) = ((Some rp, err), w) ->
  retryable (Some rp, err) ->
  resp_Body rp = Some body ->
  let s3 :=
    emit (EvClose body)
      (emit (EvCopyDiscard body)
         (emit (EvRoundTrip (Body req1)) (set_world w s1))) in
  match readErr body, closeErr body with
  | Some e, _ =>
      RoundTrip DefaultTransport r req s
      = Ok (req1, (None, Some (Errorf_w "failed to discard response body: " e "")))
           s3
  | None, Some e =>
      RoundTrip DefaultTransport r req s
      = Ok (req1, (None, Some (Errorf_w "failed to close response body: " e "")))
           s3
  | None, None =>
      RoundTrip DefaultTransport r req s
      = match retryOrFail strat r attempt req1 (Some rp) err s3 with
        | Ok (Return q out) s4 => Ok (q, out) s4
        | Ok (Continue q) s4 => loop T strat r (attempt + 1) q s4
        | Panic s4 => Panic s4
        end
  end.
Proof.
  intros Hreach Hle Hc Hcall Hretry Hbody s3. unfold RoundTrip.
  rewrite (loop_reaches _ _ _ _ _ _ _ _ _ Hreach).
  rewrite (loop_after_failure _ _ _ _ _ _ _ _ _ _ _ Hle Hc Hcall Hretry).
  unfold afterFailure, bind. rewrite (discardBody_Some rp body _ Hbody).
  fold s3.
  destruct (readErr body), (closeErr body); reflexivity.
Qed.

(** C9: the request that [RoundTrip] returns with has the method, the
    address and the headers it came with; only the body may differ. *)
Theorem C9_only_the_body_changes req (s : State World) req' out s' :
  RoundTrip DefaultTransport r req s = Ok (req', out) s' ->
  Method req' = Method req /\ URL req' = URL req /\ Header req' = Header req.
Proof.
  unfold RoundTrip. intros H. apply loop_frame in H.
  destruct H as (H1 & H2 & H3 & _). repeat split; assumption.
Qed.

(** C10: a request with a body and [GetBody] has its body regenerated
    before the first call of the transport too: [GetBody] is called first
    and the transport then receives the regenerated body; if that first
    [GetBody] fails, [RoundTrip] returns the error that wraps the failure
    without any call of the transport. *)
Theorem C10_body_regenerated_before_first_attempt
    req (s : State World) b g :
  0 <= rt_MaxRetries r ->
  Body req = Some b ->
  GetBody req = Some g ->
  match g (world s) with
  | ((bodyClone, None), w) =>
      exists tail,
        trace (final_state (RoundTrip DefaultTransport r req s))
        = trace s ++ EvGetBody :: EvRoundTrip bodyClone :: tail
  | ((_, Some e), w) =>
      RoundTrip DefaultTransport r req s
      = Ok (req, (None, Some (Errorf_w "failed to get request body for retry: " e "")))
           (emit EvGetBody (set_world w s))
      /\ invocations (trace (final_state (RoundTrip DefaultTransport r req s)))
         = invocations (trace s)
  end.
Proof.
  intros Hm Hb Hg.
  destruct (g (world s)) as [[bc [e|]] w] eqn:G.
  - assert (E : RoundTrip DefaultTransport r req s
                = Ok (req, (None, Some (Errorf_w "failed to get request body for retry: " e "")))
                     (emit EvGetBody (set_world w s))).
    { unfold RoundTrip. rewrite loop_pass.
      replace (0 <=? rt_MaxRetries r) with true
        by (symmetry; apply Z.leb_le; exact Hm).
      unfold iteration, bind, cloneBody. rewrite Hb, Hg.
      unfold bind, call_GetBody. rewrite G. reflexivity. }
    split; [exact E|]. rewrite E.
    cbn [final_state trace emit set_world].
    rewrite invocations_app. cbn. lia.
  - assert (Hc : cloneBody req s
                 = Ok (inl (set_Body req bc)) (emit EvGetBody (set_world w s))).
    { unfold cloneBody. rewrite Hb, Hg. unfold bind, call_GetBody.
      rewrite G. reflexivity. }
    destruct (loop_first_call T strat r 0 req s _ _ Hm Hc) as [tail Ht].
    exists tail. unfold RoundTrip. rewrite Ht.
    cbn [trace emit set_world Body set_Body].
    rewrite <- app_assoc. reflexivity.
Qed.

(** C4, amended: with a retry ceiling of zero or more, [RoundTrip] calls
    the transport at most [MaxRetries + 1] times.  It calls it at least
    once unless the regeneration of the body, which precedes every call
    and the first one too, fails before the first call: then it is not
    called at all.  A request every attempt of which ends in a retryable
    outcome, with regeneration, drain, close and strategy all succeeding,
    makes exactly [MaxRetries + 1] calls and then fails. *)
Theorem C4_invocation_bounds req (s : State World) :
  0 <= rt_MaxRetries r ->
  exists k,
    extends k s (final_state (RoundTrip DefaultTransport r req s))
    /\ (k <= Z.to_nat (rt_MaxRetries r + 1))%nat
    /\ (forall req1 s1, cloneBody req s = Ok (inl req1) s1 -> (1 <= k)%nat)
    /\ (forall e s1, cloneBody req s = Ok (inr e) s1 ->
          k = 0%nat
          /\ RoundTrip DefaultTransport r req s = Ok (req, (None, Some e)) s1)
    /\ ((forall a g, exists d g', strat a g = (Some d, g')) ->
        (forall q w, retryable (fst (T q w))
                     /\ discards_cleanly (fst (fst (T q w)))) ->
        (forall g w, GetBody req = Some g -> snd (fst (g w)) = None) ->
        k = Z.to_nat (rt_MaxRetries r + 1)
        /\ exists req' x s',
             RoundTrip DefaultTransport r req s = Ok (req', (None, Some x)) s').
Proof.
  intros Hm. unfold RoundTrip.
  destruct (loop_at_most T strat r 0 req s) as [k [Hk Hext]].
  rewrite Z.sub_0_r in Hk.
  assert (U : forall j,
             extends j s (final_state (loop T strat r 0 req s)) -> j = k).
  { intros j Hj. apply extends_invocations in Hj, Hext. lia. }
  exists k. split; [exact Hext|split; [exact Hk|split; [|split]]].
  - intros req1 s1 Hc.
    destruct (loop_first_call T strat r 0 req s req1 s1 Hm Hc) as [tail Ht].
    pose proof (cloneBody_quiet req s) as Q. rewrite Hc in Q.
    apply extends_invocations in Q, Hext. cbn [final_state] in Q.
    rewrite Ht in Hext.
    change (EvRoundTrip (Body req1) :: tail)
      with ([EvRoundTrip (Body req1)] ++ tail) in Hext.
    rewrite !invocations_app in Hext. cbn in Hext. lia.
  - intros e s1 Hc.
    assert (E : loop T strat r 0 req s = Ok (req, (None, Some e)) s1).
    { rewrite loop_pass.
      replace (0 <=? rt_MaxRetries r) with true
        by (symmetry; apply Z.leb_le; exact Hm).
      unfold iteration, bind. rewrite Hc. reflexivity. }
    split; [|exact E]. symmetry. apply U. rewrite E.
    pose proof (cloneBody_quiet req s) as Q. rewrite Hc in Q. exact Q.
  - intros Hs Ht Hg.
    destruct (loop_always_retryable T strat r 0 req s Hs Ht Hg)
      as [req' [x [s' [E Hx]]]].
    rewrite Z.sub_0_r in Hx. split; [|eauto].
    symmetry. apply U. rewrite E. exact Hx.
Qed.

(** C5, amended: [RoundTrip] never reads the cancellation signal of the
    request.  Whatever the signal, and whether or not it has fired, a
    request is processed as the same request with any other signal, as
    long as the underlying transport itself answers the same; and every
    backoff before the last pass is a [time.Sleep] of the whole delay of
    the strategy, after which the loop goes on. *)
Theorem C5_signal_never_read req c (s : State World) :
  (forall q c' w, T (WithContext q c') w = T q w) ->
  RoundTrip DefaultTransport r (WithContext req c) s
  = result_WithContext c (RoundTrip DefaultTransport r req s)
  /\ (forall attempt resp err s0 d g,
        attempt < rt_MaxRetries r ->
        strat attempt (rng s0) = (Some d, g) ->
        exists s1,
          retryOrFail strat r attempt (WithContext req c) resp err s0
          = Ok (Continue (WithContext req c)) s1
          /\ clock s1 = clock s0 + Z.max 0 d
          /\ exists logged, trace s1 = trace s0 ++ logged ++ [EvSleep d]).
Proof.
  intros Hign. split.
  - unfold RoundTrip. apply loop_WithContext. exact Hign.
  - intros attempt resp err s0 d g Hlt Hs.
    apply (retryOrFail_sleeps strat r attempt _ resp err s0 d g Hlt Hs).
Qed.

End Claims.

(** ** The properties at work on the fakes of the test suite *)

Section Runs.

Import Fakes.

Lemma C1_witness :
  reaches alwaysError (FixedDelay Millisecond) exhausting
    0 GET start 1 GET afterFirstFailure
  /\ retryable (None, Some simulatedError)
  /\ exists x s',
       RoundTrip alwaysError exhausting GET start = Ok (GET, (None, Some x)) s'
       /\ Unwrap x = Some simulatedError
       /\ errors_Is x simulatedError = true
       /\ errors_Is x ErrAllRetriesFailed = false.
Proof.
  assert (R : reaches alwaysError (FixedDelay Millisecond) exhausting
                0 GET start 1 GET afterFirstFailure).
  { eapply reaches_next; [cbn; lia|vm_compute; reflexivity|apply reaches_here]. }
  split; [exact R|]. split; [exact I|].
  destruct (C1_exhausted_budget_error alwaysError exhausting
              GET start GET afterFirstFailure GET afterFirstFailure
              None (Some simulatedError)
              (tick_attempts (world afterFirstFailure))
              R eq_refl eq_refl I I)
    as [x [s' [E [H _]]]].
  destruct (H simulatedError eq_refl) as [_ [U [J K]]].
  exists x, s'. repeat split; assumption.
Defined.

(** C1 as stated fails: with one retry and a transport that always fails
    with [simulatedError], the budget is exhausted after two calls and the
    error returned wraps [simulatedError] but does not match
    ErrAllRetriesFailed. *)
Lemma C1_counterexample :
  exists x s',
    RoundTrip alwaysError exhausting GET start = Ok (GET, (None, Some x)) s'
    /\ invocations (trace s') = 2%nat
    /\ Unwrap x = Some simulatedError
    /\ errors_Is x ErrAllRetriesFailed = false.
Proof. do 2 eexists. repeat split; vm_compute; reflexivity. Qed.

(** C2: a request with a body and no [GetBody] is retried all the same.
    After a first 500 the loop sleeps and calls the transport again with
    the body already handed to the first attempt, and returns the 200 of
    the second attempt; nothing aborts with a body-replay error. *)
Theorem C2_retried_without_GetBody :
  RoundTrip alwaysError
    (retrier (failThenOK 1) 1 (FixedDelay Millisecond)) POST_oneShot start
  = Ok (POST_oneShot, (Some (response 200 (NopCloser "Success")), None))
       {| world := {| attempts := 2; getBodyAttempts := 0 |};
          rng := [];
          clock := Millisecond;
          trace := [EvRoundTrip (Body POST_oneShot);
                    EvCopyDiscard (NopCloser "Fail");
                    EvClose (NopCloser "Fail");
                    EvSleep Millisecond;
                    EvRoundTrip (Body POST_oneShot)] |}.
Proof. vm_compute. reflexivity. Qed.

Lemma C3_witness :
  reaches (alwaysStatus 400) (FixedDelay Millisecond)
    (retrier (alwaysStatus 400) 3 (FixedDelay Millisecond))
    0 GET start 0 GET start
  /\ 0 <= 3
  /\ 400 < 500
  /\ RoundTrip alwaysError
       (retrier (alwaysStatus 400) 3 (FixedDelay Millisecond)) GET start
     = Ok (GET, (Some (response 400 (NopCloser "Fail")), None))
          (emit (EvRoundTrip None) (set_world (tick_attempts (world start)) start))
  /\ invocations
       (trace (final_state
                 (RoundTrip alwaysError
                    (retrier (alwaysStatus 400) 3 (FixedDelay Millisecond))
                    GET start)))
     = 1%nat.
Proof.
  split; [apply reaches_here|]. split; [lia|]. split; [lia|].
  apply (C3_below_500_returned_at_once alwaysError
           (retrier (alwaysStatus 400) 3 (FixedDelay Millisecond))
           GET start 0 GET start GET start (response 400 (NopCloser "Fail"))
           (tick_attempts (world start))).
  - apply reaches_here.
  - cbn. lia.
  - reflexivity.
  - reflexivity.
  - cbn. lia.
Defined.

Lemma C4_witness :
  0 <= 2
  /\ exists k,
       extends k start
         (final_state
            (RoundTrip alwaysError
               (retrier (alwaysStatus 503) 2 (FixedDelay Millisecond))
               GET start))
       /\ k = 3%nat.
Proof.
  split; [lia|].
  destruct (C4_invocation_bounds alwaysError
              (retrier (alwaysStatus 503) 2 (FixedDelay Millisecond))
              GET start ltac:(cbn; lia))
    as [k [Hext [_ [_ [_ Hall]]]]].
  exists k. split; [exact Hext|].
  apply Hall.
  - intros a g. exists Millisecond, g. reflexivity.
  - intros q w. split; [cbn; unfold StatusInternalServerError; lia|].
    split; reflexivity.
  - intros g w H. discriminate H.
Defined.

(** C4 as stated fails: a request whose first [GetBody] fails never
    reaches the transport, so the number of calls is 0 and not at least 1. *)
Lemma C4_counterexample :
  0 <= 1
  /\ invocations
       (trace (final_state
                 (RoundTrip alwaysError
                    (retrier (alwaysStatus 200) 1 (FixedDelay Millisecond))
                    (POST 0) start)))
     = 0%nat
  /\ ~ (1 <= invocations
              (trace (final_state
                        (RoundTrip alwaysError
                           (retrier (alwaysStatus 200) 1 (FixedDelay Millisecond))
                           (POST 0) start)))
        <= 1 + 1)%nat.
Proof.
  split; [lia|]. split; [vm_compute; reflexivity|].
  vm_compute. intros [H _]. inversion H.
Qed.

Lemma C5_witness :
  (forall q c' w,
      alwaysStatus 503 (WithContext q c') w = alwaysStatus 503 q w)
  /\ RoundTrip alwaysError
       (retrier (alwaysStatus 503) 1 (FixedDelay Second))
       (WithContext GET halfSecond) start
     = result_WithContext halfSecond
         (RoundTrip alwaysError
            (retrier (alwaysStatus 503) 1 (FixedDelay Second)) GET start).
Proof.
  assert (H : forall q c' w,
             alwaysStatus 503 (WithContext q c') w = alwaysStatus 503 q w)
    by (intros q c' w; reflexivity).
  split; [exact H|].
  apply (C5_signal_never_read alwaysError
           (retrier (alwaysStatus 503) 1 (FixedDelay Second))
           GET halfSecond start H).
Defined.

(** C5 as stated fails: the signal of the request fires half a second
    into a backoff of one second.  The loop sleeps the whole second, then
    calls the transport again with the signal fired, and the error it
    returns is the one of an exhausted budget, not a cancellation. *)
Lemma C5_counterexample :
  ctx_Err halfSecond 0 = None
  /\ ctx_Err halfSecond Second = Some context_DeadlineExceeded
  /\ exists req' x s',
       RoundTrip alwaysError
         (retrier (alwaysStatus 503) 1 (FixedDelay Second))
         (WithContext GET halfSecond) start
       = Ok (req', (None, Some x)) s'
       /\ errors_Is x context_DeadlineExceeded = false
       /\ errors_Is x context_Canceled = false
       /\ errors_Is x ErrAllRetriesFailed = true
       /\ clock s' = Second
       /\ trace s'
          = [EvRoundTrip None;
             EvCopyDiscard (NopCloser "Fail"); EvClose (NopCloser "Fail");
             EvSleep Second;
             EvRoundTrip None;
             EvCopyDiscard (NopCloser "Fail"); EvClose (NopCloser "Fail")].
Proof.
  split; [reflexivity|]. split; [reflexivity|].
  do 3 eexists. repeat split; vm_compute; reflexivity.
Qed.

Lemma C8_witness :
  reaches (brokenBody errorReaderCloser) (FixedDelay Millisecond)
    (retrier (brokenBody errorReaderCloser) 1 (FixedDelay Millisecond))
    0 GET start 0 GET start
  /\ 0 <= 1
  /\ retryable (Some (response 500 errorReaderCloser), None)
  /\ resp_Body (response 500 errorReaderCloser) = Some errorReaderCloser
  /\ RoundTrip alwaysError
       (retrier (brokenBody errorReaderCloser) 1 (FixedDelay Millisecond))
       GET start
     = Ok (GET,
           (None,
            Some (Errorf_w "failed to discard response body: "
                    simulatedReadError "")))
          (emit (EvClose errorReaderCloser)
             (emit (EvCopyDiscard errorReaderCloser)
                (emit (EvRoundTrip None)
                   (set_world (tick_attempts (world start)) start)))).
Proof.
  assert (R : retryable (Some (response 500 errorReaderCloser), None))
    by (cbn; unfold StatusInternalServerError; lia).
  split; [apply reaches_here|]. split; [lia|]. split; [exact R|].
  split; [reflexivity|].
  apply (C8_failed_response_drained_then_closed alwaysError
           (retrier (brokenBody errorReaderCloser) 1 (FixedDelay Millisecond))
           GET start 0 GET start GET start
           (response 500 errorReaderCloser) errorReaderCloser None
           (tick_attempts (world start))).
  - apply reaches_here.
  - cbn. lia.
  - reflexivity.
  - reflexivity.
  - exact R.
  - reflexivity.
Defined.

Lemma C9_witness :
  exists req' out s',
    RoundTrip alwaysError
      (retrier (failThenOK 1) 1 (FixedDelay Millisecond)) (POST 5) start
    = Ok (req', out) s'
    /\ Method req' = "POST"
    /\ URL req' = "http://example.com"
    /\ Header req' = [("Content-Type", "text/plain")].
Proof.
  destruct (RoundTrip alwaysError
              (retrier (failThenOK 1) 1 (FixedDelay Millisecond))
              (POST 5) start) as [[req' out] s'|s'] eqn:E.
  - exists req', out, s'. split; [reflexivity|].
    apply (C9_only_the_body_changes alwaysError
             (retrier (failThenOK 1) 1 (FixedDelay Millisecond))
             (POST 5) start req' out s' E).
  - vm_compute in E. discriminate E.
Defined.

Lemma C10_witness :
  0 <= 1
  /\ exists tail,
       trace (final_state
                (RoundTrip alwaysError
                   (retrier (failThenOK 1) 1 (FixedDelay Millisecond))
                   (POST 1) start))
       = [] ++ EvGetBody
            :: EvRoundTrip (Some (NopCloser "Request Body Content")) :: tail.
Proof.
  split; [lia|].
  apply (C10_body_regenerated_before_first_attempt alwaysError
           (retrier (failThenOK 1) 1 (FixedDelay Millisecond))
           (POST 1) start (NopCloser "Request Body Content")
           (getBodyFailingFrom 1 "Request Body Content")).
  - cbn. lia.
  - reflexivity.
  - reflexivity.
Defined.

End Runs.

(** * Further properties *)

(** ** Backoff strategies *)

Section BackoffMore.

Import Int64.

Lemma wrap_parity z : (wrap z) mod 2 = z mod 2.
Proof.
  unfold wrap.
  assert (D64 : (2 | 2 ^ 64)) by (exists (2 ^ 63); reflexivity).
  assert (E : ((z + 2 ^ 63) mod 2 ^ 64) mod 2 = (z + 2 ^ 63) mod 2).
  { apply Z.mod_mod_divide. exact D64. }
  replace ((z + 2 ^ 63) mod 2 ^ 64 - 2 ^ 63)
    with ((z + 2 ^ 63) mod 2 ^ 64 + (- 2 ^ 62) * 2) by lia.
  rewrite Z.mod_add by lia. rewrite E.
  replace (z + 2 ^ 63) with (z + 2 ^ 62 * 2) by lia.
  apply Z.mod_add. lia.
Qed.

Lemma shl_one_even n : 0 < n -> (shl 1 n) mod 2 = 0.
Proof.
  intros H. unfold shl. destruct (64 <=? n); [reflexivity|].
  rewrite wrap_parity, Z.shiftl_1_l.
  replace n with (1 + (n - 1)) by lia.
  rewrite Z.pow_add_r by lia. rewrite Z.mul_comm. apply Z.mod_mul. lia.
Qed.

(** From the second attempt on the computed delay is even, overflow or
    not. *)
Lemma exponentialDelay_even base attempt :
  in_range attempt -> attempt <> 0 ->
  (exponentialDelay base attempt) mod 2 = 0.
Proof.
  intros Hr Hn. unfold exponentialDelay, mul. rewrite wrap_parity.
  assert (U : 0 < to_uint attempt).
  { unfold to_uint, in_range, min_int, max_int in *.
    pose proof (Z.mod_pos_bound attempt (2 ^ 64) ltac:(lia)) as B.
    destruct (Z.eq_dec (attempt mod 2 ^ 64) 0) as [E|E]; [|lia].
    exfalso. apply Z.mod_divide in E; [|lia]. destruct E as [k E].
    assert (k = 0) by nia. subst k. lia. }
  pose proof (shl_one_even (to_uint attempt) U) as E.
  rewrite <- Z.mul_mod_idemp_r by lia. rewrite E, Z.mul_0_r. reflexivity.
Qed.

Lemma exponentialDelay_first base : in_range base -> exponentialDelay base 0 = base.
Proof.
  intros H. unfold exponentialDelay, mul. cbn. rewrite Z.mul_1_r.
  apply Int64Facts.wrap_small. exact H.
Qed.

Lemma ExponentialBackoff_in_range base maxDelay attempt rng d rng' :
  in_range base -> in_range maxDelay ->
  ExponentialBackoff base maxDelay attempt rng = (Some d, rng') ->
  in_range d.
Proof.
  intros Hb Hm. unfold ExponentialBackoff.
  destruct ((attempt =? 0) && (base >? maxDelay)).
  - intros H. inversion H. subst. exact Hb.
  - cbv zeta.
    destruct ((exponentialDelay base attempt >? maxDelay)
              || (exponentialDelay base attempt <=? 0));
      intros H; inversion H; subst; [exact Hm|].
    unfold exponentialDelay, mul. apply Int64Facts.wrap_in_range.
Qed.

(** With a base and a cap of two nanoseconds or more the exponential value
    is two or more, at every attempt and whatever overflows. *)
Lemma ExponentialBackoff_at_least_two base maxDelay attempt rng d rng' :
  in_range base -> in_range attempt ->
  2 <= base -> 2 <= maxDelay ->
  ExponentialBackoff base maxDelay attempt rng = (Some d, rng') ->
  2 <= d.
Proof.
  intros Hb Ha H2b H2m. unfold ExponentialBackoff.
  destruct ((attempt =? 0) && (base >? maxDelay)).
  - intros H. inversion H. subst. exact H2b.
  - cbv zeta.
    destruct (exponentialDelay base attempt >? maxDelay) eqn:G; cbn [orb].
    + intros H. inversion H. subst. exact H2m.
    + destruct (exponentialDelay base attempt <=? 0) eqn:L.
      * intros H. inversion H. subst. exact H2m.
      * intros H. inversion H. subst d rng'. apply Z.leb_gt in L.
        destruct (Z.eq_dec attempt 0) as [E|E].
        -- subst attempt. rewrite exponentialDelay_first by exact Hb. exact H2b.
        -- pose proof (exponentialDelay_even base attempt Ha E) as P.
           apply Z.mod_divide in P; [|lia]. destruct P as [k P]. lia.
Qed.

(** The cap is kept at every attempt but the first of a base above the cap,
    and with a positive cap the delay is positive: overflow can lower a
    delay, never push it past the cap or below zero. *)
Theorem ExponentialBackoff_positive_and_capped base maxDelay attempt rng :
  0 < maxDelay ->
  exists d,
    ExponentialBackoff base maxDelay attempt rng = (Some d, rng)
    /\ 0 < d <= Z.max base maxDelay
    /\ (~ (attempt = 0 /\ base > maxDelay) -> d <= maxDelay).
Proof.
  intros Hm. unfold ExponentialBackoff.
  destruct ((attempt =? 0) && (base >? maxDelay)) eqn:C.
  - apply andb_true_iff in C. destruct C as [C1 C2].
    apply Z.eqb_eq in C1. apply Z.gtb_lt in C2.
    exists base. split; [reflexivity|]. split; [lia|].
    intros N. exfalso. apply N. lia.
  - cbv zeta.
    destruct (exponentialDelay base attempt >? maxDelay) eqn:G; cbn [orb].
    + exists maxDelay. split; [reflexivity|]. lia.
    + destruct (exponentialDelay base attempt <=? 0) eqn:L.
      * exists maxDelay. split; [reflexivity|]. lia.
      * apply Z.leb_gt in L.
        assert (exponentialDelay base attempt <= maxDelay)
          by (destruct (Z.gtb_spec (exponentialDelay base attempt) maxDelay);
              [discriminate|lia]).
        exists (exponentialDelay base attempt). split; [reflexivity|]. lia.
Qed.

Lemma ExponentialBackoff_positive_and_capped_witness :
  0 < 2 ^ 33
  /\ exists d,
       ExponentialBackoff (2 ^ 32 + 1) (2 ^ 33) 32 [] = (Some d, [])
       /\ 0 < d <= Z.max (2 ^ 32 + 1) (2 ^ 33)
       /\ (~ (32 = 0 /\ 2 ^ 32 + 1 > 2 ^ 33) -> d <= 2 ^ 33).
Proof.
  split; [lia|].
  apply (ExponentialBackoff_positive_and_capped (2 ^ 32 + 1) (2 ^ 33) 32 []).
  lia.
Defined.

(** Where the product does not overflow, the delay is [base * 2^attempt]
    capped at [maxDelay]. *)
Theorem ExponentialBackoff_is_capped_product base maxDelay attempt rng :
  0 <= attempt < 63 ->
  0 < base ->
  base * 2 ^ attempt <= max_int ->
  ~ (attempt = 0 /\ base > maxDelay) ->
  ExponentialBackoff base maxDelay attempt rng
  = (Some (Z.min (base * 2 ^ attempt) maxDelay), rng).
Proof. apply ExponentialBackoff_exact. Qed.

Lemma ExponentialBackoff_is_capped_product_witness :
  0 <= 4 < 63
  /\ 0 < 100 * Millisecond
  /\ ExponentialBackoff (100 * Millisecond) Second 4 [] = (Some Second, []).
Proof.
  split; [lia|]. split; [unfold Millisecond; lia|].
  apply (ExponentialBackoff_is_capped_product (100 * Millisecond) Second 4 []).
  - lia.
  - unfold Millisecond. lia.
  - unfold Millisecond, max_int. lia.
  - unfold Millisecond, Second. lia.
Defined.

(** With a base that is positive and not above the cap, and while the
    product does not overflow, the delay is at least the base, never
    shrinks from one attempt to the next, and stays within the cap. *)
Theorem ExponentialBackoff_grows base maxDelay attempt rng :
  0 <= attempt -> attempt + 1 < 63 ->
  0 < base <= maxDelay ->
  base * 2 ^ (attempt + 1) <= max_int ->
  exists d1 d2,
    ExponentialBackoff base maxDelay attempt rng = (Some d1, rng)
    /\ ExponentialBackoff base maxDelay (attempt + 1) rng = (Some d2, rng)
    /\ base <= d1 <= d2 /\ d2 <= maxDelay.
Proof.
  intros Ha Hs Hb Hm.
  assert (P : 0 < 2 ^ attempt) by (apply Z.pow_pos_nonneg; lia).
  assert (S2 : 2 ^ (attempt + 1) = 2 * 2 ^ attempt)
    by (rewrite Z.pow_add_r by lia; lia).
  exists (Z.min (base * 2 ^ attempt) maxDelay),
         (Z.min (base * 2 ^ (attempt + 1)) maxDelay).
  split; [|split].
  - apply ExponentialBackoff_exact; [lia|lia|nia|lia].
  - apply ExponentialBackoff_exact; [lia|lia|lia|lia].
  - rewrite S2.
    assert (B1 : base <= base * 2 ^ attempt) by nia.
    assert (B2 : base * 2 ^ attempt <= base * (2 * 2 ^ attempt)) by nia.
    lia.
Qed.

Lemma ExponentialBackoff_grows_witness :
  0 <= 3
  /\ 0 < 100 * Millisecond <= Second
  /\ exists d1 d2,
       ExponentialBackoff (100 * Millisecond) Second 3 [] = (Some d1, [])
       /\ ExponentialBackoff (100 * Millisecond) Second (3 + 1) [] = (Some d2, [])
       /\ 100 * Millisecond <= d1 <= d2 /\ d2 <= Second.
Proof.
  split; [lia|]. split; [unfold Millisecond, Second; lia|].
  apply (ExponentialBackoff_grows (100 * Millisecond) Second 3 []).
  - lia.
  - lia.
  - unfold Millisecond, Second. lia.
  - unfold Millisecond, max_int. lia.
Defined.

End BackoffMore.

Section JitterMore.

Import Int64.

Lemma quo_two_nonpositive_iff e : in_range e -> (quo e 2 <= 0 <-> e <= 1).
Proof.
  intros He. unfold in_range, min_int, max_int in He.
  pose proof (Z.quot_rem' e 2) as D.
  assert (R : - 2 < Z.rem e 2 < 2).
  { pose proof (Z.rem_bound_abs e 2 ltac:(lia)). lia. }
  assert (S : Z.sgn (Z.rem e 2) = Z.sgn e \/ Z.rem e 2 = 0).
  { destruct (Z.eq_dec (Z.rem e 2) 0) as [E|E]; [right; exact E|left].
    apply Z.rem_sign_nz; [lia|exact E]. }
  unfold quo. rewrite Int64Facts.wrap_small
    by (unfold in_range, min_int, max_int; lia).
  lia.
Qed.

(** [JitterBackoff] panics exactly when the exponential value is below two
    nanoseconds: the bound it hands to [rand.Int63n] is then not positive. *)
Theorem JitterBackoff_panics_iff base maxDelay attempt rng :
  in_range base -> in_range maxDelay ->
  fst (JitterBackoff base maxDelay attempt rng) = None
  <-> exists e,
        ExponentialBackoff base maxDelay attempt rng = (Some e, rng) /\ e <= 1.
Proof.
  intros Hb Hm.
  destruct (ExponentialBackoff_total base maxDelay attempt rng) as [e He].
  pose proof (ExponentialBackoff_in_range _ _ _ _ _ _ Hb Hm He) as Hr.
  pose proof (quo_two_nonpositive_iff e Hr) as Q.
  unfold JitterBackoff. rewrite He. unfold rand_Int63n.
  destruct (quo e 2 <=? 0) eqn:L.
  - apply Z.leb_le in L. cbn [fst]. split; [|reflexivity].
    intros _. exists e. split; [reflexivity|]. apply Q. exact L.
  - apply Z.leb_gt in L. split.
    + destruct rng; cbn [fst]; discriminate.
    + intros [e' [E Hle]]. inversion E. subst e'. lia.
Qed.

Lemma JitterBackoff_panics_iff_witness :
  in_range 0
  /\ (fst (JitterBackoff 0 0 0 []) = None
      <-> exists e, ExponentialBackoff 0 0 0 [] = (Some e, []) /\ e <= 1).
Proof.
  assert (R : in_range 0) by (unfold in_range, min_int, max_int; lia).
  split; [exact R|].
  apply (JitterBackoff_panics_iff 0 0 0 [] R R).
Defined.

(** With an exponential value of two nanoseconds or more, and a sum that
    fits 64 bits, the jittered delay is at least the exponential value and
    less than one and a half times it. *)
Theorem JitterBackoff_within_half base maxDelay attempt rng e :
  ExponentialBackoff base maxDelay attempt rng = (Some e, rng) ->
  2 <= e ->
  e + e / 2 <= max_int + 1 ->
  exists d rng',
    JitterBackoff base maxDelay attempt rng = (Some d, rng')
    /\ e <= d < e + e / 2
    /\ 2 * d < 3 * e.
Proof.
  intros He H2 Hs.
  destruct (JitterBackoff_range base maxDelay attempt rng e He H2 Hs)
    as [d [rng' [E B]]].
  exists d, rng'. split; [exact E|]. split; [exact B|].
  assert (2 * (e / 2) <= e) by (apply Z.mul_div_le; lia). lia.
Qed.

Lemma JitterBackoff_within_half_witness :
  ExponentialBackoff (100 * Millisecond) Second 1 [123456789123]
  = (Some (200 * Millisecond), [123456789123])
  /\ exists d rng',
       JitterBackoff (100 * Millisecond) Second 1 [123456789123]
       = (Some d, rng')
       /\ 200 * Millisecond <= d < 200 * Millisecond + 200 * Millisecond / 2
       /\ 2 * d < 3 * (200 * Millisecond).
Proof.
  split; [reflexivity|].
  apply (JitterBackoff_within_half (100 * Millisecond) Second 1
           [123456789123] (200 * Millisecond)).
  - reflexivity.
  - unfold Millisecond. lia.
  - vm_compute. discriminate.
Defined.

Lemma jitter_total_from_two base maxDelay attempt rng :
  in_range base -> in_range maxDelay -> in_range attempt ->
  2 <= base -> 2 <= maxDelay ->
  exists e d rng',
    ExponentialBackoff base maxDelay attempt rng = (Some e, rng)
    /\ 2 <= e
    /\ JitterBackoff base maxDelay attempt rng = (Some d, rng')
    /\ (e + e / 2 <= max_int + 1 -> e <= d < e + e / 2).
Proof.
  intros Hb Hm Ha H2b H2m.
  destruct (ExponentialBackoff_total base maxDelay attempt rng) as [e He].
  pose proof (ExponentialBackoff_at_least_two _ _ _ _ _ _ Hb Ha H2b H2m He) as H2.
  pose proof (ExponentialBackoff_in_range _ _ _ _ _ _ Hb Hm He) as Hr.
  assert (Q : 0 < quo e 2).
  { pose proof (quo_two_nonpositive_iff e Hr) as Q.
    destruct (Z_le_gt_dec (quo e 2) 0) as [L|G]; [|lia].
    apply Q in L. lia. }
  assert (T : exists d rng',
             JitterBackoff base maxDelay attempt rng = (Some d, rng')).
  { unfold JitterBackoff. rewrite He. unfold rand_Int63n.
    replace (quo e 2 <=? 0) with false by (symmetry; apply Z.leb_gt; exact Q).
    destruct rng; eauto. }
  destruct T as [d [rng' T]].
  exists e, d, rng'. split; [exact He|]. split; [exact H2|].
  split; [exact T|]. intros Hs.
  destruct (JitterBackoff_range base maxDelay attempt rng e He H2 Hs)
    as [d' [rng'' [E B]]].
  rewrite T in E. inversion E. subst. exact B.
Qed.

(** A base and a cap of two nanoseconds or more keep [JitterBackoff] from
    panicking at every attempt, also where the product overflows; where the
    sum fits 64 bits the result is within the jitter range. *)
Theorem JitterBackoff_total_from_two base maxDelay attempt rng :
  in_range base -> in_range maxDelay -> in_range attempt ->
  2 <= base -> 2 <= maxDelay ->
  exists e d rng',
    ExponentialBackoff base maxDelay attempt rng = (Some e, rng)
    /\ 2 <= e
    /\ JitterBackoff base maxDelay attempt rng = (Some d, rng')
    /\ (e + e / 2 <= max_int + 1 -> e <= d < e + e / 2).
Proof. apply jitter_total_from_two. Qed.

Lemma JitterBackoff_total_from_two_witness :
  in_range (2 ^ 32 + 1) /\ in_range (2 ^ 33) /\ in_range 32
  /\ exists e d rng',
       ExponentialBackoff (2 ^ 32 + 1) (2 ^ 33) 32 [7] = (Some e, [7])
       /\ 2 <= e
       /\ JitterBackoff (2 ^ 32 + 1) (2 ^ 33) 32 [7] = (Some d, rng')
       /\ (e + e / 2 <= max_int + 1 -> e <= d < e + e / 2).
Proof.
  assert (R1 : in_range (2 ^ 32 + 1)) by (unfold in_range, min_int, max_int; lia).
  assert (R2 : in_range (2 ^ 33)) by (unfold in_range, min_int, max_int; lia).
  assert (R3 : in_range 32) by (unfold in_range, min_int, max_int; lia).
  split; [exact R1|]. split; [exact R2|]. split; [exact R3|].
  apply (JitterBackoff_total_from_two (2 ^ 32 + 1) (2 ^ 33) 32 [7] R1 R2 R3);
    lia.
Defined.

End JitterMore.

(** ** More on the retry loop *)

Section LoopMore.

Context {World : Type}.
Variable transport : RoundTripper World.
Variable retryStrategy : RetryStrategy.
Variable r : retryTransport World.

Local Abbreviation loop'' := (loop transport retryStrategy r).
Local Abbreviation iteration'' := (iteration transport retryStrategy r).

(** *** What a pass returns *)

Lemma retryOrFail_Return attempt req resp err (s : State World) q o s1 :
  retryOrFail retryStrategy r attempt req resp err s = Ok (Return q o) s1 ->
  exists e, o = (None, Some e).
Proof.
  unfold retryOrFail, bind, call_strategy, logRetry, logFailure, log,
    time_Sleep, ret.
  destruct (attempt <? rt_MaxRetries r).
  - destruct (retryStrategy attempt (rng s)) as [[d|] g]; [|discriminate].
    destruct err, resp, (rt_logger r); discriminate.
  - destruct err, resp, (rt_logger r); intros H; inversion H; eauto.
Qed.

Lemma afterFailure_Return attempt req resp err (s : State World) q o s1 :
  afterFailure retryStrategy r attempt req resp err s = Ok (Return q o) s1 ->
  exists e, o = (None, Some e).
Proof.
  unfold afterFailure, bind.
  destruct (discardBody resp s) as [[e|] s2|s2]; [| |discriminate].
  - unfold ret. intros H. inversion H. eauto.
  - apply retryOrFail_Return.
Qed.

Lemma iteration_Return attempt req (s : State World) q o s1 :
  iteration'' attempt req s = Ok (Return q o) s1 -> response_xor_error o.
Proof.
  unfold iteration, bind.
  destruct (cloneBody req s) as [[req1|e] s2|s2]; [| |discriminate].
  - unfold attemptOnce, bind, call_RoundTrip.
    destruct (transport req1 (world s2)) as [[resp [e|]] w].
    + intros H. apply afterFailure_Return in H. destruct H as [x H].
      subst o. exact I.
    + destruct resp as [rp|]; [|discriminate].
      destruct (StatusCode rp <? StatusInternalServerError) eqn:L.
      * unfold ret. intros H. inversion H. cbn. apply Z.ltb_lt. exact L.
      * intros H. apply afterFailure_Return in H. destruct H as [x H].
        subst o. exact I.
  - unfold ret. intros H. inversion H. exact I.
Qed.

Lemma loop_response_xor_error attempt req (s : State World) q o s1 :
  loop'' attempt req s = Ok (q, o) s1 -> response_xor_error o.
Proof.
  revert q o s1.
  apply (loop_induction transport retryStrategy r
           (fun attempt req s res =>
              forall q o s1, res = Ok (q, o) s1 -> response_xor_error o));
    clear attempt req s.
  - intros attempt req s _ q o s1 H. inversion H. exact I.
  - intros attempt req s req1 out s1 _ It q o s2 H. inversion H. subst.
    apply (iteration_Return _ _ _ _ _ _ It).
  - intros attempt req s req1 s1 _ _ IH q o s2 H. apply (IH _ _ _ H).
  - intros attempt req s s1 _ _ q o s2 H. discriminate.
Qed.

(** *** The backoffs of a run *)

Lemma sleeps_app a b : sleeps (a ++ b) = sleeps a ++ sleeps b.
Proof.
  induction a as [|e a IH]; [reflexivity|].
  destruct e; cbn; rewrite IH; reflexivity.
Qed.

Lemma total_sleep_app a b :
  total_sleep (a ++ b) = total_sleep a + total_sleep b.
Proof. induction a as [|d a IH]; cbn; [reflexivity|rewrite IH; lia]. Qed.

Lemma delays_S f a n : delays f a (S n) = f a :: delays f (a + 1) n.
Proof.
  unfold delays. cbn [seq map]. rewrite Z.add_0_r. f_equal.
  rewrite <- seq_shift, map_map. apply map_ext. intros i. f_equal. lia.
Qed.

(** [slept ds s s']: from [s] to [s'] the backoffs were [ds], and the clock
    moved by as much. *)
Lemma cloneBody_no_sleep req (s : State World) :
  let s' := final_state (cloneBody req s) in
  clock s' = clock s /\ sleeps (trace s') = sleeps (trace s).
Proof.
  unfold cloneBody.
  destruct (Body req) as [b|]; [|split; reflexivity].
  destruct (GetBody req) as [g|]; [|split; reflexivity].
  unfold bind, call_GetBody, ret.
  destruct (g (world s)) as [[bc [e|]] w]; cbn;
    rewrite sleeps_app; cbn; rewrite app_nil_r; split; reflexivity.
Qed.

Lemma discardBody_no_sleep resp (s : State World) :
  let s' := final_state (discardBody resp s) in
  clock s' = clock s /\ sleeps (trace s') = sleeps (trace s).
Proof.
  unfold discardBody. destruct resp as [rp|]; [|split; reflexivity].
  destruct (resp_Body rp) as [body|]; [|split; reflexivity].
  unfold bind, io_Copy_Discard, Close, ret.
  destruct (readErr body), (closeErr body); cbn;
    rewrite !sleeps_app; cbn; rewrite !app_nil_r; split; reflexivity.
Qed.

Lemma retryOrFail_schedule f attempt req resp err (s : State World) :
  (forall a g, retryStrategy a g = (Some (f a), g)) ->
  let s' := final_state (retryOrFail retryStrategy r attempt req resp err s) in
  let ds := if attempt <? rt_MaxRetries r then [f attempt] else [] in
  clock s' = clock s + total_sleep ds
  /\ sleeps (trace s') = sleeps (trace s) ++ ds.
Proof.
  intros Hs. unfold retryOrFail.
  destruct (attempt <? rt_MaxRetries r).
  - unfold bind, call_strategy. rewrite Hs.
    unfold logRetry, log, time_Sleep, ret.
    destruct err, resp, (rt_logger r); cbn;
      rewrite ?sleeps_app; cbn; rewrite ?app_nil_r; split; lia || reflexivity.
  - unfold bind, logFailure, log, ret.
    destruct err, resp, (rt_logger r); cbn;
      rewrite ?sleeps_app; cbn; rewrite ?app_nil_r; split; lia || reflexivity.
Qed.

Lemma iteration_schedule f attempt req (s : State World) :
  (forall a g, retryStrategy a g = (Some (f a), g)) ->
  (forall q w, retryable (fst (transport q w))
               /\ discards_cleanly (fst (fst (transport q w)))) ->
  (forall g w, GetBody req = Some g -> snd (fst (g w)) = None) ->
  let s' := final_state (iteration'' attempt req s) in
  let ds := if attempt <? rt_MaxRetries r then [f attempt] else [] in
  clock s' = clock s + total_sleep ds
  /\ sleeps (trace s') = sleeps (trace s) ++ ds.
Proof.
  intros Hs Ht Hg. cbv zeta.
  destruct (cloneBody_ok req s Hg) as [req1 [s1 Hc]].
  pose proof (cloneBody_no_sleep req s) as C. rewrite Hc in C.
  cbn [final_state] in C. destruct C as [C1 C2].
  unfold iteration. rewrite final_state_bind, Hc.
  destruct (transport req1 (world s1)) as [[resp err] w] eqn:Hcall.
  destruct (Ht req1 (world s1)) as [Hretry Hclean].
  rewrite Hcall in Hretry, Hclean. cbn [fst] in Hretry, Hclean.
  rewrite (attemptOnce_retryable transport retryStrategy r
             attempt req1 s1 resp err w Hcall Hretry).
  set (s2 := emit (EvRoundTrip (Body req1)) (set_world w s1)).
  assert (B : clock s2 = clock s /\ sleeps (trace s2) = sleeps (trace s)).
  { unfold s2. cbn. rewrite sleeps_app. cbn. rewrite app_nil_r.
    split; assumption. }
  destruct B as [B1 B2].
  unfold afterFailure. rewrite final_state_bind.
  destruct (discardBody_clean resp s2 Hclean) as [s3 Hd].
  pose proof (discardBody_no_sleep resp s2) as E. rewrite Hd in E |- *.
  cbn [final_state] in E. destruct E as [E1 E2].
  destruct (retryOrFail_schedule f attempt req1 resp err s3 Hs) as [F1 F2].
  rewrite F1, F2, E1, E2, B1, B2. split; reflexivity.
Qed.

Lemma loop_schedule f attempt req (s : State World) :
  (forall a g, retryStrategy a g = (Some (f a), g)) ->
  (forall q w, retryable (fst (transport q w))
               /\ discards_cleanly (fst (fst (transport q w)))) ->
  (forall g w, GetBody req = Some g -> snd (fst (g w)) = None) ->
  let s' := final_state (loop'' attempt req s) in
  let ds := delays f attempt (Z.to_nat (rt_MaxRetries r - attempt)) in
  clock s' = clock s + total_sleep ds
  /\ sleeps (trace s') = sleeps (trace s) ++ ds.
Proof.
  intros Hs Ht. cbv zeta.
  assert (Hs' : forall a g, exists d g', retryStrategy a g = (Some d, g'))
    by (intros a g; exists (f a), g; apply Hs).
  apply (loop_induction transport retryStrategy r
           (fun attempt req s res =>
              (forall g w, GetBody req = Some g -> snd (fst (g w)) = None) ->
              clock (final_state res)
              = clock s
                + total_sleep
                    (delays f attempt (Z.to_nat (rt_MaxRetries r - attempt)))
              /\ sleeps (trace (final_state res))
                 = sleeps (trace s)
                   ++ delays f attempt (Z.to_nat (rt_MaxRetries r - attempt))));
    clear attempt req s.
  - intros attempt req s H _.
    replace (Z.to_nat (rt_MaxRetries r - attempt)) with 0%nat by lia.
    cbn. rewrite app_nil_r. split; [lia|reflexivity].
  - intros attempt req s req1 out s1 H It Hg.
    destruct (iteration_always_retryable transport retryStrategy r
                attempt req s Hs' Ht Hg) as [q [x [s2 [_ [_ E]]]]].
    pose proof (iteration_schedule f attempt req s Hs Ht Hg) as [K1 K2].
    rewrite It in E, K1, K2.
    destruct (attempt <? rt_MaxRetries r) eqn:L; [discriminate|].
    apply Z.ltb_ge in L.
    replace (Z.to_nat (rt_MaxRetries r - attempt)) with 0%nat by lia.
    exact (conj K1 K2).
  - intros attempt req s req1 s1 H It IH Hg.
    destruct (iteration_always_retryable transport retryStrategy r
                attempt req s Hs' Ht Hg) as [q [x [s2 [Hsame [_ E]]]]].
    pose proof (iteration_schedule f attempt req s Hs Ht Hg) as [K1 K2].
    rewrite It in E, K1, K2.
    destruct (attempt <? rt_MaxRetries r) eqn:L; [|discriminate].
    apply Z.ltb_lt in L. inversion E. subst q s2.
    destruct IH as [I1 I2].
    { destruct Hsame as (_ & _ & _ & HG & _). rewrite HG. exact Hg. }
    replace (Z.to_nat (rt_MaxRetries r - attempt))
      with (S (Z.to_nat (rt_MaxRetries r - (attempt + 1)))) by lia.
    rewrite delays_S. cbn [final_state] in K1, K2.
    rewrite I1, I2, K1, K2. cbn [total_sleep].
    rewrite <- app_assoc. split; [lia|reflexivity].
  - intros attempt req s s1 H It Hg.
    destruct (iteration_always_retryable transport retryStrategy r
                attempt req s Hs' Ht Hg) as [q [x [s2 [_ [_ E]]]]].
    rewrite It in E. destruct (attempt <? rt_MaxRetries r); discriminate.
Qed.

(** *** Runs without a logger *)

Lemma without_logs_app a b :
  without_logs (a ++ b) = without_logs a ++ without_logs b.
Proof. apply filter_app. Qed.

Ltac stripped :=
  unfold res_strip_logs, strip_logs, emit, set_world, set_rng, advance;
  cbn; rewrite ?without_logs_app; cbn; rewrite ?app_nil_r; reflexivity.

Lemma cloneBody_strip req (s : State World) :
  cloneBody req (strip_logs s) = res_strip_logs (cloneBody req s).
Proof.
  unfold cloneBody.
  destruct (Body req) as [b|]; [|reflexivity].
  destruct (GetBody req) as [g|]; [|reflexivity].
  unfold bind, call_GetBody, ret. cbn [world strip_logs].
  destruct (g (world s)) as [[bc [e|]] w]; stripped.
Qed.

Lemma discardBody_strip resp (s : State World) :
  discardBody resp (strip_logs s) = res_strip_logs (discardBody resp s).
Proof.
  unfold discardBody. destruct resp as [rp|]; [|reflexivity].
  destruct (resp_Body rp) as [body|]; [|reflexivity].
  unfold bind, io_Copy_Discard, Close, ret.
  destruct (readErr body), (closeErr body); stripped.
Qed.

Lemma retryOrFail_strip attempt req resp err (s : State World) :
  retryOrFail retryStrategy (silenced r) attempt req resp err (strip_logs s)
  = res_strip_logs (retryOrFail retryStrategy r attempt req resp err s).
Proof.
  unfold retryOrFail. cbn [rt_MaxRetries silenced].
  destruct (attempt <? rt_MaxRetries r).
  - unfold bind, call_strategy. cbn [rng strip_logs].
    destruct (retryStrategy attempt (rng s)) as [[d|] g]; [|stripped].
    unfold logRetry, log, time_Sleep, ret. cbn [rt_logger silenced].
    destruct err, resp, (rt_logger r); stripped.
  - unfold bind, logFailure, log, ret. cbn [rt_logger silenced].
    destruct err, resp, (rt_logger r); stripped.
Qed.

Lemma afterFailure_strip attempt req resp err (s : State World) :
  afterFailure retryStrategy (silenced r) attempt req resp err (strip_logs s)
  = res_strip_logs (afterFailure retryStrategy r attempt req resp err s).
Proof.
  unfold afterFailure, bind. rewrite discardBody_strip.
  destruct (discardBody resp s) as [[e|] s1|s1]; cbn [res_strip_logs];
    [reflexivity| |reflexivity].
  apply retryOrFail_strip.
Qed.

Lemma attemptOnce_strip attempt req (s : State World) :
  attemptOnce transport retryStrategy (silenced r) attempt req (strip_logs s)
  = res_strip_logs (attemptOnce transport retryStrategy r attempt req s).
Proof.
  unfold attemptOnce, bind, call_RoundTrip. cbn [world strip_logs].
  destruct (transport req (world s)) as [[resp err] w].
  assert (E : emit (EvRoundTrip (Body req)) (set_world w (strip_logs s))
              = strip_logs (emit (EvRoundTrip (Body req)) (set_world w s)))
    by stripped.
  rewrite E.
  destruct err as [e|]; [apply afterFailure_strip|].
  destruct resp as [rp|]; [|reflexivity].
  destruct (StatusCode rp <? StatusInternalServerError); [reflexivity|].
  apply afterFailure_strip.
Qed.

Lemma iteration_strip attempt req (s : State World) :
  iteration transport retryStrategy (silenced r) attempt req (strip_logs s)
  = res_strip_logs (iteration'' attempt req s).
Proof.
  unfold iteration, bind. rewrite cloneBody_strip.
  destruct (cloneBody req s) as [[req1|e] s1|s1]; cbn [res_strip_logs];
    [|reflexivity|reflexivity].
  apply attemptOnce_strip.
Qed.

Lemma loop_strip attempt req (s : State World) :
  loop transport retryStrategy (silenced r) attempt req (strip_logs s)
  = res_strip_logs (loop'' attempt req s).
Proof.
  apply (loop_induction transport retryStrategy r
           (fun attempt req s res =>
              loop transport retryStrategy (silenced r) attempt req (strip_logs s)
              = res_strip_logs res));
    clear attempt req s.
  - intros attempt req s H. rewrite loop_pass. cbn [rt_MaxRetries silenced].
    replace (attempt <=? rt_MaxRetries r) with false
      by (symmetry; apply Z.leb_gt; exact H).
    reflexivity.
  - intros attempt req s req1 out s1 H It. rewrite loop_pass.
    cbn [rt_MaxRetries silenced].
    replace (attempt <=? rt_MaxRetries r) with true
      by (symmetry; apply Z.leb_le; exact H).
    rewrite iteration_strip, It. reflexivity.
  - intros attempt req s req1 s1 H It IH. rewrite loop_pass.
    cbn [rt_MaxRetries silenced].
    replace (attempt <=? rt_MaxRetries r) with true
      by (symmetry; apply Z.leb_le; exact H).
    rewrite iteration_strip, It. cbn [res_strip_logs]. exact IH.
  - intros attempt req s s1 H It. rewrite loop_pass.
    cbn [rt_MaxRetries silenced].
    replace (attempt <=? rt_MaxRetries r) with true
      by (symmetry; apply Z.leb_le; exact H).
    rewrite iteration_strip, It. reflexivity.
Qed.

End LoopMore.

(** ** More on RoundTrip and its constructor *)

Section RoundTripMore.

Context {World : Type}.
Variable DefaultTransport : RoundTripper World.

(** A negative retry ceiling makes no attempt at all: [RoundTrip] returns
    ErrAllRetriesFailed at once, without regenerating the body, calling the
    transport, logging or sleeping. *)
Theorem RoundTrip_negative_ceiling
    (r : retryTransport World) req (s : State World) :
  rt_MaxRetries r < 0 ->
  RoundTrip DefaultTransport r req s
  = Ok (req, (None, Some ErrAllRetriesFailed)) s.
Proof.
  intros H. unfold RoundTrip. rewrite loop_pass.
  replace (0 <=? rt_MaxRetries r) with false
    by (symmetry; apply Z.leb_gt; exact H).
  reflexivity.
Qed.

(** Whatever [RoundTrip] returns is a response with a status below 500 and
    no error, or no response and an error; never both, never neither. *)
Theorem RoundTrip_response_xor_error
    (r : retryTransport World) req (s : State World) req' o s' :
  RoundTrip DefaultTransport r req s = Ok (req', o) s' ->
  response_xor_error o.
Proof. unfold RoundTrip. apply loop_response_xor_error. Qed.

(** A request every attempt of which fails in a retryable way sleeps once
    after each attempt but the last: the k-th backoff is the delay of the
    strategy for the attempt index k, counted from 0, there are
    [MaxRetries] of them, and the time slept is their sum. *)
Theorem RoundTrip_backoff_schedule
    (r : retryTransport World) f req (s : State World) :
  0 <= rt_MaxRetries r ->
  (forall a g, strategyOf r a g = (Some (f a), g)) ->
  (forall q w,
      retryable (fst (transportOf DefaultTransport r q w))
      /\ discards_cleanly (fst (fst (transportOf DefaultTransport r q w)))) ->
  (forall g w, GetBody req = Some g -> snd (fst (g w)) = None) ->
  let s' := final_state (RoundTrip DefaultTransport r req s) in
  let ds := delays f 0 (Z.to_nat (rt_MaxRetries r)) in
  sleeps (trace s') = sleeps (trace s) ++ ds
  /\ List.length ds = Z.to_nat (rt_MaxRetries r)
  /\ clock s' = clock s + total_sleep ds.
Proof.
  intros Hm Hs Ht Hg. cbv zeta. unfold RoundTrip.
  destruct (loop_schedule (transportOf DefaultTransport r) (strategyOf r) r
              f 0 req s Hs Ht Hg) as [K1 K2].
  rewrite Z.sub_0_r in K1, K2.
  split; [exact K2|]. split; [|exact K1].
  unfold delays. rewrite length_map, length_seq. reflexivity.
Qed.

(** Logging is additive: without the logger [RoundTrip] returns the same
    response or error and leaves the same request, world, random source and
    clock; its trace is the trace of the run with the logger, less the log
    events. *)
Theorem RoundTrip_logging_is_additive
    (r : retryTransport World) req (s : State World) :
  RoundTrip DefaultTransport (silenced r) req (strip_logs s)
  = res_strip_logs (RoundTrip DefaultTransport r req s).
Proof. unfold RoundTrip. apply loop_strip. Qed.

(** Options apply in order, so the last one wins; a nil transport or a nil
    strategy given last falls back to the default transport and to
    [ExponentialBackoff(DefaultBaseDelay, DefaultMaxDelay)]; and the ceiling
    is taken as given, unchecked. *)
Theorem NewHTTPRetryClient_last_option_wins opts n :
  rt_MaxRetries
    (NewHTTPRetryClient DefaultTransport (opts ++ [WithMaxRetriesRetry n])) = n
  /\ transportOf DefaultTransport
       (NewHTTPRetryClient DefaultTransport (opts ++ [WithBaseTransport None]))
     = DefaultTransport
  /\ strategyOf
       (NewHTTPRetryClient DefaultTransport
          (opts ++ [WithRetryStrategyRetry None]))
     = ExponentialBackoff DefaultBaseDelay DefaultMaxDelay.
Proof.
  unfold NewHTTPRetryClient, transportOf, strategyOf.
  rewrite !fold_left_app. cbn. repeat split.
Qed.

(** A client made with a negative ceiling fails every request at once with
    ErrAllRetriesFailed and never calls its transport. *)
Theorem NewHTTPRetryClient_negative_ceiling opts n req (s : State World) :
  n < 0 ->
  RoundTrip DefaultTransport
    (NewHTTPRetryClient DefaultTransport (opts ++ [WithMaxRetriesRetry n]))
    req s
  = Ok (req, (None, Some ErrAllRetriesFailed)) s.
Proof.
  intros H. unfold RoundTrip. rewrite loop_pass.
  replace (rt_MaxRetries
             (NewHTTPRetryClient DefaultTransport
                (opts ++ [WithMaxRetriesRetry n]))) with n
    by (unfold NewHTTPRetryClient; rewrite fold_left_app; reflexivity).
  replace (0 <=? n) with false by (symmetry; apply Z.leb_gt; exact H).
  reflexivity.
Qed.

End RoundTripMore.

(** ** The client builder *)

Module ClientBuilderFacts.

Import ClientBuilder.

Lemma fst_andThen (f g : Check) c : fst (andThen f g c) = fst (g (fst (f c))).
Proof.
  unfold andThen. destruct (f c) as [c1 l1]. cbn [fst].
  destruct (g c1) as [c2 l2]. reflexivity.
Qed.

Lemma snd_andThen (f g : Check) c :
  snd (andThen f g c) = snd (f c) ++ snd (g (fst (f c))).
Proof.
  unfold andThen. destruct (f c) as [c1 l1]. cbn [fst snd].
  destruct (g c1) as [c2 l2]. reflexivity.
Qed.

Lemma or_default_in_range lo hi d v :
  lo <= d <= hi -> lo <= or_default lo hi d v <= hi.
Proof.
  intros H. unfold or_default.
  destruct (v <? lo) eqn:A; cbn [orb]; [exact H|].
  destruct (v >? hi) eqn:B; [exact H|].
  apply Z.ltb_ge in A.
  destruct (Z.gtb_spec v hi); [discriminate|lia].
Qed.

Lemma or_default_valid lo hi d v : lo <= v <= hi -> or_default lo hi d v = v.
Proof.
  intros H. unfold or_default.
  replace (v <? lo) with false by (symmetry; apply Z.ltb_ge; lia).
  destruct (Z.gtb_spec v hi); [lia|reflexivity].
Qed.

Lemma or_default_invalid lo hi d v :
  v < lo \/ hi < v -> or_default lo hi d v = d.
Proof.
  intros H. unfold or_default.
  destruct (Z.ltb_spec v lo); [reflexivity|].
  destruct (Z.gtb_spec v hi); [reflexivity|lia].
Qed.

Lemma check_maxIdleConns_fst c :
  fst (check_maxIdleConns c)
  = WithMaxIdleConns (or_default ValidMinIdleConns ValidMaxIdleConns DefaultMaxIdleConns (maxIdleConns c)) c.
Proof.
  unfold check_maxIdleConns, or_default.
  destruct ((maxIdleConns c <? ValidMinIdleConns) || (maxIdleConns c >? ValidMaxIdleConns));
    [reflexivity|destruct c; reflexivity].
Qed.

Lemma check_maxIdleConns_valid c :
  ValidMinIdleConns <= maxIdleConns c <= ValidMaxIdleConns ->
  check_maxIdleConns c = (c, []).
Proof.
  intros H. unfold check_maxIdleConns.
  replace (maxIdleConns c <? ValidMinIdleConns) with false by (symmetry; apply Z.ltb_ge; lia).
  destruct (Z.gtb_spec (maxIdleConns c) ValidMaxIdleConns); [lia|reflexivity].
Qed.

Lemma check_idleConnTimeout_fst c :
  fst (check_idleConnTimeout c)
  = WithIdleConnTimeout (or_default ValidMinIdleConnTimeout ValidMaxIdleConnTimeout DefaultIdleConnTimeout (idleConnTimeout c)) c.
Proof.
  unfold check_idleConnTimeout, or_default.
  destruct ((idleConnTimeout c <? ValidMinIdleConnTimeout) || (idleConnTimeout c >? ValidMaxIdleConnTimeout));
    [reflexivity|destruct c; reflexivity].
Qed.

Lemma check_idleConnTimeout_valid c :
  ValidMinIdleConnTimeout <= idleConnTimeout c <= ValidMaxIdleConnTimeout ->
  check_idleConnTimeout c = (c, []).
Proof.
  intros H. unfold check_idleConnTimeout.
  replace (idleConnTimeout c <? ValidMinIdleConnTimeout) with false by (symmetry; apply Z.ltb_ge; lia).
  destruct (Z.gtb_spec (idleConnTimeout c) ValidMaxIdleConnTimeout); [lia|reflexivity].
Qed.

Lemma check_tlsHandshakeTimeout_fst c :
  fst (check_tlsHandshakeTimeout c)
  = WithTLSHandshakeTimeout (or_default ValidMinTLSHandshakeTimeout ValidMaxTLSHandshakeTimeout DefaultTLSHandshakeTimeout (tlsHandshakeTimeout c)) c.
Proof.
  unfold check_tlsHandshakeTimeout, or_default.
  destruct ((tlsHandshakeTimeout c <? ValidMinTLSHandshakeTimeout) || (tlsHandshakeTimeout c >? ValidMaxTLSHandshakeTimeout));
    [reflexivity|destruct c; reflexivity].
Qed.

Lemma check_tlsHandshakeTimeout_valid c :
  ValidMinTLSHandshakeTimeout <= tlsHandshakeTimeout c <= ValidMaxTLSHandshakeTimeout ->
  check_tlsHandshakeTimeout c = (c, []).
Proof.
  intros H. unfold check_tlsHandshakeTimeout.
  replace (tlsHandshakeTimeout c <? ValidMinTLSHandshakeTimeout) with false by (symmetry; apply Z.ltb_ge; lia).
  destruct (Z.gtb_spec (tlsHandshakeTimeout c) ValidMaxTLSHandshakeTimeout); [lia|reflexivity].
Qed.

Lemma check_expectContinueTimeout_fst c :
  fst (check_expectContinueTimeout c)
  = WithExpectContinueTimeout (or_default ValidMinExpectContinueTimeout ValidMaxExpectContinueTimeout DefaultExpectContinueTimeout (expectContinueTimeout c)) c.
Proof.
  unfold check_expectContinueTimeout, or_default.
  destruct ((expectContinueTimeout c <? ValidMinExpectContinueTimeout) || (expectContinueTimeout c >? ValidMaxExpectContinueTimeout));
    [reflexivity|destruct c; reflexivity].
Qed.

Lemma check_expectContinueTimeout_valid c :
  ValidMinExpectContinueTimeout <= expectContinueTimeout c <= ValidMaxExpectContinueTimeout ->
  check_expectContinueTimeout c = (c, []).
Proof.
  intros H. unfold check_expectContinueTimeout.
  replace (expectContinueTimeout c <? ValidMinExpectContinueTimeout) with false by (symmetry; apply Z.ltb_ge; lia).
  destruct (Z.gtb_spec (expectContinueTimeout c) ValidMaxExpectContinueTimeout); [lia|reflexivity].
Qed.

Lemma check_maxIdleConnsPerHost_fst c :
  fst (check_maxIdleConnsPerHost c)
  = WithMaxIdleConnsPerHost (or_default ValidMinIdleConnsPerHost ValidMaxIdleConnsPerHost DefaultMaxIdleConnsPerHost (maxIdleConnsPerHost c)) c.
Proof.
  unfold check_maxIdleConnsPerHost, or_default.
  destruct ((maxIdleConnsPerHost c <? ValidMinIdleConnsPerHost) || (maxIdleConnsPerHost c >? ValidMaxIdleConnsPerHost));
    [reflexivity|destruct c; reflexivity].
Qed.

Lemma check_maxIdleConnsPerHost_valid c :
  ValidMinIdleConnsPerHost <= maxIdleConnsPerHost c <= ValidMaxIdleConnsPerHost ->
  check_maxIdleConnsPerHost c = (c, []).
Proof.
  intros H. unfold check_maxIdleConnsPerHost.
  replace (maxIdleConnsPerHost c <? ValidMinIdleConnsPerHost) with false by (symmetry; apply Z.ltb_ge; lia).
  destruct (Z.gtb_spec (maxIdleConnsPerHost c) ValidMaxIdleConnsPerHost); [lia|reflexivity].
Qed.

Lemma check_timeout_fst c :
  fst (check_timeout c)
  = WithTimeout (or_default ValidMinTimeout ValidMaxTimeout DefaultTimeout (timeout c)) c.
Proof.
  unfold check_timeout, or_default.
  destruct ((timeout c <? ValidMinTimeout) || (timeout c >? ValidMaxTimeout));
    [reflexivity|destruct c; reflexivity].
Qed.

Lemma check_timeout_valid c :
  ValidMinTimeout <= timeout c <= ValidMaxTimeout ->
  check_timeout c = (c, []).
Proof.
  intros H. unfold check_timeout.
  replace (timeout c <? ValidMinTimeout) with false by (symmetry; apply Z.ltb_ge; lia).
  destruct (Z.gtb_spec (timeout c) ValidMaxTimeout); [lia|reflexivity].
Qed.

Lemma check_maxRetries_fst c :
  fst (check_maxRetries c)
  = WithMaxRetries (or_default ValidMinRetries ValidMaxRetries DefaultMaxRetries (maxRetries c)) c.
Proof.
  unfold check_maxRetries, or_default.
  destruct ((maxRetries c <? ValidMinRetries) || (maxRetries c >? ValidMaxRetries));
    [reflexivity|destruct c; reflexivity].
Qed.

Lemma check_maxRetries_valid c :
  ValidMinRetries <= maxRetries c <= ValidMaxRetries ->
  check_maxRetries c = (c, []).
Proof.
  intros H. unfold check_maxRetries.
  replace (maxRetries c <? ValidMinRetries) with false by (symmetry; apply Z.ltb_ge; lia).
  destruct (Z.gtb_spec (maxRetries c) ValidMaxRetries); [lia|reflexivity].
Qed.

Lemma check_retryBaseDelay_fst c :
  fst (check_retryBaseDelay c)
  = WithRetryBaseDelay (or_default ValidMinBaseDelay ValidMaxBaseDelay DefaultBaseDelay (retryBaseDelay c)) c.
Proof.
  unfold check_retryBaseDelay, or_default.
  destruct ((retryBaseDelay c <? ValidMinBaseDelay) || (retryBaseDelay c >? ValidMaxBaseDelay));
    [reflexivity|destruct c; reflexivity].
Qed.

Lemma check_retryBaseDelay_valid c :
  ValidMinBaseDelay <= retryBaseDelay c <= ValidMaxBaseDelay ->
  check_retryBaseDelay c = (c, []).
Proof.
  intros H. unfold check_retryBaseDelay.
  replace (retryBaseDelay c <? ValidMinBaseDelay) with false by (symmetry; apply Z.ltb_ge; lia).
  destruct (Z.gtb_spec (retryBaseDelay c) ValidMaxBaseDelay); [lia|reflexivity].
Qed.

Lemma check_retryMaxDelay_fst c :
  fst (check_retryMaxDelay c)
  = WithRetryMaxDelay (or_default ValidMinMaxDelay ValidMaxMaxDelay DefaultMaxDelay (retryMaxDelay c)) c.
Proof.
  unfold check_retryMaxDelay, or_default.
  destruct ((retryMaxDelay c <? ValidMinMaxDelay) || (retryMaxDelay c >? ValidMaxMaxDelay));
    [reflexivity|destruct c; reflexivity].
Qed.

Lemma check_retryMaxDelay_valid c :
  ValidMinMaxDelay <= retryMaxDelay c <= ValidMaxMaxDelay ->
  check_retryMaxDelay c = (c, []).
Proof.
  intros H. unfold check_retryMaxDelay.
  replace (retryMaxDelay c <? ValidMinMaxDelay) with false by (symmetry; apply Z.ltb_ge; lia).
  destruct (Z.gtb_spec (retryMaxDelay c) ValidMaxMaxDelay); [lia|reflexivity].
Qed.

(** What the nine checks leave in the builder. *)
Lemma normalize_fst c :
  fst (normalize c)
  = {| retryStrategyType := retryStrategyType c;
       maxIdleConns :=
         or_default ValidMinIdleConns ValidMaxIdleConns DefaultMaxIdleConns
           (maxIdleConns c);
       idleConnTimeout :=
         or_default ValidMinIdleConnTimeout ValidMaxIdleConnTimeout
           DefaultIdleConnTimeout (idleConnTimeout c);
       tlsHandshakeTimeout :=
         or_default ValidMinTLSHandshakeTimeout ValidMaxTLSHandshakeTimeout
           DefaultTLSHandshakeTimeout (tlsHandshakeTimeout c);
       expectContinueTimeout :=
         or_default ValidMinExpectContinueTimeout ValidMaxExpectContinueTimeout
           DefaultExpectContinueTimeout (expectContinueTimeout c);
       maxIdleConnsPerHost :=
         or_default ValidMinIdleConnsPerHost ValidMaxIdleConnsPerHost
           DefaultMaxIdleConnsPerHost (maxIdleConnsPerHost c);
       timeout :=
         or_default ValidMinTimeout ValidMaxTimeout DefaultTimeout (timeout c);
       maxRetries :=
         or_default ValidMinRetries ValidMaxRetries DefaultMaxRetries
           (maxRetries c);
       retryBaseDelay :=
         or_default ValidMinBaseDelay ValidMaxBaseDelay DefaultBaseDelay
           (retryBaseDelay c);
       retryMaxDelay :=
         or_default ValidMinMaxDelay ValidMaxMaxDelay DefaultMaxDelay
           (retryMaxDelay c);
       disableKeepAlive := disableKeepAlive c;
       proxyURL := proxyURL c;
       logger := logger c |}.
Proof.
  unfold normalize. rewrite !fst_andThen.
  rewrite check_maxIdleConns_fst, check_idleConnTimeout_fst,
    check_tlsHandshakeTimeout_fst, check_expectContinueTimeout_fst,
    check_maxIdleConnsPerHost_fst, check_timeout_fst, check_maxRetries_fst,
    check_retryBaseDelay_fst, check_retryMaxDelay_fst.
  reflexivity.
Qed.

Lemma normalize_in_range c : in_range (fst (normalize c)).
Proof.
  rewrite normalize_fst. unfold in_range.
  cbn [maxIdleConns idleConnTimeout tlsHandshakeTimeout expectContinueTimeout
       maxIdleConnsPerHost timeout maxRetries retryBaseDelay retryMaxDelay].
  repeat split; apply or_default_in_range; vm_compute; split; discriminate.
Qed.

Lemma normalize_valid c : in_range c -> normalize c = (c, []).
Proof.
  unfold in_range. intros (H1 & H2 & H3 & H4 & H5 & H6 & H7 & H8 & H9).
  unfold normalize, andThen.
  rewrite check_maxIdleConns_valid, check_idleConnTimeout_valid,
    check_tlsHandshakeTimeout_valid, check_expectContinueTimeout_valid,
    check_maxIdleConnsPerHost_valid, check_timeout_valid,
    check_maxRetries_valid, check_retryBaseDelay_valid,
    check_retryMaxDelay_valid by assumption.
  reflexivity.
Qed.

Section BuildFacts.

Context {World : Type}.
Variable URL : Type.
Variable url_Parse : string -> URL + error.
Variable RoundTrip_of
  : HTTPTransport URL -> Request World -> World
    -> (option TransportResponse * option error) * World.

Local Abbreviation Build' := (Build URL url_Parse RoundTrip_of).

Lemma Build_unfold b :
  Build' b
  = let c := fst (normalize b) in
    let tr := fst (newTransport URL url_Parse c) in
    {| builder := c;
       underlying := tr;
       client :=
         {| Timeout := timeout c;
            Transport :=
              {| rt_Transport := Some (asRoundTripper RoundTrip_of tr);
                 rt_RetryStrategy :=
                   Some (finalRetryStrategy (fst (finalStrategyType c)) c);
                 rt_MaxRetries := maxRetries c;
                 rt_logger := logger c |} |};
       warnings :=
         snd (normalize b) ++ snd (finalStrategyType c)
         ++ snd (newTransport URL url_Parse c) |}.
Proof.
  unfold Build. destruct (normalize b) as [c l1]. cbn [fst snd].
  destruct (finalStrategyType c) as [t l2].
  destruct (newTransport URL url_Parse c) as [tr l3]. reflexivity.
Qed.

Lemma Build_builder b : builder (Build' b) = fst (normalize b).
Proof.
  unfold Build. destruct (normalize b) as [c l1].
  destruct (finalStrategyType c) as [t l2].
  destruct (newTransport URL url_Parse c) as [tr l3]. reflexivity.
Qed.

Lemma Build_client b :
  let c := fst (normalize b) in
  Timeout (client (Build' b)) = timeout c
  /\ rt_MaxRetries (Transport (client (Build' b))) = maxRetries c
  /\ rt_RetryStrategy (Transport (client (Build' b)))
     = Some (finalRetryStrategy (fst (finalStrategyType c)) c)
  /\ rt_Transport (Transport (client (Build' b)))
     = Some (asRoundTripper RoundTrip_of (underlying (Build' b)))
  /\ rt_logger (Transport (client (Build' b))) = logger b.
Proof.
  cbv zeta. unfold Build.
  assert (L : logger (fst (normalize b)) = logger b)
    by (rewrite normalize_fst; reflexivity).
  destruct (normalize b) as [c l1]. cbn [fst] in *.
  destruct (finalStrategyType c) as [t l2].
  destruct (newTransport URL url_Parse c) as [tr l3].
  cbn. repeat split. exact L.
Qed.

Lemma Build_underlying b :
  let c := fst (normalize b) in
  MaxIdleConns (underlying (Build' b)) = maxIdleConns c
  /\ IdleConnTimeout (underlying (Build' b)) = idleConnTimeout c
  /\ TLSHandshakeTimeout (underlying (Build' b)) = tlsHandshakeTimeout c
  /\ ExpectContinueTimeout (underlying (Build' b)) = expectContinueTimeout c
  /\ MaxIdleConnsPerHost (underlying (Build' b)) = maxIdleConnsPerHost c
  /\ DisableKeepAlives (underlying (Build' b)) = disableKeepAlive b.
Proof.
  cbv zeta. unfold Build.
  assert (L : disableKeepAlive (fst (normalize b)) = disableKeepAlive b)
    by (rewrite normalize_fst; reflexivity).
  destruct (normalize b) as [c l1]. cbn [fst] in *.
  destruct (finalStrategyType c) as [t l2].
  unfold newTransport.
  destruct (String.eqb (proxyURL c) ""); [cbn; repeat split; exact L|].
  destruct (url_Parse (proxyURL c)); cbn; repeat split; exact L.
Qed.

(** Whatever the builder was given, every checked setting of the client
    that [Build] returns is within its valid range: the timeout, the retry
    ceiling and the pool settings of the underlying transport, and the
    delays the builder keeps for the strategy. *)
Theorem Build_settings_in_range b :
  ValidMinTimeout <= Timeout (client (Build' b)) <= ValidMaxTimeout
  /\ ValidMinRetries <= rt_MaxRetries (Transport (client (Build' b)))
     <= ValidMaxRetries
  /\ ValidMinIdleConns <= MaxIdleConns (underlying (Build' b))
     <= ValidMaxIdleConns
  /\ ValidMinIdleConnsPerHost <= MaxIdleConnsPerHost (underlying (Build' b))
     <= ValidMaxIdleConnsPerHost
  /\ ValidMinIdleConnTimeout <= IdleConnTimeout (underlying (Build' b))
     <= ValidMaxIdleConnTimeout
  /\ ValidMinTLSHandshakeTimeout <= TLSHandshakeTimeout (underlying (Build' b))
     <= ValidMaxTLSHandshakeTimeout
  /\ ValidMinExpectContinueTimeout
     <= ExpectContinueTimeout (underlying (Build' b))
     <= ValidMaxExpectContinueTimeout
  /\ in_range (builder (Build' b)).
Proof.
  pose proof (normalize_in_range b) as R.
  destruct (Build_client b) as (C1 & C2 & _).
  destruct (Build_underlying b) as (U1 & U2 & U3 & U4 & U5 & _).
  rewrite C1, C2, U1, U2, U3, U4, U5, Build_builder.
  unfold in_range in R.
  destruct R as (R1 & R2 & R3 & R4 & R5 & R6 & R7 & R8 & R9).
  repeat split; try assumption; unfold in_range; tauto.
Qed.

(** Settings that are all within range are used as given: [Build] leaves
    the builder as it is, logs no range warning, and the client has the
    timeout and the ceiling of the builder. *)
Theorem Build_keeps_valid_settings b :
  in_range b ->
  builder (Build' b) = b
  /\ normalize b = (b, [])
  /\ Timeout (client (Build' b)) = timeout b
  /\ rt_MaxRetries (Transport (client (Build' b))) = maxRetries b
  /\ MaxIdleConns (underlying (Build' b)) = maxIdleConns b
  /\ MaxIdleConnsPerHost (underlying (Build' b)) = maxIdleConnsPerHost b
  /\ IdleConnTimeout (underlying (Build' b)) = idleConnTimeout b.
Proof.
  intros H. pose proof (normalize_valid b H) as N.
  destruct (Build_client b) as (C1 & C2 & _).
  destruct (Build_underlying b) as (U1 & U2 & _ & _ & U5 & _).
  rewrite C1, C2, U1, U2, U5, Build_builder, N. repeat split.
Qed.

(** Building twice changes nothing: what [Build] writes back into the
    builder is within range, so a second [Build] keeps it and returns a
    client with the same settings over the same underlying transport. *)
Theorem Build_is_idempotent b :
  let once := Build' b in
  let twice := Build' (builder once) in
  builder twice = builder once
  /\ underlying twice = underlying once
  /\ client twice = client once
  /\ normalize (builder once) = (builder once, []).
Proof.
  cbv zeta.
  assert (N : normalize (fst (normalize b)) = (fst (normalize b), []))
    by (apply normalize_valid, normalize_in_range).
  rewrite !Build_unfold. cbv zeta. cbn [builder underlying client].
  rewrite N. cbn [fst]. repeat split.
Qed.

(** A retry ceiling outside 1..10 is replaced by the default of 3, not by
    the nearest bound: through the builder retries cannot be switched off,
    [WithMaxRetries(0)] builds a client that retries three times. *)
Theorem Build_ceiling_out_of_range b n :
  n < 1 \/ 10 < n ->
  rt_MaxRetries (Transport (client (Build' (WithMaxRetries n b)))) = 3.
Proof.
  intros H. destruct (Build_client (WithMaxRetries n b)) as (_ & C2 & _).
  rewrite C2, normalize_fst. cbn [maxRetries WithMaxRetries].
  apply or_default_invalid. exact H.
Qed.

(** The strategy a built client retries with. *)
Lemma Build_strategy b :
  strategyOf (Transport (client (Build' b)))
  = finalRetryStrategy (fst (finalStrategyType (fst (normalize b))))
      (fst (normalize b)).
Proof.
  unfold strategyOf. destruct (Build_client b) as (_ & _ & C3 & _).
  rewrite C3. reflexivity.
Qed.

Lemma exponential_of_valid_delays base maxDelay attempt rng :
  ValidMinBaseDelay <= base <= ValidMaxBaseDelay ->
  ValidMinMaxDelay <= maxDelay <= ValidMaxMaxDelay ->
  0 <= attempt <= 30 ->
  exists e,
    ExponentialBackoff base maxDelay attempt rng = (Some e, rng)
    /\ ValidMinBaseDelay <= e <= ValidMaxMaxDelay.
Proof.
  unfold ValidMinBaseDelay, ValidMaxBaseDelay, ValidMinMaxDelay,
    ValidMaxMaxDelay, Millisecond, Second.
  intros Hb Hm Ha.
  destruct (Z.eq_dec attempt 0) as [E0|N0].
  - subst attempt. destruct (Z_le_gt_dec base maxDelay) as [L|G].
    + exists (Z.min (base * 2 ^ 0) maxDelay). split.
      * apply ExponentialBackoff_exact; unfold Int64.max_int; lia.
      * lia.
    + exists base. split.
      * apply ExponentialBackoff_first_uncapped. exact G.
      * lia.
  - assert (P : 0 < 2 ^ attempt) by (apply Z.pow_pos_nonneg; lia).
    assert (Q : 2 ^ attempt <= 2 ^ 30) by (apply Z.pow_le_mono_r; lia).
    exists (Z.min (base * 2 ^ attempt) maxDelay). split.
    + apply ExponentialBackoff_exact; unfold Int64.max_int; try lia; nia.
    + assert (base <= base * 2 ^ attempt) by nia. lia.
Qed.

Lemma built_strategy_bounds b attempt rng :
  0 <= attempt <= 30 ->
  exists d rng',
    strategyOf (Transport (client (Build' b))) attempt rng = (Some d, rng')
    /\ 300 * Millisecond <= d < 180 * Second.
Proof.
  intros Ha. rewrite Build_strategy.
  pose proof (normalize_in_range b) as R. unfold in_range in R.
  destruct R as (_ & _ & _ & _ & _ & _ & _ & Rb & Rm).
  set (c := fst (normalize b)) in *.
  destruct (exponential_of_valid_delays (retryBaseDelay c) (retryMaxDelay c)
              attempt rng Rb Rm Ha) as [e [He Be]].
  unfold ValidMinBaseDelay, ValidMaxBaseDelay, ValidMinMaxDelay,
    ValidMaxMaxDelay, Millisecond, Second in *.
  unfold finalRetryStrategy.
  destruct (String.eqb (fst (finalStrategyType c)) FixedDelayStrategy).
  - exists (retryBaseDelay c), rng. split; [reflexivity|lia].
  - destruct (String.eqb (fst (finalStrategyType c)) JitterBackoffStrategy).
    + destruct (JitterBackoff_range (retryBaseDelay c) (retryMaxDelay c)
                  attempt rng e He) as [d [rng' [Hd Bd]]].
      * lia.
      * unfold Int64.max_int.
        assert (e / 2 <= e) by (apply Z.div_le_upper_bound; lia). lia.
      * exists d, rng'. split; [exact Hd|].
        assert (2 * (e / 2) <= e) by (apply Z.mul_div_le; lia). lia.
    + assert (E : exists d rng',
                 ExponentialBackoff (retryBaseDelay c) (retryMaxDelay c)
                   attempt rng = (Some d, rng')
                 /\ 300 * 1000000 <= d < 180 * 1000000000)
        by (exists e, rng; split; [exact He|lia]).
      destruct (String.eqb (fst (finalStrategyType c))
                  ExponentialBackoffStrategy); exact E.
Qed.

(** The strategy of a built client is safe in every retry the loop can
    make with it: for the attempt indices up to 30, far beyond the ceiling
    of 10, it does not panic and the delay is at least 300 ms and below
    180 s, whichever of the three strategies was chosen. *)
Theorem Build_strategy_is_safe b attempt rng :
  0 <= attempt <= 30 ->
  exists d rng',
    strategyOf (Transport (client (Build' b))) attempt rng = (Some d, rng')
    /\ 300 * Millisecond <= d < 180 * Second.
Proof. apply built_strategy_bounds. Qed.

(** A name that is not one of "fixed", "jitter" and "exponential" is
    replaced by "exponential" when it is set, so the strategy type the
    builder holds afterwards is always valid; a valid name is kept. *)
Theorem WithRetryStrategyAsString_valid name c :
  let c' := fst (WithRetryStrategyAsString name c) in
  IsValid (retryStrategyType c') = true
  /\ (IsValid name = true -> retryStrategyType c' = name)
  /\ (IsValid name = false ->
      retryStrategyType c' = ExponentialBackoffStrategy).
Proof.
  cbv zeta. unfold WithRetryStrategyAsString.
  destruct (IsValid name) eqn:V; cbn.
  - split; [exact V|]. split; [reflexivity|discriminate].
  - split; [reflexivity|]. split; [discriminate|reflexivity].
Qed.

(** The strategy a built client gets from a name: fixed delay of the base
    delay for "fixed", jittered backoff for "jitter", and exponential
    backoff for every other name, valid or not; the delays are those the
    range checks leave. *)
Theorem Build_strategy_by_name name b :
  let b' := fst (WithRetryStrategyAsString name b) in
  let base := retryBaseDelay (fst (normalize b)) in
  let maxDelay := retryMaxDelay (fst (normalize b)) in
  strategyOf (Transport (client (Build' b')))
  = if String.eqb name "fixed" then FixedDelay base
    else if String.eqb name "jitter" then JitterBackoff base maxDelay
    else ExponentialBackoff base maxDelay.
Proof.
  cbv zeta. rewrite Build_strategy, !normalize_fst.
  unfold WithRetryStrategyAsString, IsValid, finalStrategyType,
    finalRetryStrategy, IsValid,
    FixedDelayStrategy, JitterBackoffStrategy, ExponentialBackoffStrategy.
  destruct (String.eqb name "fixed") eqn:F.
  - apply String.eqb_eq in F. subst name. reflexivity.
  - destruct (String.eqb name "jitter") eqn:J.
    + apply String.eqb_eq in J. subst name. reflexivity.
    + destruct (String.eqb name "exponential") eqn:E.
      * apply String.eqb_eq in E. subst name. reflexivity.
      * reflexivity.
Qed.

(** *** Requests through a built client *)

Variable DefaultTransport : RoundTripper World.

Lemma built_ceiling b :
  1 <= rt_MaxRetries (Transport (client (Build' b))) <= 10.
Proof.
  destruct (Build_client b) as (_ & C2 & _). rewrite C2.
  pose proof (normalize_in_range b) as R. unfold in_range in R.
  destruct R as (_ & _ & _ & _ & _ & _ & R7 & _). exact R7.
Qed.

(** A request through a built client makes between one and eleven calls of
    the underlying transport, unless the regeneration of its body fails
    before the first. *)
Theorem Build_bounds_the_attempts b req (s : State World) :
  exists k,
    extends k s
      (final_state
         (RoundTrip DefaultTransport (Transport (client (Build' b))) req s))
    /\ (k <= 11)%nat
    /\ (forall req1 s1, cloneBody req s = Ok (inl req1) s1 -> (1 <= k)%nat).
Proof.
  pose proof (built_ceiling b) as C.
  set (rt := Transport (client (Build' b))) in *.
  unfold RoundTrip.
  destruct (loop_at_most (transportOf DefaultTransport rt) (strategyOf rt) rt
              0 req s) as [k [Hk Hext]].
  exists k. split; [exact Hext|]. split; [lia|].
  intros req1 s1 Hc.
  destruct (loop_first_call (transportOf DefaultTransport rt) (strategyOf rt)
              rt 0 req s req1 s1 ltac:(lia) Hc) as [tail Ht].
  pose proof (cloneBody_quiet req s) as Q. rewrite Hc in Q.
  apply extends_invocations in Q, Hext. cbn [final_state] in Q.
  rewrite Ht in Hext.
  change (EvRoundTrip (Body req1) :: tail)
    with ([EvRoundTrip (Body req1)] ++ tail) in Hext.
  rewrite !invocations_app in Hext. cbn in Hext. lia.
Qed.

End BuildFacts.

End ClientBuilderFacts.

(** ** Panics *)

Section Panics.

Context {World : Type}.
Variable transport : RoundTripper World.
Variable retryStrategy : RetryStrategy.
Variable r : retryTransport World.

Lemma cloneBody_never_panics req (s : State World) s1 :
  cloneBody req s <> Panic s1.
Proof.
  unfold cloneBody.
  destruct (Body req) as [b|]; [|discriminate].
  destruct (GetBody req) as [g|]; [|discriminate].
  unfold bind, call_GetBody, ret.
  destruct (g (world s)) as [[bc [e|]] w]; discriminate.
Qed.

Lemma retryOrFail_Panic attempt req resp err (s : State World) s1 :
  retryOrFail retryStrategy r attempt req resp err s = Panic s1 ->
  attempt < rt_MaxRetries r /\ fst (retryStrategy attempt (rng s)) = None.
Proof.
  unfold retryOrFail.
  destruct (attempt <? rt_MaxRetries r) eqn:L.
  - apply Z.ltb_lt in L. unfold bind, call_strategy.
    destruct (retryStrategy attempt (rng s)) as [[d|] g]; [|intros _; split; [exact L|reflexivity]].
    unfold logRetry, log, time_Sleep, ret.
    destruct err, resp, (rt_logger r); discriminate.
  - unfold bind, logFailure, log, ret.
    destruct err, resp, (rt_logger r); discriminate.
Qed.

Lemma afterFailure_Panic attempt req resp err (s : State World) s1 :
  afterFailure retryStrategy r attempt req resp err s = Panic s1 ->
  (exists rp, resp = Some rp /\ resp_Body rp = None)
  \/ (attempt < rt_MaxRetries r
      /\ exists g, fst (retryStrategy attempt g) = None).
Proof.
  unfold afterFailure, bind.
  destruct (discardBody resp s) as [[e|] s2|s2] eqn:D.
  - discriminate.
  - intros H. apply retryOrFail_Panic in H. destruct H as [H1 H2]. eauto.
  - intros _. left. revert D. unfold discardBody.
    destruct resp as [rp|]; [|discriminate].
    destruct (resp_Body rp) as [body|] eqn:Hb; [|eauto].
    unfold bind, io_Copy_Discard, Close, ret.
    destruct (readErr body), (closeErr body); discriminate.
Qed.

(** A pass panics only on a transport that returns neither a response nor
    an error, on a response without a body that comes with a retryable
    outcome, or on a strategy that panics for an attempt below the
    ceiling. *)
Lemma iteration_Panic attempt req (s : State World) s1 :
  iteration transport retryStrategy r attempt req s = Panic s1 ->
  (exists q w, fst (transport q w) = (None, None))
  \/ (exists q w rp err,
        fst (transport q w) = (Some rp, err)
        /\ retryable (Some rp, err) /\ resp_Body rp = None)
  \/ (attempt < rt_MaxRetries r
      /\ exists g, fst (retryStrategy attempt g) = None).
Proof.
  unfold iteration, bind.
  destruct (cloneBody req s) as [[req1|e] s2|s2] eqn:C.
  - unfold attemptOnce, bind, call_RoundTrip.
    destruct (transport req1 (world s2)) as [[resp [e|]] w] eqn:Tr.
    + intros H. right.
      destruct (afterFailure_Panic _ _ _ _ _ _ H) as [[rp [E Hb]]|P].
      * left. exists req1, (world s2), rp, (Some e). subst resp.
        rewrite Tr. repeat split. exact Hb.
      * right. exact P.
    + destruct resp as [rp|].
      * destruct (StatusCode rp <? StatusInternalServerError) eqn:L;
          [discriminate|].
        intros H. right.
        destruct (afterFailure_Panic _ _ _ _ _ _ H) as [[rp' [E Hb]]|P].
        -- left. exists req1, (world s2), rp, None. inversion E; subst rp'.
           rewrite Tr. split; [reflexivity|]. split; [|exact Hb].
           cbn. apply Z.ltb_ge. exact L.
        -- right. exact P.
      * intros _. left. exists req1, (world s2). rewrite Tr. reflexivity.
  - discriminate.
  - exfalso. apply (cloneBody_never_panics _ _ _ C).
Qed.

Lemma loop_never_panics attempt req (s : State World) :
  0 <= attempt ->
  (forall a g, 0 <= a < rt_MaxRetries r -> fst (retryStrategy a g) <> None) ->
  (forall q w, fst (transport q w) <> (None, None)) ->
  (forall q w rp err,
      fst (transport q w) = (Some rp, err) ->
      retryable (Some rp, err) -> resp_Body rp <> None) ->
  exists x s', loop transport retryStrategy r attempt req s = Ok x s'.
Proof.
  intros H0 Hs Ht Hb. revert H0.
  apply (loop_induction transport retryStrategy r
           (fun attempt req s res =>
              0 <= attempt -> exists x s', res = Ok x s'));
    clear attempt req s.
  - intros attempt req s _ _. eauto.
  - intros attempt req s req1 out s1 _ _ _. eauto.
  - intros attempt req s req1 s1 _ _ IH H0. apply IH. lia.
  - intros attempt req s s1 _ It H0. exfalso.
    destruct (iteration_Panic _ _ _ _ It)
      as [[q [w E]]|[[q [w [rp [err [E [R N]]]]]]|[L [g E]]]].
    + apply (Ht q w E).
    + apply (Hb q w rp err E R N).
    + apply (Hs attempt g); [lia|exact E].
Qed.

End Panics.

Section PanicFreedom.

Context {World : Type}.
Variable DefaultTransport : RoundTripper World.

(** [RoundTrip] returns, with a response or an error, whenever the
    transport keeps its contract of returning a response or an error, the
    responses it returns with a retryable outcome have a body, and the
    strategy does not panic for the attempts below the ceiling. *)
Theorem RoundTrip_never_panics
    (r : retryTransport World) req (s : State World) :
  (forall a g, 0 <= a < rt_MaxRetries r -> fst (strategyOf r a g) <> None) ->
  (forall q w, fst (transportOf DefaultTransport r q w) <> (None, None)) ->
  (forall q w rp err,
      fst (transportOf DefaultTransport r q w) = (Some rp, err) ->
      retryable (Some rp, err) -> resp_Body rp <> None) ->
  exists x s', RoundTrip DefaultTransport r req s = Ok x s'.
Proof.
  intros Hs Ht Hb. unfold RoundTrip.
  apply loop_never_panics; [lia|exact Hs|exact Ht|exact Hb].
Qed.

(** A response without a body that comes with a retryable outcome makes
    [RoundTrip] panic: at any pass the loop reaches, the drain of the nil
    body is the first thing after the transport call, so nothing is
    closed, no backoff is slept and no error is returned. *)
Theorem RoundTrip_nil_body_panics
    (r : retryTransport World) req (s : State World)
    attempt reqA sA req1 s1 rp err w :
  reaches (transportOf DefaultTransport r) (strategyOf r) r
    0 req s attempt reqA sA ->
  attempt <= rt_MaxRetries r ->
  cloneBody reqA sA = Ok (inl req1) s1 ->
  transportOf DefaultTransport r req1 (world s1) = ((Some rp, err), w) ->
  retryable (Some rp, err) ->
  resp_Body rp = None ->
  RoundTrip DefaultTransport r req s
  = Panic (emit (EvRoundTrip (Body req1)) (set_world w s1)).
Proof.
  intros Hreach Hle Hc Hcall Hretry Hbody. unfold RoundTrip.
  rewrite (loop_reaches _ _ _ _ _ _ _ _ _ Hreach).
  rewrite (loop_after_failure _ _ _ _ _ _ _ _ _ _ _ Hle Hc Hcall Hretry).
  unfold afterFailure, bind. rewrite (discardBody_nil rp _ Hbody).
  reflexivity.
Qed.

End PanicFreedom.

Module ClientBuilderRuns.

Import ClientBuilder.

Section BuiltClient.

Context {World : Type}.
Variable URL : Type.
Variable url_Parse : string -> URL + error.
Variable RoundTrip_of
  : HTTPTransport URL -> Request World -> World
    -> (option TransportResponse * option error) * World.
Variable DefaultTransport : RoundTripper World.

(** A request through a built client never panics in the retry loop, as
    long as the underlying transport returns a response or an error: the
    range checks of [Build] keep the delays where no strategy can panic,
    and the responses of the [http.Transport] it wraps always have a
    body. *)
Theorem Build_client_never_panics b req (s : State World) :
  (forall q w,
      fst (RoundTrip_of (underlying (Build URL url_Parse RoundTrip_of b)) q w)
      <> (None, None)) ->
  exists x s',
    RoundTrip DefaultTransport
      (Transport (client (Build URL url_Parse RoundTrip_of b))) req s
    = Ok x s'.
Proof.
  intros Ht. unfold RoundTrip. apply loop_never_panics.
  - lia.
  - intros a g Ha.
    pose proof (ClientBuilderFacts.built_ceiling URL url_Parse RoundTrip_of b)
      as C.
    destruct (ClientBuilderFacts.built_strategy_bounds URL url_Parse
                RoundTrip_of b a g ltac:(lia)) as [d [g' [E _]]].
    rewrite E. discriminate.
  - intros q w. unfold transportOf.
    destruct (ClientBuilderFacts.Build_client URL url_Parse RoundTrip_of b)
      as (_ & _ & _ & C4 & _).
    rewrite C4. specialize (Ht q w). unfold asRoundTripper.
    destruct (RoundTrip_of _ q w) as [[[tr|] [e|]] w1];
      cbn in Ht |- *; try discriminate.
    exfalso. apply Ht. reflexivity.
  - intros q w rp err. unfold transportOf.
    destruct (ClientBuilderFacts.Build_client URL url_Parse RoundTrip_of b)
      as (_ & _ & _ & C4 & _).
    rewrite C4. unfold asRoundTripper.
    destruct (RoundTrip_of _ q w) as [[[tr|] e] w1]; cbn;
      intros E _; inversion E; discriminate.
Qed.

End BuiltClient.

End ClientBuilderRuns.

(** ** The further properties at work on the fakes *)

Section MoreRuns.

Import Fakes.
Import ClientBuilder.

Lemma RoundTrip_negative_ceiling_witness :
  -1 < 0
  /\ RoundTrip alwaysError (retrier (alwaysStatus 200) (-1) (FixedDelay Second))
       (POST 0) start
     = Ok (POST 0, (None, Some ErrAllRetriesFailed)) start.
Proof.
  split; [lia|].
  apply (RoundTrip_negative_ceiling alwaysError
           (retrier (alwaysStatus 200) (-1) (FixedDelay Second))
           (POST 0) start).
  cbn. lia.
Defined.

Lemma RoundTrip_response_xor_error_witness :
  exists req' o s',
    RoundTrip alwaysError (retrier (failThenOK 2) 3 (FixedDelay Millisecond))
      GET start
    = Ok (req', o) s'
    /\ response_xor_error o.
Proof.
  destruct (RoundTrip alwaysError
              (retrier (failThenOK 2) 3 (FixedDelay Millisecond)) GET start)
    as [[req' o] s'|s'] eqn:E.
  - exists req', o, s'. split; [reflexivity|].
    apply (RoundTrip_response_xor_error alwaysError
             (retrier (failThenOK 2) 3 (FixedDelay Millisecond))
             GET start req' o s' E).
  - vm_compute in E. discriminate E.
Defined.

Lemma RoundTrip_backoff_schedule_witness :
  0 <= 3
  /\ sleeps
       (trace
          (final_state
             (RoundTrip alwaysError
                (retrier (alwaysStatus 503) 3
                   (ExponentialBackoff (100 * Millisecond) Second))
                GET start)))
     = [100 * Millisecond; 200 * Millisecond; 400 * Millisecond]
  /\ clock
       (final_state
          (RoundTrip alwaysError
             (retrier (alwaysStatus 503) 3
                (ExponentialBackoff (100 * Millisecond) Second))
             GET start))
     = 700 * Millisecond.
Proof.
  split; [lia|].
  destruct (RoundTrip_backoff_schedule alwaysError
              (retrier (alwaysStatus 503) 3
                 (ExponentialBackoff (100 * Millisecond) Second))
              (fun a =>
                 match fst (ExponentialBackoff (100 * Millisecond) Second a [])
                 with Some d => d | None => 0 end)
              GET start)
    as (K1 & _ & K2).
  - cbn. lia.
  - intros a g. cbn [strategyOf rt_RetryStrategy retrier].
    destruct (ExponentialBackoff_total (100 * Millisecond) Second a g)
      as [d Hd].
    destruct (ExponentialBackoff_total (100 * Millisecond) Second a [])
      as [d' Hd'].
    rewrite Hd, Hd'. cbn [fst].
    unfold ExponentialBackoff in Hd, Hd'.
    destruct ((a =? 0) && (100 * Millisecond >? Second));
      inversion Hd; inversion Hd'; subst; reflexivity.
  - intros q w. split; [cbn; unfold StatusInternalServerError; lia|].
    split; reflexivity.
  - intros g w H. discriminate H.
  - split; [exact K1|exact K2].
Defined.

Lemma NewHTTPRetryClient_negative_ceiling_witness :
  -5 < 0
  /\ RoundTrip (alwaysStatus 200)
       (NewHTTPRetryClient (alwaysStatus 200)
          ([WithLoggerRetry (Some slogLogger)] ++ [WithMaxRetriesRetry (-5)]))
       GET start
     = Ok (GET, (None, Some ErrAllRetriesFailed)) start.
Proof.
  split; [lia|].
  apply (NewHTTPRetryClient_negative_ceiling (alwaysStatus 200)
           [WithLoggerRetry (Some slogLogger)] (-5) GET start).
  lia.
Defined.

Lemma RoundTrip_never_panics_witness :
  exists x s',
    RoundTrip alwaysError
      (retrier (failThenOK 1) 2 (JitterBackoff Second (10 * Second)))
      GET start
    = Ok x s'.
Proof.
  apply (RoundTrip_never_panics alwaysError
           (retrier (failThenOK 1) 2 (JitterBackoff Second (10 * Second)))
           GET start).
  - intros a g Ha. cbn [strategyOf rt_RetryStrategy retrier rt_MaxRetries] in *.
    destruct (jitter_total_from_two Second (10 * Second) a g)
      as [e [d [g' (_ & _ & E & _)]]];
      try (unfold Int64.in_range, Int64.min_int, Int64.max_int, Second; lia).
    rewrite E. discriminate.
  - intros q w. cbn [transportOf rt_Transport retrier]. unfold failThenOK.
    destruct (attempts w <? 1)%nat; discriminate.
  - intros q w rp err. cbn [transportOf rt_Transport retrier].
    unfold failThenOK.
    destruct (attempts w <? 1)%nat; cbn; intros E _; inversion E;
      discriminate.
Defined.

Lemma RoundTrip_nil_body_panics_witness :
  reaches (noBody 500) (FixedDelay Millisecond)
    (retrier (noBody 500) 3 (FixedDelay Millisecond)) 0 GET start 0 GET start
  /\ 0 <= 3
  /\ retryable
       (Some {| StatusCode := 500; resp_Header := []; resp_Body := None |},
        None)
  /\ RoundTrip alwaysError (retrier (noBody 500) 3 (FixedDelay Millisecond))
       GET start
     = Panic {| world := {| attempts := 1; getBodyAttempts := 0 |};
                rng := []; clock := 0; trace := [EvRoundTrip None] |}.
Proof.
  assert (R : retryable
                (Some {| StatusCode := 500; resp_Header := [];
                         resp_Body := None |}, None))
    by (cbn; unfold StatusInternalServerError; lia).
  split; [apply reaches_here|]. split; [lia|]. split; [exact R|].
  apply (RoundTrip_nil_body_panics alwaysError
           (retrier (noBody 500) 3 (FixedDelay Millisecond))
           GET start 0 GET start GET start
           {| StatusCode := 500; resp_Header := []; resp_Body := None |}
           None (tick_attempts (world start))).
  - apply reaches_here.
  - cbn. lia.
  - reflexivity.
  - reflexivity.
  - exact R.
  - reflexivity.
Defined.

Lemma Build_client_never_panics_witness :
  exists x s',
    RoundTrip alwaysError
      (Transport
         (client
            (Build string (fun u => inl u) (fun _ => serverStatus 503)
               (WithRetryStrategy JitterBackoffStrategy
                  (WithRetryMaxDelay 0 NewClientBuilder)))))
      GET start
    = Ok x s'.
Proof.
  apply (ClientBuilderRuns.Build_client_never_panics string (fun u => inl u)
           (fun _ => serverStatus 503) alwaysError
           (WithRetryStrategy JitterBackoffStrategy
              (WithRetryMaxDelay 0 NewClientBuilder))
           GET start).
  intros q w. discriminate.
Defined.

Lemma Build_keeps_valid_settings_witness :
  in_range NewClientBuilder
  /\ builder (Build string (fun u => inl u) (fun _ => serverStatus 503)
                NewClientBuilder)
     = NewClientBuilder
  /\ Timeout
       (client (Build string (fun u => inl u) (fun _ => serverStatus 503)
                  NewClientBuilder))
     = 5 * Second
  /\ rt_MaxRetries
       (Transport
          (client (Build string (fun u => inl u) (fun _ => serverStatus 503)
                     NewClientBuilder)))
     = 3.
Proof.
  assert (R : in_range NewClientBuilder)
    by (unfold in_range; vm_compute; repeat split; discriminate).
  split; [exact R|].
  destruct (ClientBuilderFacts.Build_keeps_valid_settings string
              (fun u => inl u) (fun _ => serverStatus 503) NewClientBuilder R)
    as (H1 & _ & H3 & H4 & _).
  split; [exact H1|]. split; [exact H3|exact H4].
Defined.

Lemma Build_ceiling_out_of_range_witness :
  (0 < 1 \/ 10 < 0)
  /\ rt_MaxRetries
       (Transport
          (client (Build string (fun u => inl u) (fun _ => serverStatus 503)
                     (WithMaxRetries 0 NewClientBuilder))))
     = 3.
Proof.
  assert (H : 0 < 1 \/ 10 < 0) by (left; lia).
  split; [exact H|].
  apply (ClientBuilderFacts.Build_ceiling_out_of_range string
           (fun u => inl u) (fun _ => serverStatus 503) NewClientBuilder 0 H).
Defined.

Lemma Build_strategy_is_safe_witness :
  0 <= 9 <= 30
  /\ exists d rng',
       strategyOf
         (Transport
            (client
               (Build string (fun u => inl u) (fun _ => serverStatus 503)
                  (WithRetryStrategy JitterBackoffStrategy
                     (WithRetryBaseDelay 0 NewClientBuilder)))))
         9 [42]
       = (Some d, rng')
       /\ 300 * Millisecond <= d < 180 * Second.
Proof.
  split; [lia|].
  apply (ClientBuilderFacts.Build_strategy_is_safe string (fun u => inl u)
           (fun _ => serverStatus 503)
           (WithRetryStrategy JitterBackoffStrategy
              (WithRetryBaseDelay 0 NewClientBuilder)) 9 [42]).
  lia.
Defined.

End MoreRuns.

(** ** The request builder *)

Module RequestBuilderFacts.

Import RequestBuilder.

(** *** Maps *)

Lemma map_get_filter_other {V} k k' (m : list (string * V)) :
  k <> k' ->
  map_get k (List.filter (fun p => negb (String.eqb (fst p) k')) m)
  = map_get k m.
Proof.
  intros N. induction m as [|[a v] m IH]; [reflexivity|]. cbn.
  destruct (String.eqb a k') eqn:E; cbn.
  - apply String.eqb_eq in E. subst a.
    destruct (String.eqb k' k) eqn:F; [|exact IH].
    apply String.eqb_eq in F. congruence.
  - rewrite IH. reflexivity.
Qed.

Lemma map_get_set_same {V} k (v : V) m : map_get k (map_set k v m) = Some v.
Proof. unfold map_set. cbn. rewrite String.eqb_refl. reflexivity. Qed.

Lemma map_get_set_other {V} k k' (v : V) m :
  k <> k' -> map_get k (map_set k' v m) = map_get k m.
Proof.
  intros N. unfold map_set. cbn.
  destruct (String.eqb k' k) eqn:E.
  - apply String.eqb_eq in E. congruence.
  - apply map_get_filter_other. exact N.
Qed.

Lemma map_get_copy_other k (hs m : StringMap) :
  ~ In k (List.map fst hs) ->
  map_get k (fold_left (fun h p => map_set (fst p) (snd p) h) hs m)
  = map_get k m.
Proof.
  revert m. induction hs as [|[a v] hs IH]; intros m N; [reflexivity|].
  cbn [fold_left fst snd]. rewrite IH.
  - apply map_get_set_other. intros E. apply N. left. cbn. congruence.
  - intros I. apply N. right. exact I.
Qed.

Lemma map_get_copy k v (hs m : StringMap) :
  NoDup (List.map fst hs) -> In (k, v) hs ->
  map_get k (fold_left (fun h p => map_set (fst p) (snd p) h) hs m) = Some v.
Proof.
  revert m. induction hs as [|[a w] hs IH]; intros m D I; [contradiction|].
  cbn [List.map fst] in D. inversion D as [|x l Hn Hd]. subst.
  cbn [fold_left fst snd]. destruct I as [E|I].
  - inversion E. subst a w. rewrite map_get_copy_other by exact Hn.
    apply map_get_set_same.
  - apply IH; assumption.
Qed.

Section Facts.

Variable ToUpper : string -> string.
Variable TrimSpace : string -> string.
Variable EncodeToString : string -> string.
Context {Any Reader : Type}.

Local Abbreviation Builder := (RequestBuilder (Any := Any) (Reader := Reader)).
Local Abbreviation call' := (call ToUpper TrimSpace EncodeToString).
Local Abbreviation chain' := (chain ToUpper TrimSpace EncodeToString).

Ltac open_call :=
  cbn [call];
  unfold WithMethod, WithMethodGET, WithMethodPOST, WithMethodPUT,
    WithMethodDELETE, WithMethodPATCH, WithMethodHEAD, WithMethodOPTIONS,
    WithMethodTRACE, WithMethodCONNECT, WithPath, WithQueryParam,
    WithQueryParams, WithBasicAuth, WithBearerAuth, WithUserAgent,
    WithJSONBody, WithContentType, WithAccept, WithHeader, WithHeaders,
    WithRawBody, WithStringBody, WithBytesBody, WithContext, Reset,
    fail, Errorf, addError, set_method, set_headers, set_queryParams,
    set_bodies.

Ltac split_ifs :=
  repeat match goal with
         | |- context [if ?b then _ else _] => destruct b eqn:?
         end.

(** A call other than [Reset] keeps the errors recorded and adds at most
    one. *)
Lemma call_errors (c : Call) (rb : Builder) :
  is_Reset c = false ->
  exists new,
    errors (call' c rb) = errors rb ++ new /\ (List.length new <= 1)%nat.
Proof.
  intros R. destruct c; try discriminate R; open_call;
    try match goal with c : option Context |- _ => destruct c end;
    cbn; split_ifs; cbn;
    first [ exists []; rewrite app_nil_r; split; [reflexivity|cbn; lia]
          | eexists; split; [reflexivity|cbn; lia] ].
Qed.

Lemma chain_cons c cs (rb : Builder) :
  chain' (c :: cs) rb = chain' cs (call' c rb).
Proof. reflexivity. Qed.

Lemma HasErrors_app (rb rb' : Builder) new :
  errors rb' = errors rb ++ new ->
  HasErrors rb = true -> HasErrors rb' = true.
Proof.
  unfold HasErrors. intros E H. rewrite E, length_app.
  apply Nat.ltb_lt in H. apply Nat.ltb_lt. lia.
Qed.

(** Errors are sticky: along a chain of calls without [Reset] every error
    recorded stays, in order, each call adds at most one, and a builder
    that has errors keeps having them. *)
Theorem errors_accumulate cs (rb : Builder) :
  forallb (fun c => negb (is_Reset c)) cs = true ->
  exists new,
    GetErrors (chain' cs rb) = GetErrors rb ++ new
    /\ (List.length new <= List.length cs)%nat
    /\ (HasErrors rb = true -> HasErrors (chain' cs rb) = true).
Proof.
  unfold GetErrors. revert rb.
  induction cs as [|c cs IH]; intros rb H.
  - exists []. rewrite app_nil_r.
    split; [reflexivity|]. split; [cbn; lia|]. intros E. exact E.
  - cbn [forallb] in H. apply andb_true_iff in H. destruct H as [Hc Hcs].
    apply negb_true_iff in Hc.
    destruct (call_errors c rb Hc) as [n1 [E1 L1]].
    destruct (IH (call' c rb) Hcs) as [n2 [E2 [L2 _]]].
    rewrite chain_cons. exists (n1 ++ n2).
    assert (E : errors (chain' cs (call' c rb)) = errors rb ++ n1 ++ n2)
      by (rewrite E2, E1, app_assoc; reflexivity).
    split; [exact E|]. split; [rewrite length_app; cbn; lia|].
    apply (HasErrors_app rb _ _ E).
Qed.

Local Opaque isValidHTTPMethod.

Lemma call_method (c : Call) (rb : Builder) :
  method rb = "" \/ isValidHTTPMethod (method rb) = true ->
  method (call' c rb) = ""
  \/ isValidHTTPMethod (method (call' c rb)) = true.
Proof.
  intros H. destruct c; open_call;
    try match goal with c : option Context |- _ => destruct c end;
    cbn; split_ifs; cbn;
    first [ exact H
          | left; reflexivity
          | right; vm_compute; reflexivity
          | right;
            match goal with
            | E : negb _ = false |- _ => apply negb_false_iff in E; exact E
            end ].
Qed.

Local Transparent isValidHTTPMethod.

(** The method a builder holds is always empty or one of the nine standard
    methods, whatever calls were chained: [WithMethod] stores nothing
    else. *)
Theorem method_is_standard cs baseURL :
  let rb : Builder := chain' cs (NewRequestBuilder baseURL) in
  method rb = "" \/ In (method rb) validMethods.
Proof.
  cbv zeta.
  assert (G : forall cs (rb : Builder),
             method rb = "" \/ isValidHTTPMethod (method rb) = true ->
             method (chain' cs rb) = ""
             \/ isValidHTTPMethod (method (chain' cs rb)) = true).
  { clear cs. induction cs as [|c cs IH]; intros rb H; [exact H|].
    rewrite chain_cons. apply IH. apply call_method. exact H. }
  destruct (G cs (NewRequestBuilder baseURL)) as [E|V].
  - left. reflexivity.
  - left. exact E.
  - right. unfold isValidHTTPMethod in V. apply existsb_exists in V.
    destruct V as [m [I E]]. apply String.eqb_eq in E. rewrite E. exact I.
Qed.

(** A call that records an error changes nothing else: the request the
    builder describes is the one it described before. *)
Theorem rejected_call_changes_nothing (c : Call) (rb : Builder) :
  is_Reset c = false ->
  GetErrors (call' c rb) <> GetErrors rb ->
  same_request rb (call' c rb).
Proof.
  unfold GetErrors, same_request.
  intros R. destruct c; try discriminate R; open_call;
    try match goal with c : option Context |- _ => destruct c end;
    cbn; split_ifs; cbn; intros N;
    first [ exfalso; apply N; reflexivity | repeat split ].
Qed.

Lemma call_bodies (c : Call) (rb : Builder) :
  body rb = None \/ bodyReader rb = None ->
  body (call' c rb) = None \/ bodyReader (call' c rb) = None.
Proof.
  intros H. destruct c; open_call;
    try match goal with c : option Context |- _ => destruct c end;
    cbn; split_ifs; cbn;
    first [ exact H | left; reflexivity | right; reflexivity ].
Qed.

(** A builder never holds a JSON body and a body reader at once: each of
    the four body setters clears the other kind. *)
Theorem bodies_are_exclusive cs baseURL :
  let rb : Builder := chain' cs (NewRequestBuilder baseURL) in
  body rb = None \/ bodyReader rb = None.
Proof.
  cbv zeta.
  assert (G : forall cs (rb : Builder),
             body rb = None \/ bodyReader rb = None ->
             body (chain' cs rb) = None \/ bodyReader (chain' cs rb) = None).
  { clear cs. induction cs as [|c cs IH]; intros rb H; [exact H|].
    rewrite chain_cons. apply IH. apply call_bodies. exact H. }
  apply G. left. reflexivity.
Qed.

(** [WithUserAgent] either stores the trimmed value, which is then not
    empty, at most 500 bytes long and free of CR, LF and TAB, or records
    one error and leaves the headers as they were. *)
Theorem WithUserAgent_stores_a_safe_value ua (rb : Builder) :
  let rb' := WithUserAgent TrimSpace ua rb in
  (GetErrors rb' = GetErrors rb
   /\ map_get "User-Agent" (headers rb') = Some (TrimSpace ua)
   /\ TrimSpace ua <> ""
   /\ (String.length (TrimSpace ua) <= 500)%nat
   /\ ContainsAny (TrimSpace ua) (String CR (String LF (String TAB "")))
      = false)
  \/ (exists e, GetErrors rb' = GetErrors rb ++ [e])
     /\ headers rb' = headers rb.
Proof.
  cbv zeta. unfold GetErrors, WithUserAgent.
  destruct (String.eqb ua "") eqn:E0; [right; split; [eexists|]; reflexivity|].
  destruct (String.eqb (TrimSpace ua) "") eqn:E1;
    [right; split; [eexists|]; reflexivity|].
  destruct (500 <? String.length (TrimSpace ua))%nat eqn:E2;
    [right; split; [eexists|]; reflexivity|].
  destruct (ContainsAny (TrimSpace ua) (String CR (String LF (String TAB ""))))
    eqn:E3; [right; split; [eexists|]; reflexivity|].
  left. cbn [errors headers set_headers]. split; [reflexivity|].
  split; [apply map_get_set_same|]. split.
  - intros E. rewrite E in E1. discriminate.
  - split; [apply Nat.ltb_ge in E2; exact E2|reflexivity].
Qed.

(** [Reset] leaves the builder as [NewRequestBuilder] makes it for the
    same base URL: no method, path, parameter, header, body or error, and
    the background context. *)
Theorem Reset_is_a_new_builder (rb : Builder) :
  same_request (NewRequestBuilder (baseURL rb)) (Reset rb)
  /\ GetErrors (Reset rb) = []
  /\ HasErrors (Reset rb) = false.
Proof. unfold same_request. cbn. repeat split. Qed.

(** [WithHeaders] checks nothing: it records no error whatever the map
    holds, an empty key or an empty value included, and afterwards every
    pair of the map can be read back. *)
Theorem WithHeaders_is_unchecked hs k v (rb : Builder) :
  NoDup (List.map fst hs) ->
  In (k, v) hs ->
  GetErrors (WithHeaders hs rb) = GetErrors rb
  /\ map_get k (headers (WithHeaders hs rb)) = Some v.
Proof.
  intros D I. unfold WithHeaders, GetErrors. cbn [errors headers set_headers].
  split; [reflexivity|]. apply map_get_copy; assumption.
Qed.

(** A header that passes the checks of [WithHeader] is stored under its
    key, replaces what the key had, and leaves every other header and the
    errors as they were. *)
Theorem WithHeader_stores key value (rb : Builder) :
  key <> "" -> value <> "" ->
  ContainsAny key (String " " (String TAB (String LF (String CR "")))) = false ->
  let rb' := WithHeader key value rb in
  GetErrors rb' = GetErrors rb
  /\ map_get key (headers rb') = Some value
  /\ (forall k, k <> key -> map_get k (headers rb') = map_get k (headers rb)).
Proof.
  intros Hk Hv Hc. cbv zeta. unfold WithHeader, GetErrors.
  replace (String.eqb key "") with false
    by (symmetry; apply String.eqb_neq; exact Hk).
  replace (String.eqb value "") with false
    by (symmetry; apply String.eqb_neq; exact Hv).
  rewrite Hc. cbn [errors headers set_headers].
  split; [reflexivity|]. split; [apply map_get_set_same|].
  intros k N. apply map_get_set_other. exact N.
Qed.

(** A query parameter that passes the checks of [WithQueryParam] is added
    after the values its key already has, in call order, and the other keys
    are left as they were. *)
Theorem WithQueryParam_appends key value (rb : Builder) :
  key <> "" -> value <> "" ->
  ContainsAny key (String " " (String TAB (String LF (String CR "=&"))))
  = false ->
  let rb' := WithQueryParam key value rb in
  GetErrors rb' = GetErrors rb
  /\ map_get key (queryParams rb')
     = Some (match map_get key (queryParams rb) with
             | Some old => old
             | None => []
             end ++ [value])
  /\ (forall k, k <> key ->
        map_get k (queryParams rb') = map_get k (queryParams rb)).
Proof.
  intros Hk Hv Hc. cbv zeta. unfold WithQueryParam, GetErrors.
  replace (String.eqb key "") with false
    by (symmetry; apply String.eqb_neq; exact Hk).
  replace (String.eqb value "") with false
    by (symmetry; apply String.eqb_neq; exact Hv).
  rewrite Hc. cbn [errors queryParams set_queryParams].
  split; [reflexivity|]. unfold Values_Add.
  destruct (map_get key (queryParams rb)) as [old|].
  - split; [apply map_get_set_same|].
    intros k N. apply map_get_set_other. exact N.
  - split; [apply map_get_set_same|].
    intros k N. apply map_get_set_other. exact N.
Qed.

End Facts.

End RequestBuilderFacts.

(** ** The request builder at work *)

Section RequestRuns.

Import RequestBuilder.

Lemma errors_accumulate_witness :
  forallb (fun c => negb (is_Reset c))
    [CallWithMethod "get"; CallWithHeader "" "v";
     CallWithQueryParam "a b" "c"; CallWithMethodPOST (Any := unit) (Reader := unit)]
  = true
  /\ exists new,
       GetErrors
         (chain asciiUpper noTrim (fun s => s)
            [CallWithMethod "get"; CallWithHeader "" "v";
             CallWithQueryParam "a b" "c"; CallWithMethodPOST]
            (NewRequestBuilder (Any := unit) (Reader := unit)
               "https://api.example.com"))
       = [] ++ new
       /\ (List.length new <= 4)%nat.
Proof.
  split; [reflexivity|].
  destruct (RequestBuilderFacts.errors_accumulate asciiUpper noTrim
              (fun s => s)
              [CallWithMethod "get"; CallWithHeader "" "v";
               CallWithQueryParam "a b" "c";
               CallWithMethodPOST (Any := unit) (Reader := unit)]
              (NewRequestBuilder "https://api.example.com") eq_refl)
    as [new [E [L _]]].
  exists new. split; [exact E|exact L].
Defined.

Lemma rejected_call_changes_nothing_witness :
  GetErrors
    (call asciiUpper noTrim (fun s => s) (CallWithHeader "" "value")
       (WithMethodPOST
          (NewRequestBuilder (Any := unit) (Reader := unit)
             "https://api.example.com")))
  <> []
  /\ same_request
       (WithMethodPOST (NewRequestBuilder "https://api.example.com"))
       (call asciiUpper noTrim (fun s => s) (CallWithHeader "" "value")
          (WithMethodPOST
             (NewRequestBuilder (Any := unit) (Reader := unit)
                "https://api.example.com"))).
Proof.
  assert (N : GetErrors
                (call asciiUpper noTrim (fun s => s) (CallWithHeader "" "value")
                   (WithMethodPOST
                      (NewRequestBuilder (Any := unit) (Reader := unit)
                         "https://api.example.com")))
              <> [])
    by (cbn; discriminate).
  split; [exact N|].
  apply (RequestBuilderFacts.rejected_call_changes_nothing asciiUpper noTrim
           (fun s => s) (CallWithHeader "" "value")
           (WithMethodPOST
              (NewRequestBuilder (Any := unit) (Reader := unit)
                 "https://api.example.com"))
           eq_refl N).
Defined.

Lemma WithHeaders_is_unchecked_witness :
  NoDup (List.map fst [("", "x"); ("X-Trace Id", "y")])
  /\ GetErrors
       (WithHeaders [("", "x"); ("X-Trace Id", "y")]
          (NewRequestBuilder (Any := unit) (Reader := unit)
             "https://api.example.com"))
     = []
  /\ map_get ""
       (headers
          (WithHeaders [("", "x"); ("X-Trace Id", "y")]
             (NewRequestBuilder (Any := unit) (Reader := unit)
                "https://api.example.com")))
     = Some "x".
Proof.
  assert (D : NoDup (List.map fst [("", "x"); ("X-Trace Id", "y")])).
  { cbn. constructor.
    - intros [E|[]]. discriminate E.
    - constructor; [intros []|constructor]. }
  split; [exact D|].
  apply (RequestBuilderFacts.WithHeaders_is_unchecked
           [("", "x"); ("X-Trace Id", "y")] "" "x"
           (NewRequestBuilder (Any := unit) (Reader := unit)
              "https://api.example.com") D).
  left. reflexivity.
Defined.

Lemma WithHeader_stores_witness :
  "Accept" <> ""
  /\ "application/json" <> ""
  /\ map_get "Accept"
       (headers
          (WithHeader "Accept" "application/json"
             (WithHeader "Accept" "text/plain"
                (NewRequestBuilder (Any := unit) (Reader := unit)
                   "https://api.example.com"))))
     = Some "application/json".
Proof.
  assert (A : "Accept" <> "") by discriminate.
  assert (B : "application/json" <> "") by discriminate.
  split; [exact A|]. split; [exact B|].
  destruct (RequestBuilderFacts.WithHeader_stores "Accept" "application/json"
              (WithHeader "Accept" "text/plain"
                 (NewRequestBuilder (Any := unit) (Reader := unit)
                    "https://api.example.com"))
              A B eq_refl) as (_ & G & _).
  exact G.
Defined.

Lemma WithQueryParam_appends_witness :
  "tag" <> ""
  /\ "b" <> ""
  /\ map_get "tag"
       (queryParams
          (WithQueryParam "tag" "b"
             (WithQueryParam "tag" "a"
                (NewRequestBuilder (Any := unit) (Reader := unit)
                   "https://api.example.com"))))
     = Some ["a"; "b"].
Proof.
  assert (A : "tag" <> "") by discriminate.
  assert (B : "b" <> "") by discriminate.
  split; [exact A|]. split; [exact B|].
  destruct (RequestBuilderFacts.WithQueryParam_appends "tag" "b"
              (WithQueryParam "tag" "a"
                 (NewRequestBuilder (Any := unit) (Reader := unit)
                    "https://api.example.com"))
              A B eq_refl) as (_ & G & _).
  exact G.
Defined.

End RequestRuns.
